(** * Snyk REST utility: request executor, waiver workflow, template store

    A shallow embedding of [snyk_utility.py] and of the request executor of
    [snyk_auth_debug.py], with the properties their specification states.

    Conventions of the embedding:
    - the remote API and the wall clock are the environment: a deterministic
      function of everything the client has done so far (its [History]);
    - client code lives in a state-and-exception monad [M] over that history;
    - Python exceptions are values of [Exn]; [try ... except] is [try_except];
    - JSON bodies are modelled at the shape the client reads them
      (JSON:API documents whose attribute values are strings);
    - a [string] holds the UTF-8 bytes of a Python [str]; what the Python
      runtime and the operating system decide (the case mapping of text
      that is not plain ASCII, how long a sleep the platform carries out,
      the parsing of dates) is part of the environment. *)

From stdpp Require Import base option list gmap.
From Stdlib Require Import ZArith Lia Ascii String DecimalString.
From stdpp Require Import strings.

Open Scope Z_scope.

(** ** Wire model *)

(** The value of [int(response.headers.get('Retry-After', 60))]: the header
    may be missing (the default, the integer 60, is used), hold text that
    [int] accepts, or hold text on which [int] raises [ValueError]. *)
Inductive RetryAfterHeader : Type :=
| HeaderAbsent
| HeaderInt (n : Z)
| HeaderMalformed.

(** A resource identifier object, [{'type': ..., 'id': ...}]. *)
Record Identifier : Type := mkIdentifier {
  ident_type : option string;
  ident_id : option string
}.

(** The ['data'] member of a relationship: one identifier or an array. *)
Inductive RelData : Type :=
| RelOne (i : Identifier)
| RelMany (l : list Identifier).

(** A resource object; a missing key is [None]. Members the client never
    reads ([links], [meta]) are left out. *)
Record Resource : Type := mkResource {
  res_type : option string;
  res_id : option string;
  res_attributes : option (gmap string string);
  res_relationships : option (gmap string (option RelData))
}.

(** The ['data'] member of a document: one resource or an array. *)
Inductive Primary : Type :=
| DataOne (r : Resource)
| DataMany (l : list Resource).

Record Document : Type := mkDocument { doc_data : option Primary }.

Record Response : Type := mkResponse {
  status_code : Z;
  retry_after : RetryAfterHeader;
  (** [None]: the body is not a JSON object and [response.json()] or the
      first [.get] on it raises. *)
  json_body : option Document
}.

(** The JSON body of the waiver-creation request. *)
Record WaiverData : Type := mkWaiverData {
  wd_reason : string;
  wd_waiver_type : string;
  wd_expiry : Z;
  wd_justification : string;
  wd_issue_id : string
}.

Record Request : Type := mkRequest {
  req_method : string;
  req_url : string;
  req_params : list (string * string);
  req_json : option WaiverData
}.

(** What [session.request] does: it returns a response or raises a
    [requests.exceptions.RequestException] (connection error, timeout). *)
Inductive Outcome : Type :=
| Responded (r : Response)
| Failed.

(** Observable actions of the client, oldest first. *)
Inductive Event : Type :=
| Requested (r : Request)
| Slept (seconds : Z).

Definition History : Type := list Event.

#[global] Instance Identifier_eq_dec : EqDecision Identifier.
Proof. solve_decision. Defined.
#[global] Instance RetryAfterHeader_eq_dec : EqDecision RetryAfterHeader.
Proof. solve_decision. Defined.
#[global] Instance WaiverData_eq_dec : EqDecision WaiverData.
Proof. solve_decision. Defined.
#[global] Instance Request_eq_dec : EqDecision Request.
Proof. solve_decision. Defined.
#[global] Instance Event_eq_dec : EqDecision Event.
Proof. solve_decision. Defined.

Definition is_request (e : Event) : bool :=
  match e with Requested _ => true | Slept _ => false end.

Definition requests_of (h : History) : list Request :=
  omap (fun e => match e with Requested r => Some r | Slept _ => None end) h.

Definition sleeps_of (h : History) : list Z :=
  omap (fun e => match e with Slept s => Some s | Requested _ => None end) h.

(** ** Exceptions and the client monad *)

Inductive Exn : Type :=
| HTTPError (status : Z)
| ConnectionError
| ValueError
| KeyError
| AttributeError
| OSError
| OverflowError (msg : string)
| PlainException (msg : string).

(** [isinstance(e, requests.exceptions.RequestException)] *)
Definition is_RequestException (e : Exn) : bool :=
  match e with
  | HTTPError _ | ConnectionError => true
  | _ => false
  end.

Inductive Res (A : Type) : Type :=
| Ok (a : A)
| Raise (e : Exn).
Arguments Ok {A} a.
Arguments Raise {A} e.

Definition M (A : Type) : Type := History -> Res A * History.

Definition ret {A} (a : A) : M A := fun h => (Ok a, h).
Definition raise {A} (e : Exn) : M A := fun h => (Raise e, h).
Definition bind {A B} (m : M A) (k : A -> M B) : M B :=
  fun h => match m h with
           | (Ok a, h') => k a h'
           | (Raise e, h') => (Raise e, h')
           end.
(** [try: m  except <any Exception> as e: handler e] *)
Definition try_except {A} (m : M A) (handler : Exn -> M A) : M A :=
  fun h => match m h with
           | (Ok a, h') => (Ok a, h')
           | (Raise e, h') => handler e h'
           end.

#[global] Instance M_ret : MRet M := @ret.
#[global] Instance M_bind : MBind M := fun A B k m => bind m k.

(** [response.raise_for_status()] of the requests library: an [HTTPError]
    for every 4xx and 5xx status. *)
Definition raise_for_status (r : Response) : M unit :=
  if (400 <=? status_code r) && (status_code r <? 600)
  then raise (HTTPError (status_code r))
  else ret tt.

(** [int(response.headers.get('Retry-After', 60))] *)
Definition int_retry_after (r : Response) : M Z :=
  match retry_after r with
  | HeaderAbsent => ret 60
  | HeaderInt n => ret n
  | HeaderMalformed => raise ValueError
  end.

Definition max_retries : nat := 3.
Definition backoff_factor : Z := 1.

(** How one pass through the body of the [for attempt in ...] loop ends
    when it does not raise. *)
Inductive Flow : Type :=
| Continue
| Return (r : Response).

(** ** Strings *)

(** [s.isascii()]: every byte is below 128. *)
Fixpoint isascii (s : string) : bool :=
  match s with
  | EmptyString => true
  | String c t => (nat_of_ascii c <? 128)%nat && isascii t
  end.

(** [s.lower()] on plain ASCII text: the letters A to Z are folded, every
    other character stays. *)
Definition lower_ascii (c : ascii) : ascii :=
  let n := nat_of_ascii c in
  if ((65 <=? n) && (n <=? 90))%nat then ascii_of_nat (n + 32) else c.

Fixpoint ascii_lower (s : string) : string :=
  match s with
  | EmptyString => EmptyString
  | String c t => String (lower_ascii c) (ascii_lower t)
  end.

(** [str(n)] for an integer. *)
Definition str_of_int (n : Z) : string := NilZero.string_of_int (Z.to_int n).

(** [needle in haystack]. Both are UTF-8, where an occurrence of the bytes
    of [needle] is an occurrence of its characters. *)
Fixpoint contains (needle haystack : string) : bool :=
  String.prefix needle haystack ||
  match haystack with
  | EmptyString => false
  | String _ t => contains needle t
  end.

(** [s.startswith(p)] *)
Definition startswith (s p : string) : bool := String.prefix p s.

(** [s.replace('Z', '+00:00')] *)
Fixpoint replace_Z (s : string) : string :=
  match s with
  | EmptyString => EmptyString
  | String c t =>
      if Ascii.eqb c "Z"%char then "+00:00" +:+ replace_Z t
      else String c (replace_Z t)
  end.

(** The double-quote character of the f-strings that quote the issue
    reference. *)
Definition quote_mark : string := String (ascii_of_nat 34) EmptyString.

(** ** Domain model *)

Module WaiverTemplate.
Record t : Type := mk {
  name : string;
  description : string;
  waiver_type : string;
  default_days : Z;
  justification : string;
  category : string
}.
End WaiverTemplate.

Module SnykIssue.
Record t : Type := mk {
  id : string;
  title : string;
  severity : string;
  issue_type : string;
  project_id : string;
  project_name : string;
  package_name : string;
  package_version : string;
  introduced_date : string
}.

(** The tuple [__hash__] hashes. *)
Definition hash_key (i : t) : string * string * string :=
  (id i, package_name i, package_version i).

(** [__eq__], on two issues. *)
Definition eqb (a b : t) : bool :=
  bool_decide (id a = id b) &&
  bool_decide (package_name a = package_name b) &&
  bool_decide (package_version a = package_version b).
End SnykIssue.

Module SnykWaiver.
Record t : Type := mk {
  id : string;
  issue_id : string;
  project_id : string;
  project_name : string;
  reason : string;
  waiver_type : string;
  created_date : string;
  expiry_date : string;
  created_by : string;
  is_active : bool;
  issue_title : string;
  issue_severity : string
}.
End SnykWaiver.

#[global] Instance WaiverTemplate_eq_dec : EqDecision WaiverTemplate.t.
Proof. solve_decision. Defined.
#[global] Instance SnykIssue_eq_dec : EqDecision SnykIssue.t.
Proof. solve_decision. Defined.
#[global] Instance SnykWaiver_eq_dec : EqDecision SnykWaiver.t.
Proof. solve_decision. Defined.

(** A Python [set] of issues: its members, no two of them equal under
    [__eq__]. The order of the list is the order of insertion; Python
    promises no order, and no statement below depends on it. *)
Definition IssueSet : Type := list SnykIssue.t.

(** [x in s] *)
Definition set_mem (x : SnykIssue.t) (s : IssueSet) : bool :=
  existsb (SnykIssue.eqb x) s.

(** [s.add(x)]: a member equal to [x] stays, [x] is dropped. *)
Definition set_add (s : IssueSet) (x : SnykIssue.t) : IssueSet :=
  if set_mem x s then s else s ++ [x].

(** [s.update(xs)] *)
Definition set_update (s : IssueSet) (xs : list SnykIssue.t) : IssueSet :=
  foldl set_add s xs.

(** The result dictionaries [{'status': ..., 'reason': ...}]. *)
Record StatusDict : Type := mkStatus {
  status : string;
  reason : string
}.

#[global] Instance StatusDict_eq_dec : EqDecision StatusDict.
Proof. solve_decision. Defined.

(** [str(e)]. The one place where the client formats an exception into a
    result is the handler of [bulk_add_waivers_by_project_list], which only
    an [OverflowError] reaches; an [OverflowError] carries its message. The
    other texts stand for messages that depend on data outside the model
    (the reason phrase of a response, the errno of a file). *)
Definition exn_str (e : Exn) : string :=
  match e with
  | HTTPError s => "HTTP error"
  | ConnectionError => "connection error"
  | ValueError => "invalid value"
  | KeyError => "'id'"
  | AttributeError => "object has no attribute"
  | OSError => "cannot open file"
  | OverflowError msg => msg
  | PlainException msg => msg
  end.

(** [datetime] arithmetic, in microseconds since 0001-01-01T00:00:00. *)
Definition microseconds_per_day : Z := 86400000000.
(** [datetime.max] is 9999-12-31T23:59:59.999999, day 3652059 of the
    calendar. *)
Definition datetime_max : Z := 3652059 * microseconds_per_day - 1.
(** [timedelta.max.days] *)
Definition timedelta_max_days : Z := 999999999.

(** The message of the [OverflowError] of [timedelta(days=days)]: the
    number of days is first converted to a C [int], then range-checked. *)
Definition timedelta_overflow_message (days : Z) : string :=
  if (-2147483648 <=? days) && (days <=? 2147483647)
  then "days=" +:+ str_of_int days +:+ "; must have magnitude <= 999999999"
  else "Python int too large to convert to C int".

(** The message of the [OverflowError] of [datetime + timedelta]. *)
Definition date_overflow_message : string := "date value out of range".

(** [time.sleep] turns its argument into nanoseconds in 64 bits: a length
    above this number of seconds is an [OverflowError]. *)
Definition pytime_max_seconds : Z := 9223372036.

Definition sleep_overflow_message : string :=
  "timestamp too large to convert to C _PyTime_t".

(** ** Template store *)

(** [WaiverTemplateManager._load_default_templates] *)
Definition _load_default_templates : list WaiverTemplate.t :=
  [
    WaiverTemplate.mk "false_positive"
      "False Positive - Issue not applicable to our use case"
      "not-applicable" 365
      "After analysis, this vulnerability does not apply to our specific implementation or usage pattern."
      "analysis";
    WaiverTemplate.mk "dev_dependency"
      "Development Dependency - Not in production"
      "not-applicable" 180
      "This vulnerability exists in a development-only dependency and does not affect production code."
      "environment";
    WaiverTemplate.mk "upgrade_planned"
      "Upgrade Planned - Fix scheduled"
      "temporary" 90
      "Upgrade to resolve this vulnerability is planned and scheduled for the next release cycle."
      "remediation";
    WaiverTemplate.mk "no_exploit_path"
      "No Exploit Path - Code path not accessible"
      "not-applicable" 365
      "The vulnerable code path is not accessible in our application architecture."
      "analysis";
    WaiverTemplate.mk "low_risk_accepted"
      "Low Risk Accepted - Business decision to accept"
      "wont-fix" 365
      "After risk assessment, business has decided to accept this low-risk vulnerability."
      "business";
    WaiverTemplate.mk "legacy_system"
      "Legacy System - Cannot be updated"
      "wont-fix" 730
      "This is a legacy system that cannot be updated due to business constraints."
      "legacy";
    WaiverTemplate.mk "vendor_patch_pending"
      "Vendor Patch Pending - Waiting for upstream fix"
      "temporary" 180
      "Waiting for vendor to release a patch for this vulnerability."
      "vendor";
    WaiverTemplate.mk "test_environment"
      "Test Environment - Not production critical"
      "not-applicable" 180
      "This vulnerability exists in test environment and does not impact production security."
      "environment";
    WaiverTemplate.mk "internal_tool"
      "Internal Tool - Limited exposure"
      "wont-fix" 365
      "This is an internal tool with limited exposure and accepted risk."
      "business"
  ].

(** The same method in the second revision of the file, with one more
    built-in template. *)
Definition _load_default_templates_rev2 : list WaiverTemplate.t :=
  [
    WaiverTemplate.mk "false_positive"
      "False Positive - Issue not applicable to our use case"
      "not-applicable" 365
      "After analysis, this vulnerability does not apply to our specific implementation or usage pattern."
      "analysis";
    WaiverTemplate.mk "dev_dependency"
      "Development Dependency - Not in production"
      "not-applicable" 180
      "This vulnerability exists in a development-only dependency and does not affect production code."
      "environment";
    WaiverTemplate.mk "upgrade_planned"
      "Upgrade Planned - Fix scheduled"
      "temporary" 90
      "Upgrade to resolve this vulnerability is planned and scheduled for the next release cycle."
      "remediation";
    WaiverTemplate.mk "no_exploit_path"
      "No Exploit Path - Code path not accessible"
      "not-applicable" 365
      "The vulnerable code path is not accessible in our application architecture."
      "analysis";
    WaiverTemplate.mk "compensating_controls"
      "Compensating Controls - Alternative protections in place"
      "wont-fix" 365
      "Compensating security controls are in place that mitigate this vulnerability."
      "mitigation";
    WaiverTemplate.mk "low_risk_accepted"
      "Low Risk Accepted - Business decision to accept"
      "wont-fix" 365
      "After risk assessment, business has decided to accept this low-risk vulnerability."
      "business";
    WaiverTemplate.mk "legacy_system"
      "Legacy System - Cannot be updated"
      "wont-fix" 730
      "This is a legacy system that cannot be updated due to business constraints."
      "legacy";
    WaiverTemplate.mk "vendor_patch_pending"
      "Vendor Patch Pending - Waiting for upstream fix"
      "temporary" 180
      "Waiting for vendor to release a patch for this vulnerability."
      "vendor";
    WaiverTemplate.mk "test_environment"
      "Test Environment - Not production critical"
      "not-applicable" 180
      "This vulnerability exists in test environment and does not impact production security."
      "environment";
    WaiverTemplate.mk "internal_tool"
      "Internal Tool - Limited exposure"
      "wont-fix" 365
      "This is an internal tool with limited exposure and accepted risk."
      "business"
  ].

(** The JSON file the custom templates are kept in. *)
Record TemplatesFile : Type := mkTemplatesFile {
  custom_templates : list WaiverTemplate.t;
  last_updated : Z
}.

(** The files on disk, and the paths that cannot be opened for writing. *)
Record Disk : Type := mkDisk {
  files : gmap string TemplatesFile;
  read_only : gset string
}.

(** The fields of a [WaiverTemplateManager]. *)
Record Manager : Type := mkManager {
  templates_file : string;
  templates : list WaiverTemplate.t
}.

Section TemplateStore.

(** What [self._load_default_templates()] returns. *)
Variable default_templates : list WaiverTemplate.t.

(** [{t.name for t in self._load_default_templates()}] *)
Definition default_names : gset string :=
  list_to_set (WaiverTemplate.name <$> default_templates).

(** [open(path, 'w')] followed by [json.dump(data, f)] *)
Definition write_file (path : string) (data : TemplatesFile) (d : Disk)
    : Res unit * Disk :=
  if bool_decide (path ∈ read_only d) then (Raise OSError, d)
  else (Ok tt, mkDisk (<[path := data]> (files d)) (read_only d)).

Definition save_custom_templates (now : Z) (m : Manager) (d : Disk)
    : Res unit * Disk :=
  let custom :=
    List.filter (fun t => negb (bool_decide (WaiverTemplate.name t ∈ default_names)))
                (templates m) in
  write_file (templates_file m) (mkTemplatesFile custom now) d.

Definition get_template (name : string) (m : Manager) : option WaiverTemplate.t :=
  List.find (fun t => bool_decide (WaiverTemplate.name t = name)) (templates m).

Definition add_template (template : WaiverTemplate.t) (now : Z) (m : Manager)
    (d : Disk) : Res bool * (Manager * Disk) :=
  match get_template (WaiverTemplate.name template) m with
  | Some _ => (Ok false, (m, d))
  | None =>
      let m' := mkManager (templates_file m) (templates m ++ [template]) in
      match save_custom_templates now m' d with
      | (Ok _, d') => (Ok true, (m', d'))
      | (Raise e, d') => (Raise e, (m', d'))
      end
  end.

(** The index at which [for i, template in enumerate(ts)] first meets the
    name, counting from [i]. *)
Fixpoint index_of_name (name : string) (ts : list WaiverTemplate.t) (i : nat)
    : option nat :=
  match ts with
  | [] => None
  | t :: rest =>
      if bool_decide (WaiverTemplate.name t = name) then Some i
      else index_of_name name rest (S i)
  end.

Definition remove_template (name : string) (now : Z) (m : Manager) (d : Disk)
    : Res bool * (Manager * Disk) :=
  if bool_decide (name ∈ default_names) then (Ok false, (m, d))
  else
    match index_of_name name (templates m) 0%nat with
    | Some i =>
        let m' := mkManager (templates_file m) (delete i (templates m)) in
        match save_custom_templates now m' d with
        | (Ok _, d') => (Ok true, (m', d'))
        | (Raise e, d') => (Raise e, (m', d'))
        end
    | None => (Ok false, (m, d))
    end.

End TemplateStore.

(** The environment: the remote service, the clock, and what the Python
    runtime and the operating system decide. *)
Record Env : Type := mkEnv {
  server : History -> Request -> Outcome;
  (** [datetime.now()], in microseconds. *)
  clock : History -> Z;
  (** [datetime.fromisoformat], giving the instant in microseconds on the
      time line on which [datetime.now(expiry_date.tzinfo)] is read. *)
  fromisoformat : string -> option Z;
  (** [str.lower] on text that is not plain ASCII: the case mapping of
      Unicode, on the UTF-8 bytes. *)
  unicode_lower : string -> string;
  (** The longest sleep, in seconds, that the operating system carries
      out; it differs between platforms and with the uptime. *)
  os_sleep_max : Z
}.

Section Client.

Variable env : Env.
Variable org_id : string.
Variable base_url : string.

(** [s.lower()] *)
Definition lower (s : string) : string :=
  if isascii s then ascii_lower s else unicode_lower env s.

(** Every platform carries out a sleep of a minute, the default wait of a
    rate limit; beyond that the limit is the operating system's. *)
Definition sleep_limit : Z := Z.max 60 (os_sleep_max env).

(** The exception of [time.sleep(secs)], if it raises: [ValueError] for a
    negative length, [OverflowError] for a length that does not fit the
    nanosecond clock, [OSError] for one the operating system refuses. None
    of them is a [RequestException]. *)
Definition sleep_error (secs : Z) : option Exn :=
  if secs <? 0 then Some ValueError
  else if pytime_max_seconds <? secs then Some (OverflowError sleep_overflow_message)
  else if sleep_limit <? secs then Some OSError
  else None.

(** [time.sleep(secs)] *)
Definition time_sleep (secs : Z) : M unit :=
  match sleep_error secs with
  | Some e => raise e
  | None => fun h => (Ok tt, h ++ [Slept secs])
  end.

(** [self.session.request(method, url, **kwargs)] *)
Definition session_request (req : Request) : M Response :=
  fun h => match server env h req with
           | Responded r => (Ok r, h ++ [Requested req])
           | Failed => (Raise ConnectionError, h ++ [Requested req])
           end.

(** *** snyk_utility.py: [SnykAPIClient._make_request] *)

(** The [try] block of one attempt. *)
Definition attempt_body (req : Request) : M Flow :=
  response ← session_request req;
  if status_code response =? 429 then
    retry_after ← int_retry_after response;
    time_sleep retry_after;;
    ret Continue
  else
    raise_for_status response;;
    ret (Return response).

(** The [except requests.exceptions.RequestException] clause: re-raise on the
    last attempt, otherwise back off and fall through to the next one. *)
Definition on_request_exception (attempt : nat) (e : Exn) : M unit :=
  if (attempt =? max_retries - 1)%nat then raise e
  else time_sleep (backoff_factor * 2 ^ Z.of_nat attempt).

(** [for attempt in attempts: ...] followed by the final [raise]. *)
Fixpoint attempt_loop (req : Request) (attempts : list nat) : M Response :=
  match attempts with
  | [] => raise (PlainException "Max retries exceeded")
  | attempt :: rest =>
      flow ← try_except (attempt_body req)
                (fun e => if is_RequestException e
                          then on_request_exception attempt e;; ret Continue
                          else raise e);
      match flow with
      | Continue => attempt_loop req rest
      | Return response => ret response
      end
  end.

Definition make_request_of (req : Request) : M Response :=
  attempt_loop req (seq 0 max_retries).

Definition _make_request (method endpoint : string)
    (params : list (string * string)) (json : option WaiverData) : M Response :=
  make_request_of (mkRequest method (base_url +:+ endpoint) params json).

(** *** snyk_auth_debug.py: [SnykAPIClient._make_request] *)

Definition debug_attempt_body (req : Request) : M Flow :=
  response ← session_request req;
  (if status_code response =? 401 then raise_for_status response else ret tt);;
  if status_code response =? 429 then
    retry_after ← int_retry_after response;
    time_sleep retry_after;;
    ret Continue
  else
    raise_for_status response;;
    ret (Return response).

(** The two [except] clauses, [HTTPError] first. *)
Definition debug_on_exception (attempt : nat) (e : Exn) : M Flow :=
  match e with
  | HTTPError code =>
      if code =? 401 then raise e
      else if (attempt =? max_retries - 1)%nat then raise e
      else time_sleep (backoff_factor * 2 ^ Z.of_nat attempt);; ret Continue
  | ConnectionError =>
      if (attempt =? max_retries - 1)%nat then raise e
      else time_sleep (backoff_factor * 2 ^ Z.of_nat attempt);; ret Continue
  | _ => raise e
  end.

Fixpoint debug_attempt_loop (req : Request) (attempts : list nat) : M Response :=
  match attempts with
  | [] => raise (PlainException "Max retries exceeded")
  | attempt :: rest =>
      flow ← try_except (debug_attempt_body req) (debug_on_exception attempt);
      match flow with
      | Continue => debug_attempt_loop req rest
      | Return response => ret response
      end
  end.

Definition debug_make_request (method endpoint : string)
    (params : list (string * string)) (json : option WaiverData) : M Response :=
  debug_attempt_loop (mkRequest method (base_url +:+ endpoint) params json)
                     (seq 0 max_retries).

(** *** Reading response bodies *)

(** [response.json()] *)
Definition response_json (r : Response) : M Document :=
  match json_body r with
  | Some d => ret d
  | None => raise ValueError
  end.

Definition resource_is_empty (r : Resource) : bool :=
  match res_type r, res_id r, res_attributes r, res_relationships r with
  | None, None, None, None => true
  | _, _, _, _ => false
  end.

Definition identifier_is_empty (i : Identifier) : bool :=
  match ident_type i, ident_id i with
  | None, None => true
  | _, _ => false
  end.

(** The items the loop [for item in doc.get('data', []): item.get(...)]
    visits. Over a JSON object the loop visits its keys, and a key has no
    [.get]: the first pass raises [AttributeError]. *)
Definition data_items (d : Document) : M (list Resource) :=
  match doc_data d with
  | None => ret []
  | Some (DataMany l) => ret l
  | Some (DataOne r) => if resource_is_empty r then ret [] else raise AttributeError
  end.

(** [item.get('attributes', {})] *)
Definition attributes_of (r : Resource) : gmap string string :=
  default ∅ (res_attributes r).

(** [doc.get('data', {}).get('attributes', {}).get('name', 'Unknown')] *)
Definition project_name_of (d : Document) : M string :=
  match doc_data d with
  | None => ret "Unknown"
  | Some (DataOne r) => ret (default "Unknown" (attributes_of r !! "name"))
  | Some (DataMany _) => raise AttributeError
  end.

(** [item['id']] *)
Definition resource_id (r : Resource) : M string :=
  match res_id r with
  | Some i => ret i
  | None => raise KeyError
  end.

Definition get_clock : M Z := fun h => (Ok (clock env h), h).

(** *** [get_project_issues] *)

(** The block under [if 'problems' in relationships:]; its only effect is
    the exception of [problems[0]['id']]. *)
Definition read_problems (r : Resource) : M unit :=
  match default ∅ (res_relationships r) !! "problems" with
  | None => ret tt
  | Some problems =>
      match problems with
      | None | Some (RelMany []) => ret tt
      | Some (RelMany (first :: _)) =>
          match ident_id first with
          | Some _ => ret tt
          | None => raise KeyError
          end
      | Some (RelOne i) => if identifier_is_empty i then ret tt else raise KeyError
      end
  end.

Definition issue_of_resource (project_id project_name : string)
    (issue_data : Resource) : M SnykIssue.t :=
  let attrs := attributes_of issue_data in
  let package_name := "Unknown" in
  let package_version := "Unknown" in
  read_problems issue_data;;
  issue_id ← resource_id issue_data;
  ret (SnykIssue.mk issue_id
         (default "Unknown" (attrs !! "title"))
         (default "unknown" (attrs !! "severity"))
         (default "unknown" (attrs !! "type"))
         project_id project_name package_name package_version
         (default "unknown" (attrs !! "created_at"))).

(** The second revision of the file has no [problems] block. *)
Definition issue_of_resource_rev2 (project_id project_name : string)
    (issue_data : Resource) : M SnykIssue.t :=
  let attrs := attributes_of issue_data in
  let package_name := "Unknown" in
  let package_version := "Unknown" in
  issue_id ← resource_id issue_data;
  ret (SnykIssue.mk issue_id
         (default "Unknown" (attrs !! "title"))
         (default "unknown" (attrs !! "severity"))
         (default "unknown" (attrs !! "type"))
         project_id project_name package_name package_version
         (default "unknown" (attrs !! "created_at"))).

(** [for x in xs: acc.append(f(x))] *)
Fixpoint for_append {A B} (f : A -> M B) (xs : list A) (acc : list B) : M (list B) :=
  match xs with
  | [] => ret acc
  | x :: rest => y ← f x; for_append f rest (acc ++ [y])
  end.

Definition fetch_issues (build : string -> string -> Resource -> M SnykIssue.t)
    (project_id : string) : M (list SnykIssue.t) :=
  try_except
    (project_response ← _make_request "GET"
        ("/rest/orgs/" +:+ org_id +:+ "/projects/" +:+ project_id) [] None;
     project_data ← response_json project_response;
     project_name ← project_name_of project_data;
     issues_response ← _make_request "GET"
        ("/rest/orgs/" +:+ org_id +:+ "/issues")
        [("project_id", project_id); ("limit", "1000")] None;
     issues_data ← response_json issues_response;
     items ← data_items issues_data;
     for_append (build project_id project_name) items [])
    (fun _ => ret []).

Definition get_project_issues : string -> M (list SnykIssue.t) :=
  fetch_issues issue_of_resource.

Definition get_project_issues_rev2 : string -> M (list SnykIssue.t) :=
  fetch_issues issue_of_resource_rev2.

(** *** [get_distinct_issues] *)

(** The loop of [get_distinct_issues] over a method [fetch] standing for
    [self.get_project_issues]. *)
Fixpoint distinct_loop (fetch : string -> M (list SnykIssue.t))
    (project_ids : list string) (all_issues : IssueSet) : M IssueSet :=
  match project_ids with
  | [] => ret all_issues
  | project_id :: rest =>
      project_issues ← fetch project_id;
      distinct_loop fetch rest (set_update all_issues project_issues)
  end.

Definition get_distinct_issues (project_ids : list string) : M IssueSet :=
  distinct_loop get_project_issues project_ids [].

Definition get_distinct_issues_rev2 (project_ids : list string) : M IssueSet :=
  distinct_loop get_project_issues_rev2 project_ids [].

(** *** [add_waiver] *)

(** [timedelta(days=days)] *)
Definition timedelta_days (days : Z) : M Z :=
  if timedelta_max_days <? Z.abs days
  then raise (OverflowError (timedelta_overflow_message days))
  else ret (days * microseconds_per_day).

(** [datetime + timedelta] *)
Definition datetime_add (t delta : Z) : M Z :=
  if (t + delta <? 0) || (datetime_max <? t + delta)
  then raise (OverflowError date_overflow_message)
  else ret (t + delta).

Definition waivers_endpoint (issue_id project_id : string) : string :=
  "/rest/orgs/" +:+ org_id +:+ "/projects/" +:+ project_id +:+
  "/issues/" +:+ issue_id +:+ "/waivers".

Definition issue_endpoint (issue_id project_id : string) : string :=
  "/rest/orgs/" +:+ org_id +:+ "/projects/" +:+ project_id +:+
  "/issues/" +:+ issue_id.

Definition add_waiver (issue_id project_id waiver_description waiver_type : string)
    (days : Z) : M bool :=
  now ← get_clock;
  delta ← timedelta_days days;
  expiry_date ← datetime_add now delta;
  let waiver_data :=
    mkWaiverData waiver_description waiver_type expiry_date
                 waiver_description issue_id in
  try_except
    (_make_request "POST" (waivers_endpoint issue_id project_id) []
                   (Some waiver_data);;
     ret true)
    (fun _ => ret false).

(** *** Waiver records *)

(** The block under [# Check if waiver is active]. *)
Definition compute_is_active (attrs : gmap string string) : M bool :=
  let expiry_str := default EmptyString (attrs !! "expiry") in
  if bool_decide (expiry_str = EmptyString) then ret true
  else
    match fromisoformat env (replace_Z expiry_str) with
    | Some expiry_date => now ← get_clock; ret (now <? expiry_date)
    | None => ret true
    end.

(** The loop body of [get_existing_waivers_for_issue]. *)
Definition existing_waiver_of_resource (issue_id project_id : string)
    (waiver_data : Resource) : M SnykWaiver.t :=
  let attrs := attributes_of waiver_data in
  is_active ← compute_is_active attrs;
  waiver_id ← resource_id waiver_data;
  ret (SnykWaiver.mk waiver_id issue_id project_id EmptyString
         (default EmptyString (attrs !! "reason"))
         (default EmptyString (attrs !! "waiver_type"))
         (default EmptyString (attrs !! "created"))
         (default EmptyString (attrs !! "expiry"))
         (default EmptyString (attrs !! "created_by"))
         is_active EmptyString EmptyString).

Definition get_existing_waivers_for_issue (issue_id project_id : string)
    : M (list SnykWaiver.t) :=
  try_except
    (waivers_response ← _make_request "GET"
        (waivers_endpoint issue_id project_id) [] None;
     waivers_data ← response_json waivers_response;
     items ← data_items waivers_data;
     for_append (existing_waiver_of_resource issue_id project_id) items [])
    (fun _ => ret []).

(** *** [smart_add_waiver] *)

Definition smart_add_waiver (issue_id project_id waiver_description waiver_type : string)
    (days : Z) (skip_if_waived : bool) : M StatusDict :=
  probe ← try_except
             (_make_request "GET" (issue_endpoint issue_id project_id) [] None;;
              ret true)
             (fun _ => ret false);
  if negb probe then
    ret (mkStatus "skipped_no_issue" "Issue not found in this project")
  else
    collision ←
      (if skip_if_waived then
         existing_waivers ← get_existing_waivers_for_issue issue_id project_id;
         let active_waivers := List.filter SnykWaiver.is_active existing_waivers in
         ret (head active_waivers)
       else ret None);
    match collision with
    | Some first_active =>
        ret (mkStatus "skipped_existing_waiver"
               ("Active waiver already exists (expires: " +:+
                SnykWaiver.expiry_date first_active +:+ ")"))
    | None =>
        success ← add_waiver issue_id project_id waiver_description waiver_type days;
        if (success : bool) then ret (mkStatus "added" "Waiver added successfully")
        else ret (mkStatus "failed" "Failed to add waiver")
    end.

(** *** [bulk_add_waivers_by_project_list] *)

(** The issues of a project whose title matches the reference. *)
Definition matching_issues (issue_reference : string)
    (project_issues : list SnykIssue.t) : list SnykIssue.t :=
  List.filter
    (fun issue => contains (lower issue_reference) (lower (SnykIssue.title issue)))
    project_issues.

(** The value stored in [results[project_id]] by one pass of the loop. *)
Definition project_result (issue_reference waiver_description waiver_type : string)
    (days : Z) (skip_if_waived : bool) (project_id : string) : M StatusDict :=
  try_except
    (if startswith issue_reference "SNYK-" then
       smart_add_waiver issue_reference project_id waiver_description
                        waiver_type days skip_if_waived
     else
       project_issues ← get_project_issues project_id;
       let matching := matching_issues issue_reference project_issues in
       match matching with
       | [] =>
           ret (mkStatus "skipped_no_issue"
                  ("No issues matching " +:+ quote_mark +:+ issue_reference +:+
                   quote_mark +:+ " found in project"))
       | first :: others =>
           if (1 <? length matching)%nat then
             ret (mkStatus "failed"
                    ("Multiple issues matching " +:+ quote_mark +:+ issue_reference +:+
                     quote_mark +:+ " found - be more specific"))
           else
             smart_add_waiver (SnykIssue.id first) project_id waiver_description
                              waiver_type days skip_if_waived
       end)
    (fun e => ret (mkStatus "failed" ("Error processing project: " +:+ exn_str e))).

Fixpoint bulk_loop (step : string -> M StatusDict) (project_ids : list string)
    (results : gmap string StatusDict) : M (gmap string StatusDict) :=
  match project_ids with
  | [] => ret results
  | project_id :: rest =>
      result ← step project_id;
      bulk_loop step rest (<[project_id := result]> results)
  end.

Definition bulk_add_waivers_by_project_list (project_ids : list string)
    (issue_reference waiver_description waiver_type : string) (days : Z)
    (skip_if_waived : bool) : M (gmap string StatusDict) :=
  bulk_loop (project_result issue_reference waiver_description waiver_type
                            days skip_if_waived)
            project_ids ∅.

(** *** [get_all_waivers] *)

(** [relationships['issue'].get('data', {}).get('id')] under
    [if 'issue' in relationships:]; an array has no [.get]. *)
Definition related_issue_id (waiver_data : Resource) : M (option string) :=
  match default ∅ (res_relationships waiver_data) !! "issue" with
  | None => ret None
  | Some None => ret None
  | Some (Some (RelOne i)) => ret (ident_id i)
  | Some (Some (RelMany _)) => raise AttributeError
  end.

(** [issue_info.get('data', {}).get('attributes', {})] *)
Definition issue_attrs_of (d : Document) : M (gmap string string) :=
  match doc_data d with
  | None => ret ∅
  | Some (DataOne r) => ret (attributes_of r)
  | Some (DataMany _) => raise AttributeError
  end.

(** The inner [try] that fetches title and severity of the waived issue;
    its bare [except] keeps the defaults. *)
Definition issue_details (issue_id : option string) : M (string * string) :=
  match issue_id with
  | None => ret ("Unknown", "unknown")
  | Some iid =>
      if bool_decide (iid = EmptyString) then ret ("Unknown", "unknown")
      else
        try_except
          (issue_response ← _make_request "GET"
              ("/rest/orgs/" +:+ org_id +:+ "/issues/" +:+ iid) [] None;
           issue_info ← response_json issue_response;
           issue_attrs ← issue_attrs_of issue_info;
           ret (default "Unknown" (issue_attrs !! "title"),
                default "unknown" (issue_attrs !! "severity")))
          (fun _ => ret ("Unknown", "unknown"))
  end.

(** [issue_id or 'Unknown'] *)
Definition issue_id_or_unknown (issue_id : option string) : string :=
  match issue_id with
  | None => "Unknown"
  | Some iid => if bool_decide (iid = EmptyString) then "Unknown" else iid
  end.

(** One pass of the loop over the waivers of a project: [None] when the
    waiver is skipped by [continue], the record appended otherwise. *)
Definition waiver_of_resource (active_only : bool) (project_id project_name : string)
    (waiver_data : Resource) : M (option SnykWaiver.t) :=
  let attrs := attributes_of waiver_data in
  issue_id ← related_issue_id waiver_data;
  details ← issue_details issue_id;
  is_active ← compute_is_active attrs;
  if active_only && negb is_active then ret None
  else
    waiver_id ← resource_id waiver_data;
    ret (Some (SnykWaiver.mk waiver_id (issue_id_or_unknown issue_id)
                 project_id project_name
                 (default "No reason provided" (attrs !! "reason"))
                 (default "unknown" (attrs !! "waiver_type"))
                 (default "unknown" (attrs !! "created"))
                 (default "unknown" (attrs !! "expiry"))
                 (default "unknown" (attrs !! "created_by"))
                 is_active (fst details) (snd details))).

(** The inner loop. [all_waivers] is one list appended to in place, so what
    was appended before an exception stays: the loop hands back the list
    together with the exception that stopped it, if any. *)
Fixpoint append_waivers (step : Resource -> M (option SnykWaiver.t))
    (items : list Resource) (all_waivers : list SnykWaiver.t)
    : M (list SnykWaiver.t * option Exn) :=
  match items with
  | [] => ret (all_waivers, None)
  | waiver_data :: rest =>
      fun h =>
        match step waiver_data h with
        | (Ok None, h') => append_waivers step rest all_waivers h'
        | (Ok (Some w), h') => append_waivers step rest (all_waivers ++ [w]) h'
        | (Raise e, h') => (Ok (all_waivers, Some e), h')
        end
  end.

(** The [try] block of one project; its [except Exception] clause moves on
    to the next project. *)
Definition project_waivers (active_only : bool) (project_id : string)
    (all_waivers : list SnykWaiver.t) : M (list SnykWaiver.t) :=
  try_except
    (project_response ← _make_request "GET"
        ("/rest/orgs/" +:+ org_id +:+ "/projects/" +:+ project_id) [] None;
     project_data ← response_json project_response;
     project_name ← project_name_of project_data;
     waivers_response ← _make_request "GET"
        ("/rest/orgs/" +:+ org_id +:+ "/projects/" +:+ project_id +:+ "/waivers")
        [("limit", "1000")] None;
     waivers_data ← response_json waivers_response;
     items ← data_items waivers_data;
     appended ← append_waivers
                  (waiver_of_resource active_only project_id project_name)
                  items all_waivers;
     ret (fst appended))
    (fun _ => ret all_waivers).

Fixpoint all_waivers_loop (active_only : bool) (project_ids : list string)
    (all_waivers : list SnykWaiver.t) : M (list SnykWaiver.t) :=
  match project_ids with
  | [] => ret all_waivers
  | project_id :: rest =>
      all_waivers' ← project_waivers active_only project_id all_waivers;
      all_waivers_loop active_only rest all_waivers'
  end.

Definition get_all_waivers (project_ids : list string) (active_only : bool)
    : M (list SnykWaiver.t) :=
  all_waivers_loop active_only project_ids [].

(** *** [remove_waiver] and the clean-up of expired waivers *)

Definition remove_waiver (waiver_id project_id : string) : M bool :=
  try_except
    (_make_request "DELETE"
       ("/rest/orgs/" +:+ org_id +:+ "/projects/" +:+ project_id +:+
        "/waivers/" +:+ waiver_id) [] None;;
     ret true)
    (fun _ => ret false).

(** [[w for w in all_waivers if not w.is_active]] *)
Definition expired_waivers (all_waivers : list SnykWaiver.t) : list SnykWaiver.t :=
  List.filter (fun w => negb (SnykWaiver.is_active w)) all_waivers.

Fixpoint remove_all (ws : list SnykWaiver.t) (removed_count : nat) : M nat :=
  match ws with
  | [] => ret removed_count
  | w :: rest =>
      ok ← remove_waiver (SnykWaiver.id w) (SnykWaiver.project_id w);
      remove_all rest (if (ok : bool) then S removed_count else removed_count)
  end.

(** [SnykUtility.cleanup_expired_waivers], from the project ids read from
    the file and the answer typed at the prompt. The result is the list of
    waivers selected for removal and the number removed. *)
Definition cleanup_expired_waivers (project_ids : list string) (confirm : string)
    : M (list SnykWaiver.t * nat) :=
  match project_ids with
  | [] => ret ([], 0%nat)
  | _ =>
      all_waivers ← get_all_waivers project_ids false;
      let expired := expired_waivers all_waivers in
      match expired with
      | [] => ret ([], 0%nat)
      | _ =>
          if bool_decide (lower confirm = "y") then
            removed_count ← remove_all expired 0%nat;
            ret (expired, removed_count)
          else ret (expired, 0%nat)
      end
  end.

End Client.

(** ** Scripted environments, for concrete runs *)

(** A server that answers the n-th request it receives with the n-th
    outcome of a script, and with [fallback] once the script is used up. *)
Definition scripted (script : list Outcome) (fallback : Outcome)
    : History -> Request -> Outcome :=
  fun h _ => default fallback (script !! length (requests_of h)).

(** A bare response with the given status and no [Retry-After] header. *)
Definition plain (code : Z) : Response := mkResponse code HeaderAbsent None.

(** A response carrying a JSON document. *)
Definition ok_with (d : Document) : Response := mkResponse 200 HeaderAbsent (Some d).

(** A toy stand-in for [datetime.fromisoformat]: it reads two fixed
    timestamps and rejects everything else. *)
Definition toy_fromisoformat (s : string) : option Z :=
  if bool_decide (s = "2000-01-01T00:00:00+00:00") then Some 63082281600000000
  else if bool_decide (s = "2999-01-01T00:00:00+00:00") then Some 94608000000000000
  else None.

(** An environment around a scripted server, its clock stopped at [now].
    Its case mapping leaves text that is not plain ASCII as it is, and its
    longest sleep is a thousand million seconds. *)
Definition scripted_env (script : list Outcome) (fallback : Outcome) (now : Z) : Env :=
  mkEnv (scripted script fallback) (fun _ => now) toy_fromisoformat
        (fun s => s) 1000000000.

(** The request used in the concrete runs of the executor. *)
Definition probe_request : Request :=
  mkRequest "GET" "https://api.snyk.io/rest/orgs/o/projects/p" [] None.

(** A waiver resource that expires in the year 2999. *)
Definition active_waiver_resource : Resource :=
  mkResource (Some "issue_waiver") (Some "w-1")
             (Some {[ "expiry" := "2999-01-01T00:00:00Z" ]}) None.

(** The probe for the issue succeeds and the issue has one active waiver;
    the clock stands in the year 2000. *)
Definition env_active_waiver : Env :=
  scripted_env
    [Responded (plain 200);
     Responded (ok_with (mkDocument (Some (DataMany [active_waiver_resource]))))]
    Failed 63100000000000000.

(** The requests [smart_add_waiver] sends in the concrete runs. *)
Definition issue_probe : Request :=
  mkRequest "GET" "https://api.snyk.io/rest/orgs/o/projects/p1/issues/SNYK-JS-1"
            [] None.

Definition waivers_lookup : Request :=
  mkRequest "GET"
    "https://api.snyk.io/rest/orgs/o/projects/p1/issues/SNYK-JS-1/waivers" [] None.

(** The record [get_existing_waivers_for_issue] builds from
    [active_waiver_resource]. *)
Definition active_waiver : SnykWaiver.t :=
  SnykWaiver.mk "w-1" "SNYK-JS-1" "p1" EmptyString EmptyString EmptyString
                EmptyString "2999-01-01T00:00:00Z" EmptyString true
                EmptyString EmptyString.

(** The issue is in no project: every request is answered 404. *)
Definition env_not_found : Env := scripted_env [] (Responded (plain 404)) 0.

(** An issue of [lodash], as found in a project at some version. *)
Definition lodash_issue (project version : string) : SnykIssue.t :=
  SnykIssue.mk "SNYK-JS-LODASH-1" "Prototype Pollution" "high" "package_vulnerability"
               project project "lodash" version "2024-01-01".

(** A method in the place of [get_project_issues]: project [p1] has the
    issue at version 4.17.20, every other project at 4.17.21. *)
Definition canned_fetch (project_id : string) : M (list SnykIssue.t) :=
  ret (if bool_decide (project_id = "p1") then [lodash_issue "p1" "4.17.20"]
       else [lodash_issue project_id "4.17.21"]).

(** An issue resource with a title. *)
Definition issue_resource (issue_id title : string) : Resource :=
  mkResource (Some "issue") (Some issue_id)
             (Some {[ "title" := title; "severity" := "high" ]}) None.

(** Project [p1] has two issues whose titles contain "prototype pollution". *)
Definition env_two_matches : Env :=
  scripted_env
    [Responded (ok_with (mkDocument (Some (DataOne
       (mkResource (Some "project") (Some "p1") (Some {[ "name" := "web-app" ]})
                   None)))));
     Responded (ok_with (mkDocument (Some (DataMany
       [issue_resource "SNYK-JS-LODASH-1" "Prototype Pollution in lodash";
        issue_resource "SNYK-JS-MINIMIST-2" "Prototype Pollution in minimist"]))))]
    Failed 0.

(** What [get_project_issues] returns for [p1] in that environment, and the
    history it leaves. *)
Definition two_matches_issues : list SnykIssue.t :=
  Eval vm_compute in
    match fst (get_project_issues env_two_matches "o" "https://api.snyk.io" "p1" []) with
    | Ok l => l
    | Raise _ => []
    end.

Definition two_matches_history : History :=
  Eval vm_compute in
    snd (get_project_issues env_two_matches "o" "https://api.snyk.io" "p1" []).

(** A template added at run time, and a manager that holds it after the
    built-in ones, with the file that persists it. *)
Definition pilot_template : WaiverTemplate.t :=
  WaiverTemplate.mk "pilot_exception" "Pilot - accepted for the pilot phase"
                    "temporary" 30 "Accepted for the duration of the pilot."
                    "business".

Definition pilot_manager : Manager :=
  mkManager "waiver_templates.json" (_load_default_templates ++ [pilot_template]).

Definition pilot_disk : Disk :=
  mkDisk {[ "waiver_templates.json" := mkTemplatesFile [pilot_template] 1700000000 ]} ∅.

(** Projects [p1] and [p2] both report the issue [SNYK-JS-LODASH-1]. *)
Definition project_document (project_id name : string) : Document :=
  mkDocument (Some (DataOne
    (mkResource (Some "project") (Some project_id) (Some {[ "name" := name ]}) None))).

Definition env_shared_issue : Env :=
  scripted_env
    [Responded (ok_with (project_document "p1" "web-app"));
     Responded (ok_with (mkDocument (Some (DataMany
       [issue_resource "SNYK-JS-LODASH-1" "Prototype Pollution in lodash"]))));
     Responded (ok_with (project_document "p2" "api"));
     Responded (ok_with (mkDocument (Some (DataMany
       [issue_resource "SNYK-JS-LODASH-1" "Prototype Pollution in lodash"]))))]
    Failed 0.

(** Every request is answered 200, without a body; the clock stands in the
    year 2000. *)
Definition env_accepts_all : Env :=
  scripted_env [] (Responded (plain 200)) 63100000000000000.

(** A rate limit that asks for a wait no platform sleeps. *)
Definition endless_retry_after : Response :=
  mkResponse 429 (HeaderInt 100000000000000000000) None.

Definition env_endless_retry_after : Env :=
  scripted_env [] (Responded endless_retry_after) 0.

(** ** Vocabulary of the statements *)

(** [a] occurs in [b]. *)
Definition substring_of (a b : string) : Prop :=
  exists pre post, b = pre +:+ a +:+ post.

(** [selected] is what is left of [l] when the elements without [P] are
    taken out: the elements with [P], in their order, each as often as it
    occurs. *)
Inductive selects {A} (P : A -> Prop) : list A -> list A -> Prop :=
| selects_nil : selects P [] []
| selects_keep x l selected :
    P x -> selects P l selected -> selects P (x :: l) (x :: selected)
| selects_skip x l selected :
    ~ P x -> selects P l selected -> selects P (x :: l) selected.

(** The reference is resolved by title: without regard to case, it occurs
    in the title of the issue. *)
Definition title_matches (env : Env) (issue_reference : string) (i : SnykIssue.t)
    : Prop :=
  substring_of (lower env issue_reference) (lower env (SnykIssue.title i)).

(** The exception is the overflow of the expiry date of a waiver of [days]
    days: of [timedelta(days=days)], or of adding it to [datetime.now()]. *)
Definition expiry_overflow (days : Z) (e : Exn) : Prop :=
  e = OverflowError (timedelta_overflow_message days)
  \/ e = OverflowError date_overflow_message.

(** The delay a rate-limited outcome makes the executor sleep for: the
    outcome is a 429 whose [Retry-After] is absent (60 seconds) or an
    integer that [time.sleep] accepts, so neither negative nor longer than
    the platform sleeps. *)
Definition rate_limited (env : Env) (o : Outcome) : option Z :=
  match o with
  | Responded r =>
      if status_code r =? 429 then
        match retry_after r with
        | HeaderAbsent => Some 60
        | HeaderInt n =>
            match sleep_error env n with
            | None => Some n
            | Some _ => None
            end
        | HeaderMalformed => None
        end
      else None
  | Failed => None
  end.

(** The exception a failing outcome raises inside the [try] block: a
    transport failure, or a 4xx or 5xx status other than 429. *)
Definition failure_of (o : Outcome) : option Exn :=
  match o with
  | Failed => Some ConnectionError
  | Responded r =>
      if status_code r =? 429 then None
      else if (400 <=? status_code r) && (status_code r <? 600)
           then Some (HTTPError (status_code r))
           else None
  end.

(** A 429 costs nothing: after the sleep the executor is where a fresh call
    would be. *)
Definition rate_limit_free_of_charge (env : Env) (req : Request) (h : History) : Prop :=
  forall n, rate_limited env (server env h req) = Some n ->
    fst (make_request_of env req h)
    = fst (make_request_of env req (h ++ [Requested req; Slept n])).

(** The events of a run of the executor on [req]: requests for [req] and
    sleeps. *)
Definition executor_event (req : Request) (e : Event) : Prop :=
  e = Requested req \/ is_request e = false.

(** [m] only ever appends to the history, and every request it sends
    satisfies [P]. *)
Definition appends {A} (P : Request -> Prop) (m : M A) : Prop :=
  forall h, exists evs, snd (m h) = h ++ evs /\ Forall P (requests_of evs).

(** The request method is GET. *)
Definition is_get (rq : Request) : Prop := req_method rq = "GET".

(** The four outcomes of [smart_add_waiver]. *)
Definition outcome_statuses : list string :=
  ["added"; "skipped_existing_waiver"; "skipped_no_issue"; "failed"].



(** The lists a method [fetch] returns, one project after the other, when
    [get_distinct_issues] runs from history [h]. *)
Fixpoint fetched_lists (fetch : string -> M (list SnykIssue.t))
    (project_ids : list string) (h : History) : list (list SnykIssue.t) :=
  match project_ids with
  | [] => []
  | project_id :: rest =>
      match fetch project_id h with
      | (Ok l, h') => l :: fetched_lists fetch rest h'
      | (Raise _, _) => []
      end
  end.

(** No two members of the set are equal under [__eq__]. *)
Definition set_wf (s : IssueSet) : Prop := NoDup (SnykIssue.hash_key <$> s).

(** [s] is the union of the lists [ls] under [__eq__]: no two members are
    equal, every member comes from one of the lists, every listed issue is
    equal to a member; two listed issues that are unequal have two
    members, two that are equal have one. *)
Definition union_of_lists (s : IssueSet) (ls : list (list SnykIssue.t)) : Prop :=
  (forall m1 m2, m1 ∈ s -> m2 ∈ s -> SnykIssue.eqb m1 m2 = true -> m1 = m2)
  /\ (forall m, m ∈ s -> exists l, l ∈ ls /\ m ∈ l)
  /\ (forall l i, l ∈ ls -> i ∈ l -> exists m, m ∈ s /\ SnykIssue.eqb i m = true)
  /\ (forall l1 l2 a b,
        l1 ∈ ls -> l2 ∈ ls -> a ∈ l1 -> b ∈ l2 ->
        if SnykIssue.eqb a b
        then exists m, m ∈ s /\ SnykIssue.eqb a m = true /\ SnykIssue.eqb b m = true
        else exists ma mb, ma ∈ s /\ mb ∈ s /\ ma <> mb
                           /\ SnykIssue.eqb a ma = true
                           /\ SnykIssue.eqb b mb = true).

(** The package coordinates were not resolved. *)
Definition unknown_package (i : SnykIssue.t) : Prop :=
  SnykIssue.package_name i = "Unknown" /\ SnykIssue.package_version i = "Unknown".

(** The expiry attribute is missing, empty, or not accepted by
    [datetime.fromisoformat]. *)
Definition expiry_unusable (env : Env) (attrs : gmap string string) : Prop :=
  match attrs !! "expiry" with
  | None => True
  | Some s => s = EmptyString \/ fromisoformat env (replace_Z s) = None
  end.

(** The recorded expiry of a waiver is a non-empty string that
    [datetime.fromisoformat] accepts. *)
Definition has_expiry (env : Env) (w : SnykWaiver.t) : Prop :=
  SnykWaiver.expiry_date w <> EmptyString
  /\ is_Some (fromisoformat env (replace_Z (SnykWaiver.expiry_date w))).

(** ** Further vocabulary: the executor *)


(** The server never answers the request with the given status. *)
Definition never_answers (env : Env) (req : Request) (code : Z) : Prop :=
  forall h r, server env h req = Responded r -> status_code r <> code.

(** The status is one [raise_for_status] lets through. *)
Definition passes_status (code : Z) : Prop := ~ (400 <= code < 600).

(** ** Further vocabulary: counting requests *)

(** [m] only appends to the history; it sends at most [n] requests, each of
    which satisfies [P]. *)
Definition sends {A} (P : Request -> Prop) (n : nat) (m : M A) : Prop :=
  forall h, exists evs,
    snd (m h) = h ++ evs
    /\ Forall P (requests_of evs)
    /\ (length (requests_of evs) <= n)%nat.

(** The request is a GET for the given endpoint of the API. *)
Definition get_of (base_url endpoint : string) (rq : Request) : Prop :=
  req_method rq = "GET" /\ req_url rq = base_url +:+ endpoint.

(** The issue [get_project_issues] builds from a resource that has an id. *)
Definition issue_from (project_id project_name : string) (r : Resource) : SnykIssue.t :=
  let attrs := default ∅ (res_attributes r) in
  SnykIssue.mk (default EmptyString (res_id r))
               (default "Unknown" (attrs !! "title"))
               (default "unknown" (attrs !! "severity"))
               (default "unknown" (attrs !! "type"))
               project_id project_name "Unknown" "Unknown"
               (default "unknown" (attrs !! "created_at")).

(** The resource has an id, and its [problems] relationship, if it has one,
    can be read. *)
Definition decodable_issue (r : Resource) : Prop :=
  is_Some (res_id r) /\ forall h, read_problems r h = (Ok tt, h).

(** ** Further concrete data *)

(** The documents of [env_two_matches] and the resources of its issues. *)
Definition web_app_document : Document := project_document "p1" "web-app".

Definition two_matches_items : list Resource :=
  [issue_resource "SNYK-JS-LODASH-1" "Prototype Pollution in lodash";
   issue_resource "SNYK-JS-MINIMIST-2" "Prototype Pollution in minimist"].

Definition project_request : Request :=
  mkRequest "GET" "https://api.snyk.io/rest/orgs/o/projects/p1" [] None.

Definition issues_request : Request :=
  mkRequest "GET" "https://api.snyk.io/rest/orgs/o/issues"
            [("project_id", "p1"); ("limit", "1000")] None.

(** The second issue of the project comes without an id. *)
Definition items_missing_id : list Resource :=
  [issue_resource "SNYK-JS-LODASH-1" "Prototype Pollution in lodash";
   mkResource (Some "issue") None (Some {[ "title" := "Regular Expression DoS" ]}) None].

Definition env_missing_id : Env :=
  scripted_env
    [Responded (ok_with web_app_document);
     Responded (ok_with (mkDocument (Some (DataMany items_missing_id))))]
    Failed 0.

(** One failure, then success. *)
Definition env_flaky : Env :=
  scripted_env [Responded (plain 500)] (Responded (plain 200)) 0.

(** Every request is answered 500. *)
Definition env_server_error : Env := scripted_env [] (Responded (plain 500)) 0.



(** ** Further vocabulary: waivers *)

(** The request is a POST that creates a waiver for the issue. *)
Definition creates_waiver (base_url org_id issue_id project_id : string)
    (rq : Request) : Prop :=
  req_method rq = "POST"
  /\ req_url rq = base_url +:+ waivers_endpoint org_id issue_id project_id
  /\ is_Some (req_json rq).

(** What [smart_add_waiver] reports after [add_waiver] returned. *)
Definition status_of_success (success : bool) : StatusDict :=
  if success then mkStatus "added" "Waiver added successfully"
  else mkStatus "failed" "Failed to add waiver".

(** The probe is answered, the look-up of the waivers fails on every try. *)
Definition env_lookup_down : Env :=
  scripted_env [Responded (plain 200); Failed; Failed; Failed]
               (Responded (plain 201)) 63100000000000000.

(** ** snyk_utility.py: further operations of [SnykAPIClient] *)

(** The result of [get_waiver_statistics]. *)
Record WaiverStatistics : Type := mkStatistics {
  total_waivers : nat;
  active_waivers : nat;
  expired_waivers_count : nat;
  expiring_soon : nat;
  by_type : gmap string nat;
  by_severity : gmap string nat;
  by_project : gmap string nat;
  (** waiver id, issue title, project name, expiry date *)
  expiring_soon_details : list (string * string * string * string)
}.

(** The result of [get_project_test_status]. *)
Record TestStatus : Type := mkTestStatus {
  ts_project_id : string;
  ts_name : string;
  ts_last_tested : option string;
  ts_status : string;
  ts_test_frequency : string
}.

(** [counts[key] = counts.get(key, 0) + 1] for every waiver of the list. *)
Definition count_by (key : SnykWaiver.t -> string) (ws : list SnykWaiver.t)
    : gmap string nat :=
  foldl (fun counts w => <[key w := S (default 0%nat (counts !! key w))]> counts) ∅ ws.

(** The dictionary [issue_groups] of [find_duplicate_waivers], its keys in
    the order in which they were inserted. *)
Fixpoint group_insert (w : SnykWaiver.t) (groups : list (string * list SnykWaiver.t))
    : list (string * list SnykWaiver.t) :=
  match groups with
  | [] => [(SnykWaiver.issue_id w, [w])]
  | (k, ws) :: rest =>
      if bool_decide (k = SnykWaiver.issue_id w) then (k, ws ++ [w]) :: rest
      else (k, ws) :: group_insert w rest
  end.

Definition group_by_issue (all_waivers : list SnykWaiver.t)
    : list (string * list SnykWaiver.t) :=
  foldl (fun groups w => group_insert w groups) [] all_waivers.

(** The groups with more than one waiver. *)
Definition duplicate_groups (groups : list (string * list SnykWaiver.t))
    : list (list SnykWaiver.t) :=
  snd <$> List.filter (fun kv => (1 <? length (snd kv))%nat) groups.

Section ClientMore.

Variable env : Env.
Variable org_id : string.
Variable base_url : string.

(** [tz_aware s]: the datetime that [datetime.fromisoformat(s)] returns
    carries a UTC offset. Ordering it against the naive [datetime.now()]
    raises [TypeError]. *)
Variable tz_aware : string -> bool.

(** *** [bulk_add_waivers] *)

Fixpoint bulk_issue_loop (waiver_description waiver_type : string) (days : Z)
    (skip_if_waived : bool) (issues : list SnykIssue.t)
    (results : gmap string StatusDict) : M (gmap string StatusDict) :=
  match issues with
  | [] => ret results
  | issue :: rest =>
      result ← smart_add_waiver env org_id base_url (SnykIssue.id issue)
                 (SnykIssue.project_id issue) waiver_description waiver_type
                 days skip_if_waived;
      bulk_issue_loop waiver_description waiver_type days skip_if_waived rest
        (<[SnykIssue.id issue +:+ ":" +:+ SnykIssue.project_id issue := result]> results)
  end.

Definition bulk_add_waivers (issues : list SnykIssue.t)
    (waiver_description waiver_type : string) (days : Z) (skip_if_waived : bool)
    : M (gmap string StatusDict) :=
  bulk_issue_loop waiver_description waiver_type days skip_if_waived issues ∅.

(** *** [bulk_remove_waivers_by_issue] *)

(** The test of the loop that collects the waivers to remove:
    [ref == w.issue_id or ref.lower() in w.issue_title.lower()]. *)
Definition waiver_matches (issue_reference : string) (w : SnykWaiver.t) : bool :=
  bool_decide (issue_reference = SnykWaiver.issue_id w)
  || contains (lower env issue_reference) (lower env (SnykWaiver.issue_title w)).

Fixpoint remove_loop (ws : list SnykWaiver.t) (results : gmap string bool)
    : M (gmap string bool) :=
  match ws with
  | [] => ret results
  | waiver :: rest =>
      success ← remove_waiver env org_id base_url (SnykWaiver.id waiver)
                  (SnykWaiver.project_id waiver);
      remove_loop rest (<[SnykWaiver.id waiver := success]> results)
  end.

Definition bulk_remove_waivers_by_issue (issue_reference : string)
    (project_ids : list string) : M (gmap string bool) :=
  all_waivers ← get_all_waivers env org_id base_url project_ids false;
  let matching_waivers := List.filter (waiver_matches issue_reference) all_waivers in
  match matching_waivers with
  | [] => ret ∅
  | _ => remove_loop matching_waivers ∅
  end.

(** *** [get_waiver_statistics] *)

(** The test under [for waiver in active_waivers:]; a date that does not
    parse, or that cannot be ordered against the cutoff, is passed over by
    the bare [except]. *)
Definition expires_by (cutoff_date : Z) (w : SnykWaiver.t) : bool :=
  if bool_decide (SnykWaiver.expiry_date w = "unknown") then false
  else
    match fromisoformat env (replace_Z (SnykWaiver.expiry_date w)) with
    | None => false
    | Some expiry_date =>
        if tz_aware (replace_Z (SnykWaiver.expiry_date w)) then false
        else expiry_date <=? cutoff_date
    end.

Definition get_waiver_statistics (project_ids : list string) : M WaiverStatistics :=
  all_waivers ← get_all_waivers env org_id base_url project_ids false;
  let active := List.filter SnykWaiver.is_active all_waivers in
  let expired := List.filter (fun w => negb (SnykWaiver.is_active w)) all_waivers in
  let type_counts := count_by SnykWaiver.waiver_type all_waivers in
  let severity_counts := count_by SnykWaiver.issue_severity all_waivers in
  let project_counts := count_by SnykWaiver.project_name all_waivers in
  now ← get_clock env;
  delta ← timedelta_days 30;
  cutoff_date ← datetime_add now delta;
  let soon := List.filter (expires_by cutoff_date) active in
  ret (mkStatistics (length all_waivers) (length active) (length expired)
         (length soon) type_counts severity_counts project_counts
         ((fun w => (SnykWaiver.id w, SnykWaiver.issue_title w,
                     SnykWaiver.project_name w, SnykWaiver.expiry_date w)) <$> soon)).

(** *** [find_duplicate_waivers] *)

Definition find_duplicate_waivers (project_ids : list string)
    : M (list (list SnykWaiver.t)) :=
  all_waivers ← get_all_waivers env org_id base_url project_ids true;
  ret (duplicate_groups (group_by_issue all_waivers)).

(** *** [get_project_test_status] *)

Definition get_project_test_status (project_id : string) : M (option TestStatus) :=
  try_except
    (response ← _make_request env base_url "GET"
        ("/rest/orgs/" +:+ org_id +:+ "/projects/" +:+ project_id)
        [("version", "2024-10-15")] None;
     project_data ← response_json response;
     attrs ← issue_attrs_of project_data;
     ret (Some (mkTestStatus project_id
                  (default "Unknown" (attrs !! "name"))
                  (attrs !! "last_tested_date")
                  (default "unknown" (attrs !! "status"))
                  (default "unknown" (attrs !! "test_frequency")))))
    (fun _ => ret None).

(** *** [SnykUtility]: operations behind a confirmation *)

(** [SnykUtility.remove_waivers_by_issue], from the project ids read from
    the file and the answer typed at the prompt; [None] when the method
    returns before it removes anything. *)
Definition remove_waivers_by_issue (project_ids : list string)
    (issue_reference confirm : string) : M (option (gmap string bool)) :=
  match project_ids with
  | [] => ret None
  | _ =>
      all_waivers ← get_all_waivers env org_id base_url project_ids false;
      match List.filter (waiver_matches issue_reference) all_waivers with
      | [] => ret None
      | _ =>
          if bool_decide (lower env confirm = "y") then
            results ← bulk_remove_waivers_by_issue issue_reference project_ids;
            ret (Some results)
          else ret None
      end
  end.

(** [SnykUtility.add_waivers_by_issue_across_projects], likewise. *)
Definition add_waivers_by_issue_across_projects (project_ids : list string)
    (issue_reference waiver_description waiver_type : string) (days : Z)
    (confirm : string) : M (option (gmap string StatusDict)) :=
  match project_ids with
  | [] => ret None
  | _ =>
      if bool_decide (lower env confirm = "y") then
        results ← bulk_add_waivers_by_project_list env org_id base_url project_ids
                    issue_reference waiver_description waiver_type days true;
        ret (Some results)
      else ret None
  end.

End ClientMore.

(** ** Further vocabulary: groups and counts *)

(** The rule by which [bulk_remove_waivers_by_issue] picks a waiver: the
    reference is the id of the waived issue, or occurs, without regard to
    case, in its title. *)
Definition reference_matches (env : Env) (issue_reference : string)
    (w : SnykWaiver.t) : Prop :=
  issue_reference = SnykWaiver.issue_id w
  \/ substring_of (lower env issue_reference) (lower env (SnykWaiver.issue_title w)).

(** The waivers of the list that are for the issue [k], in their order. *)
Definition waivers_for (k : string) (ws : list SnykWaiver.t) : list SnykWaiver.t :=
  List.filter (fun w => bool_decide (SnykWaiver.issue_id w = k)) ws.

(** How many waivers of the list [key] maps to [k]. *)
Definition occurrences (key : SnykWaiver.t -> string) (k : string)
    (ws : list SnykWaiver.t) : nat :=
  length (List.filter (fun w => bool_decide (key w = k)) ws).

(** The invariant of the dictionary [issue_groups] after the waivers [ws]:
    its keys are distinct, every waiver has its key, and under a key
    stand the waivers for that issue, in their order. *)
Definition groups_of (ws : list SnykWaiver.t)
    (groups : list (string * list SnykWaiver.t)) : Prop :=
  NoDup (fst <$> groups)
  /\ (forall w, w ∈ ws -> SnykWaiver.issue_id w ∈ (fst <$> groups))
  /\ (forall k g, (k, g) ∈ groups -> g = waivers_for k ws /\ g <> []).

(** The request removes the waiver [w]. *)
Definition deletes_waiver (base_url org_id : string) (w : SnykWaiver.t)
    (rq : Request) : Prop :=
  req_method rq = "DELETE"
  /\ req_url rq = base_url +:+ ("/rest/orgs/" +:+ org_id +:+ "/projects/" +:+
                               SnykWaiver.project_id w +:+ "/waivers/" +:+
                               SnykWaiver.id w).

(** A waiver resource without a relationship to an issue. *)
Definition waiver_resource (waiver_id : string) (attrs : gmap string string) : Resource :=
  mkResource (Some "issue_waiver") (Some waiver_id) (Some attrs) None.

(** Project [p1] has a waiver that expired in 2000 and one without expiry;
    the clock stands later in the year 2000. *)
Definition env_two_waivers : Env :=
  scripted_env
    [Responded (ok_with web_app_document);
     Responded (ok_with (mkDocument (Some (DataMany
       [waiver_resource "w-1" {[ "expiry" := "2000-01-01T00:00:00Z";
                                 "waiver_type" := "temporary" ]};
        waiver_resource "w-2" {[ "waiver_type" := "wont-fix" ]}]))))]
    (Responded (plain 204)) 63100000000000000.

(** What [get_all_waivers] returns there, expired waivers included, and
    the history it leaves. *)
Definition two_waivers : list SnykWaiver.t :=
  Eval vm_compute in
    match fst (get_all_waivers env_two_waivers "o" "https://api.snyk.io" ["p1"] false []) with
    | Ok l => l
    | Raise _ => []
    end.

Definition two_waivers_history : History :=
  Eval vm_compute in
    snd (get_all_waivers env_two_waivers "o" "https://api.snyk.io" ["p1"] false []).

(** A toy stand-in for the offset test: the text names an offset. *)
Definition toy_tz_aware (s : string) : bool := contains "+" s.

(** ** The template store across restarts *)

(** What [_load_custom_templates] finds at the path of the templates file:
    no file; a file that cannot be opened, is not JSON, or whose templates
    lack a field; a document that decodes, with the templates it lists. *)
Inductive FileContent : Type :=
  | Missing
  | Unreadable
  | Parsed (f : TemplatesFile).

(** The files of a [Disk] are the documents that were written. *)
Definition read_file (path : string) (d : Disk) : FileContent :=
  match files d !! path with
  | Some f => Parsed f
  | None => Missing
  end.

Section TemplateStoreMore.

Variable default_templates : list WaiverTemplate.t.

(** [self.templates.extend(custom_templates)] runs once every template of
    the file is decoded; an exception before it is caught and leaves the
    list as it was. *)
Definition _load_custom_templates (content : FileContent) (m : Manager) : Manager :=
  match content with
  | Missing => m
  | Unreadable => m
  | Parsed f => mkManager (templates_file m) (templates m ++ custom_templates f)
  end.

(** [WaiverTemplateManager.__init__] *)
Definition WaiverTemplateManager_init (path : string) (content : FileContent)
    : Manager :=
  _load_custom_templates content (mkManager path default_templates).

(** The shape of the list of a manager: the built-in templates first, then
    templates under other names, all names distinct. *)
Definition store_ok (m : Manager) : Prop :=
  exists custom,
    templates m = default_templates ++ custom
    /\ Forall (fun t => WaiverTemplate.name t ∉ (WaiverTemplate.name <$> default_templates))
              custom
    /\ NoDup (WaiverTemplate.name <$> templates m).

(** [[t for t in self.templates if t.name not in default_names]] *)
Definition custom_of (ts : list WaiverTemplate.t) : list WaiverTemplate.t :=
  List.filter
    (fun t => negb (bool_decide (WaiverTemplate.name t ∈ default_names default_templates)))
    ts.

End TemplateStoreMore.

(** A disk on which the templates file cannot be written. *)
Definition locked_disk : Disk :=
  mkDisk ∅ {[ "waiver_templates.json" ]}.

(** A manager fresh from the built-in templates. *)
Definition fresh_manager : Manager :=
  mkManager "waiver_templates.json" _load_default_templates.

(** * Properties *)

(** ** The client monad *)

Lemma bind_unfold {A B} (m : M A) (k : A -> M B) (h : History) :
  (m ≫= k) h = match m h with
               | (Ok a, h') => k a h'
               | (Raise e, h') => (Raise e, h')
               end.
Proof. reflexivity. Qed.

Lemma requests_of_app (h1 h2 : History) :
  requests_of (h1 ++ h2) = requests_of h1 ++ requests_of h2.
Proof. unfold requests_of. apply omap_app. Qed.

Lemma sleeps_of_app (h1 h2 : History) :
  sleeps_of (h1 ++ h2) = sleeps_of h1 ++ sleeps_of h2.
Proof. unfold sleeps_of. apply omap_app. Qed.

(** Unfold the monad's combinators. *)
Ltac monad_unfold :=
  unfold mbind, mret, M_bind, M_ret, bind, ret, raise, try_except in *;
  simpl in *.

(** ** Strings *)

Lemma append_nil_l (b : string) : "" +:+ b = b.
Proof. reflexivity. Qed.

Lemma append_cons (c : ascii) (a b : string) : String c a +:+ b = String c (a +:+ b).
Proof. reflexivity. Qed.

Lemma prefix_spec (a b : string) :
  String.prefix a b = true <-> exists post, b = a +:+ post.
Proof.
  revert b. induction a as [|c a IH]; intros b.
  - split; [intros _; by exists b|]. intros _. by destruct b.
  - destruct b as [|c' b]; [split; [done | by intros [post [=]]]|].
    cbn [String.prefix]. destruct (ascii_dec c c') as [->|Hne].
    + rewrite IH. split; [intros [post ->]; by exists post|].
      intros [post Heq]. rewrite append_cons in Heq. injection Heq as ->. by exists post.
    + split; [done|]. intros [post Heq]. rewrite append_cons in Heq.
      injection Heq as ? _. done.
Qed.

(** [contains] decides the occurrence of one string in another. *)
Lemma contains_spec (a b : string) :
  contains a b = true <-> substring_of a b.
Proof.
  unfold substring_of. induction b as [|c b IH]; cbn [contains].
  - rewrite orb_false_r, prefix_spec. split.
    + intros [post Hpost]. by exists EmptyString, post.
    + intros ([|c' pre] & post & Heq); [by exists post | done].
  - rewrite orb_true_iff, prefix_spec, IH. split.
    + intros [[post Hpost]|(pre & post & ->)].
      * by exists EmptyString, post.
      * by exists (String c pre), post.
    + intros ([|c' pre] & post & Heq).
      * left. by exists post.
      * right. rewrite append_cons in Heq. injection Heq as _ ->. by exists pre, post.
Qed.

(** A filter keeps the elements with the property it decides. *)
Lemma filter_selects {A} (f : A -> bool) (P : A -> Prop) (l : list A) :
  (forall x, f x = true <-> P x) -> selects P l (List.filter f l).
Proof.
  intros Hf. induction l as [|x l IH]; simpl; [constructor|].
  destruct (f x) eqn:Hx.
  - apply selects_keep; [by apply Hf | done].
  - apply selects_skip; [|done]. rewrite <- Hf, Hx. done.
Qed.

(** What is selected is determined. *)
Lemma selects_unique {A} (P : A -> Prop) (l s1 s2 : list A) :
  selects P l s1 -> selects P l s2 -> s1 = s2.
Proof.
  intros H1. revert s2. induction H1 as [|x l s HP _ IH|x l s HP _ IH]; intros s2.
  - by inversion 1.
  - inversion 1; subst; [f_equal; by apply IH | done].
  - inversion 1; subst; [done | by apply IH].
Qed.

(** ** Request executor *)

Arguments sleep_error : simpl never.

Section Executor.

Variable env : Env.
Variable req : Request.

(** Sleeps of up to a minute are carried out. *)
Lemma sleep_error_small (secs : Z) :
  0 <= secs <= 60 -> sleep_error env secs = None.
Proof.
  intros Hs. unfold sleep_error, sleep_limit, pytime_max_seconds.
  destruct (Z.ltb_spec secs 0); [lia|].
  destruct (Z.ltb_spec 9223372036 secs); [lia|].
  destruct (Z.ltb_spec (Z.max 60 (os_sleep_max env)) secs); [lia | done].
Qed.

(** What [time.sleep] raises is for its caller: no handler for
    [RequestException] catches it. *)
Lemma sleep_error_not_request (secs : Z) (e : Exn) :
  sleep_error env secs = Some e -> is_RequestException e = false.
Proof.
  unfold sleep_error.
  destruct (secs <? 0); [by intros [= <-]|].
  destruct (pytime_max_seconds <? secs); [by intros [= <-]|].
  destruct (sleep_limit env <? secs); [by intros [= <-] | done].
Qed.

Lemma backoff_accepted (attempt : nat) :
  (attempt < max_retries - 1)%nat ->
  sleep_error env (backoff_factor * 2 ^ Z.of_nat attempt) = None.
Proof.
  intros Hlt. apply sleep_error_small. unfold backoff_factor, max_retries in *.
  assert (attempt = 0 \/ attempt = 1)%nat as [-> | ->] by lia; simpl; lia.
Qed.

(** One pass through the [try] block sends the request once and sleeps at
    most once. *)
Lemma attempt_body_history (h : History) :
  exists evs, snd (attempt_body env req h) = h ++ Requested req :: evs
              /\ Forall (fun e => is_request e = false) evs.
Proof.
  unfold attempt_body, session_request, int_retry_after, time_sleep,
    raise_for_status.
  monad_unfold.
  destruct (server env h req) as [r|]; simpl; [|by exists []].
  destruct (status_code r =? 429).
  - destruct (retry_after r) as [|n|]; simpl;
      [destruct (sleep_error env 60) | destruct (sleep_error env n) |]; simpl;
      rewrite <- ?app_assoc; simpl; eexists; (split; [reflexivity|]);
      repeat constructor.
  - destruct ((400 <=? status_code r) && (status_code r <? 600)); simpl;
      by exists [].
Qed.

Lemma attempt_body_rate_limited (h : History) (n : Z) :
  rate_limited env (server env h req) = Some n ->
  attempt_body env req h = (Ok Continue, h ++ [Requested req; Slept n]).
Proof.
  unfold rate_limited, attempt_body, session_request, int_retry_after,
    time_sleep.
  monad_unfold.
  destruct (server env h req) as [r|]; [|done].
  destruct (status_code r =? 429); [|done].
  destruct (retry_after r) as [|m|]; simpl; try done.
  - intros [= <-]. rewrite sleep_error_small by lia. by rewrite <- app_assoc.
  - destruct (sleep_error env m); [done|]. intros [= <-]. by rewrite <- app_assoc.
Qed.

Lemma attempt_body_failure (h : History) (e : Exn) :
  failure_of (server env h req) = Some e ->
  attempt_body env req h = (Raise e, h ++ [Requested req])
  /\ is_RequestException e = true.
Proof.
  unfold failure_of, attempt_body, session_request, raise_for_status.
  monad_unfold.
  destruct (server env h req) as [r|]; [|by intros [= <-]].
  destruct (status_code r =? 429); [done|].
  destruct ((400 <=? status_code r) && (status_code r <? 600)); [|done].
  by intros [= <-].
Qed.


(** A 429 uses up the attempt it answers. *)
Lemma attempt_loop_rate_limited (h : History) (n : Z) (attempt : nat) (rest : list nat) :
  rate_limited env (server env h req) = Some n ->
  attempt_loop env req (attempt :: rest) h
  = attempt_loop env req rest (h ++ [Requested req; Slept n]).
Proof.
  intros H. simpl. monad_unfold.
  by rewrite (attempt_body_rate_limited h n H).
Qed.

(** A failure before the last attempt is followed by the back-off sleep. *)
Lemma attempt_loop_failure_retry (h : History) (e : Exn) (attempt : nat) (rest : list nat) :
  failure_of (server env h req) = Some e ->
  (attempt < max_retries - 1)%nat ->
  attempt_loop env req (attempt :: rest) h
  = attempt_loop env req rest
      (h ++ [Requested req; Slept (backoff_factor * 2 ^ Z.of_nat attempt)]).
Proof.
  intros H Hlt. destruct (attempt_body_failure h e H) as [Hb He].
  pose proof (backoff_accepted attempt Hlt) as Hsleep.
  simpl. unfold on_request_exception, time_sleep. monad_unfold.
  rewrite Hb, He.
  destruct (Nat.eqb_spec attempt 2) as [->|_]; [unfold max_retries in Hlt; lia|].
  rewrite Hsleep. simpl. by rewrite <- app_assoc.
Qed.

(** A failure on the last attempt is re-raised without a sleep. *)
Lemma attempt_loop_failure_last (h : History) (e : Exn) (rest : list nat) :
  failure_of (server env h req) = Some e ->
  attempt_loop env req ((max_retries - 1)%nat :: rest) h
  = (Raise e, h ++ [Requested req]).
Proof.
  intros H. destruct (attempt_body_failure h e H) as [Hb He].
  simpl. unfold on_request_exception. monad_unfold.
  by rewrite Hb, He.
Qed.

(** Every run of the loop appends only requests for [req] and sleeps, and no
    more requests than there are attempts. *)
Lemma attempt_loop_history (attempts : list nat) (h : History) :
  exists evs, snd (attempt_loop env req attempts h) = h ++ evs
              /\ Forall (executor_event req) evs
              /\ (length (requests_of evs) <= length attempts)%nat.
Proof.
  revert h. induction attempts as [|attempt rest IH]; intros h.
  - exists []. simpl. rewrite app_nil_r. repeat split; [constructor | lia].
  - destruct (attempt_body_history h) as (evs0 & Hh & Hsl).
    assert (Hreq0 : requests_of (Requested req :: evs0) = [req]).
    { simpl. f_equal. clear Hh. induction evs0 as [|[?|?] ? IH0]; [done| |].
      - by inversion Hsl.
      - simpl. apply IH0. by inversion Hsl. }
    assert (Hev0 : Forall (executor_event req) (Requested req :: evs0)).
    { constructor; [by left|]. eapply Forall_impl; [exact Hsl|].
      intros ? ?. by right. }
    assert (Hcont : forall evs1,
      Forall (fun e => is_request e = false) evs1 ->
      exists evs, snd (attempt_loop env req rest (h ++ Requested req :: evs0 ++ evs1))
                  = h ++ evs
                  /\ Forall (executor_event req) evs
                  /\ (length (requests_of evs) <= S (length rest))%nat).
    { intros evs1 H1.
      destruct (IH (h ++ Requested req :: evs0 ++ evs1)) as (evs & -> & Hev & Hlen).
      exists ((Requested req :: evs0 ++ evs1) ++ evs).
      rewrite <- app_assoc. split; [done|]. split.
      - apply Forall_app. split; [|done].
        rewrite app_comm_cons. apply Forall_app. split; [done|].
        eapply Forall_impl; [exact H1|]. intros ? ?. by right.
      - rewrite requests_of_app, app_comm_cons, requests_of_app, Hreq0.
        assert (requests_of evs1 = []) as ->.
        { clear -H1. induction evs1 as [|[?|?] ? IH1]; [done| |].
          - by inversion H1.
          - simpl. apply IH1. by inversion H1. }
        rewrite !length_app. simpl. lia. }
    assert (Hstop :
      exists evs, h ++ Requested req :: evs0 = h ++ evs
                  /\ Forall (executor_event req) evs
                  /\ (length (requests_of evs) <= S (length rest))%nat).
    { exists (Requested req :: evs0). repeat split; [done|].
      rewrite Hreq0. simpl. lia. }
    simpl. unfold on_request_exception, time_sleep. monad_unfold.
    destruct (attempt_body env req h) as [[[|r]|e] h1]; simpl in Hh; subst h1.
    + specialize (Hcont [] ltac:(constructor)). by rewrite app_nil_r in Hcont.
    + exact Hstop.
    + destruct (is_RequestException e); [|exact Hstop].
      destruct (attempt =? 2)%nat; [exact Hstop|].
      destruct (sleep_error env (backoff_factor * 2 ^ Z.of_nat attempt));
        [exact Hstop|].
      simpl. rewrite <- app_assoc. simpl.
      apply (Hcont [Slept _]). by repeat constructor.
Qed.

(** A response that is neither a 429 nor an error status is returned at
    once. *)
Lemma attempt_loop_success (h : History) (r : Response) (attempt : nat) (rest : list nat) :
  server env h req = Responded r ->
  failure_of (Responded r) = None ->
  status_code r <> 429 ->
  attempt_loop env req (attempt :: rest) h = (Ok r, h ++ [Requested req]).
Proof.
  intros Hs Hf Hne. simpl in Hf.
  simpl. unfold attempt_body, session_request, raise_for_status. monad_unfold.
  rewrite Hs. simpl.
  destruct (Z.eqb_spec (status_code r) 429) as [?|_]; [done|].
  by destruct ((400 <=? status_code r) && (status_code r <? 600)).
Qed.

(** A 429 whose [Retry-After] is a length [time.sleep] rejects ends the
    call with the exception of [time.sleep]: no handler of the loop catches
    it. *)
Lemma attempt_loop_sleep_refused (h : History) (r : Response) (n : Z) (e : Exn)
    (attempt : nat) (rest : list nat) :
  server env h req = Responded r ->
  status_code r = 429 ->
  retry_after r = HeaderInt n ->
  sleep_error env n = Some e ->
  attempt_loop env req (attempt :: rest) h = (Raise e, h ++ [Requested req]).
Proof.
  intros Hs Hc Hr Hn. pose proof (sleep_error_not_request n e Hn) as He.
  simpl. unfold attempt_body, session_request, int_retry_after, time_sleep.
  monad_unfold. rewrite Hs. simpl. rewrite Hc. simpl. rewrite Hr. simpl.
  rewrite Hn. simpl. by rewrite He.
Qed.

(** C1, as amended: a 429 whose [Retry-After] delay [time.sleep] accepts
    (60 seconds when the header is absent, otherwise an integer that is
    neither negative nor longer than the platform sleeps) makes the
    executor sleep for that delay and go on, but the 429 uses up one of the
    three attempts. After a 429 on the first attempt the executor continues
    with the two attempts that are left; the run sends at most three
    requests; and three 429 responses in a row end it with
    "Max retries exceeded" although no other kind of attempt was made. *)
Theorem rate_limit_consumes_attempt (h : History) (n : Z) :
  rate_limited env (server env h req) = Some n ->
  make_request_of env req h
    = attempt_loop env req [1; 2]%nat (h ++ [Requested req; Slept n])
  /\ (exists evs, snd (make_request_of env req h) = h ++ evs
                  /\ (length (requests_of evs) <= 3)%nat)
  /\ (forall n2 n3,
        rate_limited env (server env (h ++ [Requested req; Slept n]) req) = Some n2 ->
        rate_limited env (server env (h ++ [Requested req; Slept n;
                                        Requested req; Slept n2]) req) = Some n3 ->
        make_request_of env req h
        = (Raise (PlainException "Max retries exceeded"),
           h ++ [Requested req; Slept n; Requested req; Slept n2;
                 Requested req; Slept n3])).
Proof.
  intros H1. unfold make_request_of. change (seq 0 max_retries) with [0; 1; 2]%nat.
  repeat split.
  - by apply attempt_loop_rate_limited.
  - destruct (attempt_loop_history [0; 1; 2]%nat h) as (evs & Hh & _ & Hlen).
    by exists evs.
  - intros n2 n3 H2 H3.
    rewrite (attempt_loop_rate_limited h n _ _ H1).
    rewrite (attempt_loop_rate_limited _ n2 _ _ H2).
    rewrite <- app_assoc. cbn [app].
    rewrite (attempt_loop_rate_limited _ n3 _ _ H3).
    rewrite <- app_assoc. reflexivity.
Qed.

(** C3, as amended: when all attempts fail with a transport failure or an
    error status, the executor sends the request exactly three times, sleeps
    1 second after the first failure and 2 seconds after the second, and
    raises the error of the third attempt without sleeping again; the 4
    seconds of the schedule are never slept. *)
Theorem three_failures_then_raise (h : History) (e1 e2 e3 : Exn) :
  failure_of (server env h req) = Some e1 ->
  failure_of (server env (h ++ [Requested req; Slept 1]) req) = Some e2 ->
  failure_of (server env (h ++ [Requested req; Slept 1;
                                Requested req; Slept 2]) req) = Some e3 ->
  make_request_of env req h
  = (Raise e3, h ++ [Requested req; Slept 1; Requested req; Slept 2;
                     Requested req]).
Proof.
  intros H1 H2 H3. unfold make_request_of.
  change (seq 0 max_retries) with [0; 1; 2]%nat.
  rewrite (attempt_loop_failure_retry h e1 0 _ H1) by (unfold max_retries; lia).
  change (backoff_factor * 2 ^ Z.of_nat 0) with 1.
  rewrite (attempt_loop_failure_retry _ e2 1 _ H2) by (unfold max_retries; lia).
  change (backoff_factor * 2 ^ Z.of_nat 1) with 2.
  rewrite <- app_assoc. cbn [app].
  change [2%nat] with [(max_retries - 1)%nat].
  rewrite (attempt_loop_failure_last _ e3 _ H3).
  by rewrite <- app_assoc.
Qed.

(** *** The executor of snyk_auth_debug.py *)

(** In the debugging client a 401 is raised at once, at whatever attempt it
    arrives: no sleep follows and no further request is sent. *)
Lemma debug_unauthorized_not_retried (h : History) (r : Response)
    (attempt : nat) (rest : list nat) :
  server env h req = Responded r ->
  status_code r = 401 ->
  debug_attempt_loop env req (attempt :: rest) h
  = (Raise (HTTPError 401), h ++ [Requested req]).
Proof.
  intros Hs Hc. simpl.
  unfold debug_attempt_body, session_request, raise_for_status. monad_unfold.
  by rewrite Hs, Hc.
Qed.

End Executor.

Lemma rate_limit_consumes_attempt_witness :
  let env := scripted_env [] (Responded (plain 429)) 0 in
  rate_limited env (server env [] probe_request) = Some 60
  /\ make_request_of env probe_request []
     = (Raise (PlainException "Max retries exceeded"),
        [Requested probe_request; Slept 60; Requested probe_request; Slept 60;
         Requested probe_request; Slept 60]).
Proof.
  split; [reflexivity|].
  apply (proj2 (proj2 (rate_limit_consumes_attempt
                         (scripted_env [] (Responded (plain 429)) 0)
                         probe_request [] 60 eq_refl)) 60 60);
    reflexivity.
Defined.

(** C1 as stated fails. The server answers 429 once, then 500, 500 and 200.
    Were the 429 free of charge, the three attempts of a fresh call would
    follow the sleep and the third would return the 200; the executor
    instead has two attempts left and raises the second 500. *)
Lemma rate_limit_is_charged :
  ~ rate_limit_free_of_charge
      (scripted_env [Responded (plain 429); Responded (plain 500);
                     Responded (plain 500); Responded (plain 200)] Failed 0)
      probe_request [].
Proof.
  intros H. specialize (H 60 eq_refl). vm_compute in H. discriminate H.
Qed.

Lemma three_failures_then_raise_witness :
  let env := scripted_env [] (Responded (plain 500)) 0 in
  make_request_of env probe_request []
  = (Raise (HTTPError 500),
     [Requested probe_request; Slept 1; Requested probe_request; Slept 2;
      Requested probe_request]).
Proof.
  apply (three_failures_then_raise
           (scripted_env [] (Responded (plain 500)) 0) probe_request []
           (HTTPError 500) (HTTPError 500) (HTTPError 500));
    reflexivity.
Defined.

(** A [Retry-After] of 10^20 seconds: the sleep raises and the call ends
    after one request. *)
Example endless_retry_after_raises :
  rate_limited env_endless_retry_after
    (server env_endless_retry_after [] probe_request) = None
  /\ make_request_of env_endless_retry_after probe_request []
     = (Raise (OverflowError sleep_overflow_message), [Requested probe_request]).
Proof. split; vm_compute; reflexivity. Qed.

(** C3 as stated fails: against a server that always answers 500 the
    executor sleeps twice, 1 second and 2 seconds, and never the 4 seconds
    the claim lists. *)
Lemma backoff_never_sleeps_four :
  sleeps_of (snd (make_request_of (scripted_env [] (Responded (plain 500)) 0)
                                  probe_request []))
  <> [1; 2; 4].
Proof. vm_compute. discriminate. Qed.

(** C2 fails on snyk_utility.py: against a server that answers 401 to every
    request, [_make_request] sends the request three times, sleeping 1 and 2
    seconds in between, before it raises the 401. *)
Theorem unauthorized_is_retried :
  _make_request (scripted_env [] (Responded (plain 401)) 0)
                "https://api.snyk.io" "GET" "/rest/orgs/o/projects/p" [] None []
  = (Raise (HTTPError 401),
     [Requested probe_request; Slept 1; Requested probe_request; Slept 2;
      Requested probe_request]).
Proof. vm_compute. reflexivity. Qed.

(** The same server, asked by the debugging client: one request, no sleep. *)
Lemma debug_unauthorized_run :
  debug_make_request (scripted_env [] (Responded (plain 401)) 0)
                     "https://api.snyk.io" "GET" "/rest/orgs/o/projects/p" [] None []
  = (Raise (HTTPError 401), [Requested probe_request]).
Proof. vm_compute. reflexivity. Qed.

(** ** What the client operations do to the history *)

Lemma appends_ret {A} (P : Request -> Prop) (a : A) : appends P (ret a).
Proof. intros h. exists []. simpl. rewrite app_nil_r. by split; [|constructor]. Qed.

Lemma appends_raise {A} (P : Request -> Prop) (e : Exn) : appends P (@raise A e).
Proof. intros h. exists []. simpl. rewrite app_nil_r. by split; [|constructor]. Qed.

Lemma appends_bind {A B} (P : Request -> Prop) (m : M A) (k : A -> M B) :
  appends P m -> (forall a, appends P (k a)) -> appends P (m ≫= k).
Proof.
  intros Hm Hk h. rewrite bind_unfold.
  destruct (Hm h) as (evs1 & H1 & HP1).
  destruct (m h) as [[a|e] h1]; simpl in H1; subst h1.
  - destruct (Hk a (h ++ evs1)) as (evs2 & H2 & HP2).
    exists (evs1 ++ evs2). rewrite H2, app_assoc. split; [done|].
    rewrite requests_of_app. by apply Forall_app.
  - by exists evs1.
Qed.

Lemma appends_try_except {A} (P : Request -> Prop) (m : M A) (handler : Exn -> M A) :
  appends P m -> (forall e, appends P (handler e)) -> appends P (try_except m handler).
Proof.
  intros Hm Hk h. unfold try_except.
  destruct (Hm h) as (evs1 & H1 & HP1).
  destruct (m h) as [[a|e] h1]; simpl in H1; subst h1.
  - by exists evs1.
  - destruct (Hk e (h ++ evs1)) as (evs2 & H2 & HP2).
    exists (evs1 ++ evs2). rewrite H2, app_assoc. split; [done|].
    rewrite requests_of_app. by apply Forall_app.
Qed.

(** A [try] whose handler returns a value never raises. *)
Lemma try_except_total {A} (m : M A) (a : A) (h : History) :
  exists x h', try_except m (fun _ => ret a) h = (Ok x, h').
Proof. unfold try_except. destruct (m h) as [[x|e] h']; by eauto. Qed.

Lemma appends_weaken {A} (P Q : Request -> Prop) (m : M A) :
  (forall rq, P rq -> Q rq) -> appends P m -> appends Q m.
Proof.
  intros HPQ Hm h. destruct (Hm h) as (evs & H & HP).
  exists evs. split; [done|]. by eapply Forall_impl.
Qed.

Lemma appends_run {A} (P : Request -> Prop) (m : M A) (h h' : History) (res : Res A) :
  appends P m -> m h = (res, h') ->
  exists evs, h' = h ++ evs /\ Forall P (requests_of evs).
Proof. intros Hm Hrun. destruct (Hm h) as (evs & H & HP). rewrite Hrun in H. eauto. Qed.

Lemma requests_of_executor_events (req : Request) (evs : list Event) :
  Forall (executor_event req) evs -> Forall (eq req) (requests_of evs).
Proof.
  induction 1 as [|[rq|s] evs [Heq|Hsl] _ IH]; simpl; try done.
  inversion Heq; subst. by constructor.
Qed.

Ltac appends_step :=
  first [ apply appends_ret | apply appends_raise
        | apply appends_bind; [|intros ?]
        | apply appends_try_except; [|intros ?] ].

Section ClientHistory.

Variable env : Env.
Variable org_id : string.
Variable base_url : string.

Lemma appends_make_request_of (P : Request -> Prop) (req : Request) :
  P req -> appends P (make_request_of env req).
Proof.
  intros HP h. unfold make_request_of.
  destruct (attempt_loop_history env req (seq 0 max_retries) h) as (evs & H & Hev & _).
  exists evs. split; [done|].
  eapply Forall_impl; [exact (requests_of_executor_events req evs Hev)|].
  by intros ? <-.
Qed.

Lemma appends_make_request (P : Request -> Prop) (method endpoint : string)
    (params : list (string * string)) (json : option WaiverData) :
  P (mkRequest method (base_url +:+ endpoint) params json) ->
  appends P (_make_request env base_url method endpoint params json).
Proof. apply appends_make_request_of. Qed.



Lemma appends_get_clock (P : Request -> Prop) : appends P (get_clock env).
Proof. intros h. exists []. simpl. rewrite app_nil_r. by split; [|constructor]. Qed.

Lemma appends_for_append {A B} (P : Request -> Prop) (f : A -> M B)
    (xs : list A) (acc : list B) :
  (forall x, appends P (f x)) -> appends P (for_append f xs acc).
Proof.
  intros Hf. revert acc. induction xs as [|x xs IH]; intros acc; simpl.
  - apply appends_ret.
  - apply appends_bind; [apply Hf | intros y; apply IH].
Qed.

End ClientHistory.

(** Decompose a client operation into the combinators of the monad. *)
Ltac appends_auto :=
  repeat (cbv zeta;
    lazymatch goal with
    | |- appends _ (ret _) => apply appends_ret
    | |- appends _ (raise _) => apply appends_raise
    | |- appends _ (get_clock _) => apply appends_get_clock
    | |- appends _ (mbind _ _) => apply appends_bind
    | |- appends _ (try_except _ _) => apply appends_try_except
    | |- appends _ (for_append _ _ _) => apply appends_for_append
    | |- appends _ (match ?x with _ => _ end) => destruct x
    | |- appends _ (if ?x then _ else _) => destruct x
    | |- appends _ _ => fail
    | |- forall _, _ => intros ?
    end).

(** ** Waiver application *)

Section Waivers.

Variable env : Env.
Variable org_id : string.
Variable base_url : string.

#[local] Abbreviation make_request := (_make_request env base_url).
#[local] Abbreviation existing_waivers := (get_existing_waivers_for_issue env org_id base_url).
#[local] Abbreviation probe_of issue_id project_id :=
  (mkRequest "GET" (base_url +:+ issue_endpoint org_id issue_id project_id) [] None).

Lemma appends_compute_is_active (P : Request -> Prop) (attrs : gmap string string) :
  appends P (compute_is_active env attrs).
Proof. unfold compute_is_active. appends_auto. Qed.

Lemma appends_existing_waivers (P : Request -> Prop) (issue_id project_id : string) :
  P (mkRequest "GET" (base_url +:+ waivers_endpoint org_id issue_id project_id) [] None) ->
  appends P (existing_waivers issue_id project_id).
Proof.
  intros HP. unfold get_existing_waivers_for_issue.
  apply appends_try_except; [|intros; apply appends_ret].
  apply appends_bind; [by apply appends_make_request|intros r].
  unfold response_json, data_items, existing_waiver_of_resource, resource_id.
  appends_auto; apply appends_compute_is_active.
Qed.

(** The look-up of existing waivers swallows every exception. *)
Lemma existing_waivers_total (issue_id project_id : string) (h : History) :
  exists ws h', existing_waivers issue_id project_id h = (Ok ws, h').
Proof.
  unfold get_existing_waivers_for_issue. apply try_except_total.
Qed.


(** [add_waiver] returns a boolean; the one exception it lets through is the
    overflow of the expiry date, computed outside its [try]. *)
Lemma add_waiver_result (issue_id project_id description waiver_type : string)
    (days : Z) (h : History) :
  (exists b, fst (add_waiver env org_id base_url issue_id project_id description
                             waiver_type days h) = Ok b)
  \/ (exists e, fst (add_waiver env org_id base_url issue_id project_id description
                                waiver_type days h) = Raise e
                /\ expiry_overflow days e).
Proof.
  unfold add_waiver, timedelta_days, datetime_add, get_clock.
  rewrite !bind_unfold.
  destruct (timedelta_max_days <? Z.abs days);
    [right; eexists; split; [reflexivity | by left]|].
  cbn [ret]. rewrite !bind_unfold.
  destruct (_ || _); [right; eexists; split; [reflexivity | by right]|].
  cbn [ret]. left.
  destruct (try_except_total
              (make_request "POST" (waivers_endpoint org_id issue_id project_id) []
                 (Some (mkWaiverData description waiver_type
                          (clock env h + days * microseconds_per_day)
                          description issue_id));; ret true) false h)
    as (b & h' & ->).
  by exists b.
Qed.

(** The shape of a run of [smart_add_waiver], by the result of the probe. *)
Lemma smart_add_waiver_probe_failed
    (issue_id project_id description waiver_type : string) (days : Z)
    (skip_if_waived : bool) (h h1 : History) (e : Exn) :
  make_request "GET" (issue_endpoint org_id issue_id project_id) [] None h
    = (Raise e, h1) ->
  smart_add_waiver env org_id base_url issue_id project_id description
                   waiver_type days skip_if_waived h
  = (Ok (mkStatus "skipped_no_issue" "Issue not found in this project"), h1).
Proof.
  intros Hp. unfold smart_add_waiver.
  rewrite bind_unfold. unfold try_except at 1. rewrite bind_unfold, Hp.
  reflexivity.
Qed.

Lemma smart_add_waiver_probe_ok
    (issue_id project_id description waiver_type : string) (days : Z)
    (skip_if_waived : bool) (h h1 : History) (r : Response) :
  make_request "GET" (issue_endpoint org_id issue_id project_id) [] None h
    = (Ok r, h1) ->
  smart_add_waiver env org_id base_url issue_id project_id description
                   waiver_type days skip_if_waived h
  = (collision ←
       (if skip_if_waived then
          ws ← existing_waivers issue_id project_id;
          ret (head (List.filter SnykWaiver.is_active ws))
        else ret None);
     match collision with
     | Some first_active =>
         ret (mkStatus "skipped_existing_waiver"
                ("Active waiver already exists (expires: " +:+
                 SnykWaiver.expiry_date first_active +:+ ")"))
     | None =>
         success ← add_waiver env org_id base_url issue_id project_id
                              description waiver_type days;
         if (success : bool) then ret (mkStatus "added" "Waiver added successfully")
         else ret (mkStatus "failed" "Failed to add waiver")
     end) h1.
Proof.
  intros Hp. unfold smart_add_waiver.
  rewrite bind_unfold. unfold try_except at 1. rewrite bind_unfold, Hp.
  reflexivity.
Qed.


(** C4: with [skip_if_waived] set, when the probe for the issue succeeds and
    the waivers fetched for it contain an active one, [smart_add_waiver]
    returns the status "skipped_existing_waiver" and stops where the
    look-up of the waivers stopped: every request of the call is a GET, none
    creates a waiver. *)
Theorem smart_add_waiver_skips_existing
    (issue_id project_id description waiver_type : string) (days : Z)
    (h h1 h2 : History) (r : Response) (ws : list SnykWaiver.t) :
  make_request "GET" (issue_endpoint org_id issue_id project_id) [] None h
    = (Ok r, h1) ->
  existing_waivers issue_id project_id h1 = (Ok ws, h2) ->
  (exists w, w ∈ ws /\ SnykWaiver.is_active w = true) ->
  exists first_active,
    head (List.filter SnykWaiver.is_active ws) = Some first_active
    /\ smart_add_waiver env org_id base_url issue_id project_id description
                        waiver_type days true h
       = (Ok (mkStatus "skipped_existing_waiver"
                ("Active waiver already exists (expires: " +:+
                 SnykWaiver.expiry_date first_active +:+ ")")), h2)
    /\ status (mkStatus "skipped_existing_waiver"
                 ("Active waiver already exists (expires: " +:+
                  SnykWaiver.expiry_date first_active +:+ ")"))
       = "skipped_existing_waiver"
    /\ exists evs, h2 = h ++ evs /\ Forall is_get (requests_of evs).
Proof.
  intros Hp Hw (w & Hin & Hact).
  assert (Hne : exists first_active,
             head (List.filter SnykWaiver.is_active ws) = Some first_active).
  { assert (Hf : In w (List.filter SnykWaiver.is_active ws)).
    { apply filter_In. split; [by apply list_elem_of_In | done]. }
    destruct (List.filter SnykWaiver.is_active ws) as [|w0 ?]; [done|].
    by exists w0. }
  destruct Hne as (first_active & Hhead).
  exists first_active. split; [done|]. split; [|split; [done|]].
  - rewrite (smart_add_waiver_probe_ok _ _ _ _ _ _ _ _ _ Hp).
    rewrite !bind_unfold, Hw. cbn [ret]. by rewrite Hhead.
  - destruct (appends_run is_get _ _ _ _
                (appends_make_request env base_url is_get "GET" _ [] None eq_refl) Hp)
      as (evs1 & -> & H1).
    destruct (appends_run is_get _ _ _ _
                (appends_existing_waivers is_get issue_id project_id eq_refl) Hw)
      as (evs2 & -> & H2).
    exists (evs1 ++ evs2). rewrite app_assoc. split; [done|].
    rewrite requests_of_app. by apply Forall_app.
Qed.


(** A call of [smart_add_waiver] returns one of the four statuses, unless
    its [add_waiver] raises. *)
Lemma smart_add_waiver_status_or_raise
    (issue_id project_id description waiver_type : string) (days : Z)
    (skip_if_waived : bool) (h : History) :
  (exists sd h', smart_add_waiver env org_id base_url issue_id project_id description
                                  waiver_type days skip_if_waived h = (Ok sd, h')
                 /\ status sd ∈ outcome_statuses)
  \/ (exists e h2 h',
        smart_add_waiver env org_id base_url issue_id project_id description
                         waiver_type days skip_if_waived h = (Raise e, h')
        /\ add_waiver env org_id base_url issue_id project_id description
                      waiver_type days h2 = (Raise e, h')).
Proof.
  destruct (make_request "GET" (issue_endpoint org_id issue_id project_id) [] None h)
    as [[r|e] h1] eqn:Hp.
  - rewrite (smart_add_waiver_probe_ok _ _ _ _ _ _ _ _ _ Hp).
    rewrite bind_unfold.
    assert (Hcol : exists c h2,
      (if skip_if_waived then
         ws ← existing_waivers issue_id project_id;
         ret (head (List.filter SnykWaiver.is_active ws))
       else ret None) h1 = (Ok c, h2)).
    { destruct skip_if_waived; [|by eexists _, _].
      rewrite bind_unfold.
      destruct (existing_waivers_total issue_id project_id h1) as (ws & h2 & ->).
      by eexists _, _. }
    destruct Hcol as (c & h2 & ->).
    destruct c as [first_active|].
    + left. eexists _, _. split; [reflexivity|]. unfold outcome_statuses. simpl.
      set_solver.
    + rewrite bind_unfold.
      destruct (add_waiver _ _ _ _ _ _ _ _ h2) as [[b'|e'] h3] eqn:Hadd.
      * left. destruct b'; eexists _, _; (split; [reflexivity|]);
          unfold outcome_statuses; simpl; set_solver.
      * right. by exists e', h2, h3.
  - rewrite (smart_add_waiver_probe_failed _ _ _ _ _ _ _ _ _ Hp).
    left. eexists _, _. split; [reflexivity|]. unfold outcome_statuses. simpl.
    set_solver.
Qed.


End Waivers.

Lemma smart_add_waiver_skips_existing_witness :
  exists sd h',
    smart_add_waiver env_active_waiver "o" "https://api.snyk.io" "SNYK-JS-1" "p1"
                     "Upgrade planned" "temporary" 90 true []
    = (Ok sd, h')
    /\ status sd = "skipped_existing_waiver"
    /\ Forall is_get (requests_of h').
Proof.
  destruct (smart_add_waiver_skips_existing env_active_waiver "o"
              "https://api.snyk.io" "SNYK-JS-1" "p1" "Upgrade planned"
              "temporary" 90 [] [Requested issue_probe]
              [Requested issue_probe; Requested waivers_lookup]
              (plain 200) [active_waiver])
    as (first_active & _ & Hrun & Hstatus & evs & Hh & Hget).
  - vm_compute. reflexivity.
  - vm_compute. reflexivity.
  - exists active_waiver. split; [apply list_elem_of_here | reflexivity].
  - eexists _, _. split; [exact Hrun|]. split; [exact Hstatus|].
    rewrite Hh. exact Hget.
Defined.



Example smart_add_waiver_overflow_run :
  fst (smart_add_waiver env_accepts_all "o" "https://api.snyk.io" "SNYK-JS-1" "p1"
                        "Upgrade planned" "temporary" 4000000 true [])
  = Raise (OverflowError date_overflow_message).
Proof. vm_compute. reflexivity. Qed.

(** ** Issue identity and the set of distinct issues *)

Lemma issue_eqb_spec (a b : SnykIssue.t) :
  SnykIssue.eqb a b = true
  <-> SnykIssue.id a = SnykIssue.id b
      /\ SnykIssue.package_name a = SnykIssue.package_name b
      /\ SnykIssue.package_version a = SnykIssue.package_version b.
Proof.
  unfold SnykIssue.eqb. rewrite !andb_true_iff, !bool_decide_eq_true. tauto.
Qed.

(** [__eq__] and [__hash__] agree: equal issues are those that hash the
    same tuple. *)
Lemma issue_eqb_hash_key (a b : SnykIssue.t) :
  SnykIssue.eqb a b = true <-> SnykIssue.hash_key a = SnykIssue.hash_key b.
Proof.
  rewrite issue_eqb_spec. unfold SnykIssue.hash_key. split.
  - by intros (-> & -> & ->).
  - by intros [= -> -> ->].
Qed.

Lemma set_mem_spec (x : SnykIssue.t) (s : IssueSet) :
  set_mem x s = true
  <-> SnykIssue.hash_key x ∈ SnykIssue.hash_key <$> s.
Proof.
  unfold set_mem. rewrite existsb_exists, list_elem_of_fmap. split.
  - intros (m & Hin & Heq). exists m. split.
    + by apply issue_eqb_hash_key.
    + by apply list_elem_of_In.
  - intros (m & Heq & Hin). exists m. split.
    + by apply list_elem_of_In.
    + by apply issue_eqb_hash_key.
Qed.

Lemma set_add_wf (s : IssueSet) (x : SnykIssue.t) :
  set_wf s -> set_wf (set_add s x).
Proof.
  unfold set_wf, set_add. intros Hwf.
  destruct (set_mem x s) eqn:Hmem; [done|].
  rewrite fmap_app. apply NoDup_app. split; [done|]. split.
  - intros k Hk Hx. apply list_elem_of_singleton in Hx as ->.
    apply set_mem_spec in Hk. congruence.
  - apply NoDup_singleton.
Qed.

Lemma set_add_elem (s : IssueSet) (x m : SnykIssue.t) :
  m ∈ set_add s x <-> m ∈ s \/ (m = x /\ set_mem x s = false).
Proof.
  unfold set_add. destruct (set_mem x s) eqn:Hmem.
  - split; [by left | by intros [?|[_ ?]]].
  - rewrite elem_of_app, list_elem_of_singleton. tauto.
Qed.

Lemma set_add_mem (s : IssueSet) (x i : SnykIssue.t) :
  set_mem i (set_add s x) = true
  <-> set_mem i s = true \/ SnykIssue.eqb i x = true.
Proof.
  rewrite !set_mem_spec, issue_eqb_hash_key. unfold set_add.
  destruct (set_mem x s) eqn:Hmem.
  - split; [by left|]. intros [?|Heq]; [done|].
    rewrite Heq. by apply set_mem_spec.
  - rewrite fmap_app, elem_of_app. simpl. rewrite list_elem_of_singleton. tauto.
Qed.

Lemma set_update_wf (xs : list SnykIssue.t) (s : IssueSet) :
  set_wf s -> set_wf (set_update s xs).
Proof.
  unfold set_update. revert s. induction xs as [|x xs IH]; intros s Hwf; [done|].
  simpl. apply IH. by apply set_add_wf.
Qed.

(** Members of the updated set were members before or come from the list. *)
Lemma set_update_elem (xs : list SnykIssue.t) (s : IssueSet) (m : SnykIssue.t) :
  m ∈ set_update s xs -> m ∈ s \/ m ∈ xs.
Proof.
  unfold set_update. revert s. induction xs as [|x xs IH]; intros s; simpl.
  - by left.
  - intros Hm. destruct (IH _ Hm) as [Hs|Hxs].
    + apply set_add_elem in Hs as [?|[-> _]]; [by left|].
      right. apply list_elem_of_here.
    + right. by apply list_elem_of_further.
Qed.

(** Everything in the set or in the list is equal to a member afterwards. *)
Lemma set_update_mem (xs : list SnykIssue.t) (s : IssueSet) (i : SnykIssue.t) :
  set_mem i (set_update s xs) = true
  <-> set_mem i s = true \/ exists x, x ∈ xs /\ SnykIssue.eqb i x = true.
Proof.
  unfold set_update. revert s. induction xs as [|x xs IH]; intros s; simpl.
  - split; [by left|]. intros [?|(x & Hx & _)]; [done|]. by inversion Hx.
  - rewrite IH, set_add_mem. split.
    + intros [[?|?]|(y & Hy & ?)]; [by left| |].
      * right. exists x. split; [apply list_elem_of_here | done].
      * right. exists y. split; [by apply list_elem_of_further | done].
    + intros [?|(y & Hy & Heq)]; [by left; left|].
      apply elem_of_cons in Hy as [->|Hy]; [by left; right|].
      right. by exists y.
Qed.

(** The union of a family of lists, as the loop of [get_distinct_issues]
    builds it. *)
Lemma union_wf (ls : list (list SnykIssue.t)) (s : IssueSet) :
  set_wf s -> set_wf (foldl set_update s ls).
Proof.
  revert s. induction ls as [|l ls IH]; intros s Hwf; [done|].
  simpl. apply IH. by apply set_update_wf.
Qed.

Lemma union_elem (ls : list (list SnykIssue.t)) (s : IssueSet) (m : SnykIssue.t) :
  m ∈ foldl set_update s ls -> m ∈ s \/ exists l, l ∈ ls /\ m ∈ l.
Proof.
  revert s. induction ls as [|l ls IH]; intros s; simpl; [by left|].
  intros Hm. destruct (IH _ Hm) as [Hs|(l' & Hl' & Hml')].
  - apply set_update_elem in Hs as [?|?]; [by left|].
    right. exists l. split; [apply list_elem_of_here | done].
  - right. exists l'. split; [by apply list_elem_of_further | done].
Qed.

Lemma union_mem (ls : list (list SnykIssue.t)) (s : IssueSet) (i : SnykIssue.t) :
  set_mem i (foldl set_update s ls) = true
  <-> set_mem i s = true
      \/ exists l x, l ∈ ls /\ x ∈ l /\ SnykIssue.eqb i x = true.
Proof.
  revert s. induction ls as [|l ls IH]; intros s; simpl.
  - split; [by left|]. intros [?|(l & x & Hl & _)]; [done|]. by inversion Hl.
  - rewrite IH, set_update_mem. split.
    + intros [[?|(x & Hx & ?)]|(l' & x & Hl' & Hx & ?)]; [by left| |].
      * right. exists l, x. split; [apply list_elem_of_here | done].
      * right. exists l', x. split; [by apply list_elem_of_further | done].
    + intros [?|(l' & x & Hl' & Hx & Heq)]; [by left; left|].
      apply elem_of_cons in Hl' as [->|Hl']; [left; right; by exists x|].
      right. by exists l', x.
Qed.

(** With a method that always returns, the loop folds [update] over the
    lists it fetched. *)
Lemma distinct_loop_fold (fetch : string -> M (list SnykIssue.t))
    (project_ids : list string) (all_issues : IssueSet) (h : History) :
  (forall p h0, exists l h', fetch p h0 = (Ok l, h')) ->
  fst (distinct_loop fetch project_ids all_issues h)
  = Ok (foldl set_update all_issues (fetched_lists fetch project_ids h)).
Proof.
  intros Htotal. revert all_issues h.
  induction project_ids as [|p rest IH]; intros all_issues h; [done|].
  simpl. rewrite bind_unfold.
  destruct (Htotal p h) as (l & h' & ->). simpl. apply IH.
Qed.

Lemma set_wf_unique (s : IssueSet) (m1 m2 : SnykIssue.t) :
  set_wf s -> m1 ∈ s -> m2 ∈ s -> SnykIssue.eqb m1 m2 = true -> m1 = m2.
Proof.
  unfold set_wf. rewrite issue_eqb_hash_key.
  induction s as [|x s IH]; intros Hwf H1 H2 Hk; [by inversion H1|].
  rewrite fmap_cons in Hwf. apply NoDup_cons in Hwf as [Hx Hwf].
  apply elem_of_cons in H1 as [->|H1]; apply elem_of_cons in H2 as [->|H2].
  - done.
  - exfalso. apply Hx. rewrite Hk. by apply list_elem_of_fmap_2.
  - exfalso. apply Hx. rewrite <- Hk. by apply list_elem_of_fmap_2.
  - by apply IH.
Qed.

Lemma issue_eqb_trans (a b c : SnykIssue.t) :
  SnykIssue.eqb a b = true -> SnykIssue.eqb b c = true -> SnykIssue.eqb a c = true.
Proof. rewrite !issue_eqb_hash_key. congruence. Qed.

Lemma issue_eqb_sym (a b : SnykIssue.t) :
  SnykIssue.eqb a b = true -> SnykIssue.eqb b a = true.
Proof. rewrite !issue_eqb_hash_key. congruence. Qed.

(** Whatever lists a per-project fetch returns, the loop of
    [get_distinct_issues] returns their union under [__eq__]. *)
Lemma distinct_loop_union (fetch : string -> M (list SnykIssue.t))
    (project_ids : list string) (h : History) :
  (forall p h0, exists l h', fetch p h0 = (Ok l, h')) ->
  exists s,
    fst (distinct_loop fetch project_ids [] h) = Ok s
    /\ union_of_lists s (fetched_lists fetch project_ids h).
Proof.
  intros Htotal.
  set (ls := fetched_lists fetch project_ids h).
  exists (foldl set_update [] ls).
  assert (Hwf : set_wf (foldl set_update [] ls)) by (apply union_wf; constructor).
  assert (Hrep : forall l i, l ∈ ls -> i ∈ l ->
            exists m, m ∈ foldl set_update [] ls /\ SnykIssue.eqb i m = true).
  { intros l i Hl Hi.
    assert (Hmem : set_mem i (foldl set_update [] ls) = true).
    { apply union_mem. right. exists l, i. repeat split; try done.
      apply issue_eqb_hash_key. done. }
    unfold set_mem in Hmem. apply existsb_exists in Hmem as (m & Hm & Heq).
    exists m. split; [by apply list_elem_of_In | done]. }
  split; [by apply distinct_loop_fold|].
  split; [intros m1 m2; by apply set_wf_unique|].
  split.
  { intros m Hm. apply union_elem in Hm as [Hm|?]; [by inversion Hm | done]. }
  split; [exact Hrep|].
  intros l1 l2 a b Hl1 Hl2 Ha Hb.
  destruct (Hrep l1 a Hl1 Ha) as (ma & Hma & Hea).
  destruct (Hrep l2 b Hl2 Hb) as (mb & Hmb & Heb).
  destruct (SnykIssue.eqb a b) eqn:Hab.
  - exists ma. repeat split; try done.
    assert (ma = mb) as ->; [|done].
    apply (set_wf_unique _ _ _ Hwf Hma Hmb).
    eapply issue_eqb_trans; [apply issue_eqb_sym, Hea|].
    by eapply issue_eqb_trans.
  - exists ma, mb. repeat split; try done.
    intros ->. rewrite <- not_true_iff_false in Hab. apply Hab.
    eapply issue_eqb_trans; [exact Hea|]. by apply issue_eqb_sym.
Qed.

(** C6: two issues are equal exactly when they agree on id, package name
    and package version, which is also the tuple that is hashed; so issues
    with the same id and different package names or versions are unequal.
    [get_distinct_issues] returns, and what it returns is the union, under
    that equality, of the lists [get_project_issues] returned for the
    projects: no two members are equal, every member comes from one of the
    lists, every listed issue is equal to a member; two listed issues that
    differ in one of the three fields are kept as two members, and two that
    agree in all three are kept as one. The same holds of its loop for
    every family of per-project lists, that is with any method that
    returns in the place of [get_project_issues]. *)
Theorem distinct_issues_union (env : Env) (org_id base_url : string)
    (project_ids : list string) (h : History) :
  (forall a b, SnykIssue.eqb a b = true
               <-> SnykIssue.id a = SnykIssue.id b
                   /\ SnykIssue.package_name a = SnykIssue.package_name b
                   /\ SnykIssue.package_version a = SnykIssue.package_version b)
  /\ (forall a b, SnykIssue.eqb a b = true
                  <-> SnykIssue.hash_key a = SnykIssue.hash_key b)
  /\ (exists s,
        fst (get_distinct_issues env org_id base_url project_ids h) = Ok s
        /\ union_of_lists s
             (fetched_lists (get_project_issues env org_id base_url) project_ids h))
  /\ (forall fetch : string -> M (list SnykIssue.t),
        (forall p h0, exists l h', fetch p h0 = (Ok l, h')) ->
        exists s,
          fst (distinct_loop fetch project_ids [] h) = Ok s
          /\ union_of_lists s (fetched_lists fetch project_ids h)).
Proof.
  split; [exact issue_eqb_spec|]. split; [exact issue_eqb_hash_key|].
  split; [|intros fetch; apply distinct_loop_union].
  unfold get_distinct_issues. apply distinct_loop_union.
  intros p h0. unfold get_project_issues, fetch_issues. apply try_except_total.
Qed.

(** Two projects report the same issue: [get_distinct_issues] returns it
    once, as the first project reported it. With a method that reports the
    issue at two package versions, both are kept. *)
Lemma distinct_issues_union_witness :
  (exists s,
     fst (get_distinct_issues env_shared_issue "o" "https://api.snyk.io"
                              ["p1"; "p2"] []) = Ok s
     /\ s = [SnykIssue.mk "SNYK-JS-LODASH-1" "Prototype Pollution in lodash" "high"
               "unknown" "p1" "web-app" "Unknown" "Unknown" "unknown"])
  /\ (exists s,
        fst (distinct_loop canned_fetch ["p1"; "p2"] [] []) = Ok s
        /\ s = [lodash_issue "p1" "4.17.20"; lodash_issue "p2" "4.17.21"]).
Proof.
  destruct (distinct_issues_union env_shared_issue "o" "https://api.snyk.io"
              ["p1"; "p2"] [])
    as (_ & _ & (s & Hs & _) & Hany).
  split.
  - exists s. split; [exact Hs|]. vm_compute in Hs. by inversion Hs.
  - destruct (Hany canned_fetch) as (s' & Hs' & _).
    + intros p h0. by eexists _, _.
    + exists s'. split; [exact Hs'|]. vm_compute in Hs'. by inversion Hs'.
Defined.

(** Two projects holding the issue at the same package coordinates count
    once. *)
Example same_coordinates_once :
  fst (distinct_loop (fun p => ret [lodash_issue p "4.17.21"]) ["p1"; "p2"] [] [])
  = Ok [lodash_issue "p1" "4.17.21"].
Proof. vm_compute. reflexivity. Qed.

(** ** Fetching issues *)

(** A property of every element a loop appends holds of the whole list. *)
Lemma for_append_Forall {A B} (P : B -> Prop) (f : A -> M B) (xs : list A)
    (acc l : list B) (h h' : History) :
  (forall x h0 y h1, f x h0 = (Ok y, h1) -> P y) ->
  Forall P acc ->
  for_append f xs acc h = (Ok l, h') ->
  Forall P l.
Proof.
  intros Hf. revert acc h. induction xs as [|x xs IH]; intros acc h Hacc; simpl.
  - by intros [= <- _].
  - rewrite bind_unfold. destruct (f x h) as [[y|e] h1] eqn:Hx; [|done].
    apply IH. apply Forall_app. split; [done|].
    constructor; [by eapply Hf | constructor].
Qed.

Lemma fetched_lists_origin (fetch : string -> M (list SnykIssue.t))
    (project_ids : list string) (h : History) (l : list SnykIssue.t) :
  l ∈ fetched_lists fetch project_ids h ->
  exists p h0 h', fetch p h0 = (Ok l, h').
Proof.
  revert h. induction project_ids as [|p rest IH]; intros h; simpl.
  - by intros ?%elem_of_nil.
  - destruct (fetch p h) as [[l0|e] h'] eqn:Hf; [|by intros ?%elem_of_nil].
    intros [->|Hin]%elem_of_cons; [by eauto | by eapply IH].
Qed.

(** A set whose members all lack package coordinates has no two members
    with the same id. *)
Lemma unknown_package_ids (s : IssueSet) :
  set_wf s -> Forall unknown_package s -> NoDup (SnykIssue.id <$> s).
Proof.
  unfold set_wf. intros Hwf Hun.
  apply (NoDup_fmap_1 (fun i : string => (i, "Unknown", "Unknown"))).
  rewrite <- list_fmap_compose.
  erewrite list_fmap_ext; [exact Hwf|].
  intros k i Hi. apply list_elem_of_lookup_2 in Hi.
  rewrite Forall_forall in Hun. destruct (Hun i Hi) as [Hn Hv].
  unfold SnykIssue.hash_key. simpl. by rewrite Hn, Hv.
Qed.

Section Fetch.

Variable env : Env.
Variable org_id : string.
Variable base_url : string.

Lemma issue_of_resource_unknown (project_id project_name : string)
    (issue_data : Resource) (h h' : History) (i : SnykIssue.t) :
  issue_of_resource project_id project_name issue_data h = (Ok i, h') ->
  unknown_package i.
Proof.
  unfold issue_of_resource, resource_id. rewrite bind_unfold.
  destruct (read_problems issue_data h) as [[[]|e] h1]; [|done].
  rewrite bind_unfold.
  destruct (res_id issue_data); [|done].
  intros [= <- _]. by split.
Qed.

Lemma issue_of_resource_rev2_unknown (project_id project_name : string)
    (issue_data : Resource) (h h' : History) (i : SnykIssue.t) :
  issue_of_resource_rev2 project_id project_name issue_data h = (Ok i, h') ->
  unknown_package i.
Proof.
  unfold issue_of_resource_rev2, resource_id. rewrite bind_unfold.
  destruct (res_id issue_data); [|done].
  intros [= <- _]. by split.
Qed.

(** The fetch swallows every exception, and what it returns was built by
    [build]. *)
Lemma fetch_issues_Forall (P : SnykIssue.t -> Prop)
    (build : string -> string -> Resource -> M SnykIssue.t)
    (project_id : string) (h : History) :
  (forall pid pname r h0 i h1, build pid pname r h0 = (Ok i, h1) -> P i) ->
  exists l h', fetch_issues env org_id base_url build project_id h = (Ok l, h')
               /\ Forall P l.
Proof.
  intros Hbuild. unfold fetch_issues, try_except.
  match goal with |- context [ (?m ≫= ?k) h ] => set (body := m ≫= k) end.
  destruct (body h) as [[l|e] h'] eqn:Hbody; [|by eexists _, _].
  exists l, h'. split; [done|].
  subst body. revert Hbody. rewrite bind_unfold.
  destruct (_make_request _ _ _ _ _ _ h) as [[r1|?] h1]; [|done].
  rewrite bind_unfold. destruct (response_json r1 h1) as [[d1|?] h2]; [|done].
  rewrite bind_unfold. destruct (project_name_of d1 h2) as [[pname|?] h3]; [|done].
  rewrite bind_unfold.
  destruct (_make_request _ _ _ _ _ _ h3) as [[r2|?] h4]; [|done].
  rewrite bind_unfold. destruct (response_json r2 h4) as [[d2|?] h5]; [|done].
  rewrite bind_unfold. destruct (data_items d2 h5) as [[items|?] h6]; [|done].
  intros Hloop. eapply for_append_Forall; [|constructor|exact Hloop].
  intros x h0 y h1'. apply Hbuild.
Qed.

Lemma get_project_issues_total (project_id : string) (h : History) :
  exists l h', get_project_issues env org_id base_url project_id h = (Ok l, h').
Proof.
  destruct (fetch_issues_Forall (fun _ => True) issue_of_resource project_id h)
    as (l & h' & H & _); [done|]. by exists l, h'.
Qed.

(** The distinct issues in terms of the lists fetched. *)
Lemma distinct_loop_unknown (fetch : string -> M (list SnykIssue.t))
    (project_ids : list string) (h : History) :
  (forall p h0, exists l h', fetch p h0 = (Ok l, h') /\ Forall unknown_package l) ->
  exists s h', distinct_loop fetch project_ids [] h = (Ok s, h')
               /\ Forall unknown_package s
               /\ NoDup (SnykIssue.id <$> s).
Proof.
  intros Hfetch.
  assert (Htotal : forall p h0, exists l h', fetch p h0 = (Ok l, h')).
  { intros p h0. destruct (Hfetch p h0) as (l & h' & ? & _). by eauto. }
  pose proof (distinct_loop_fold fetch project_ids [] h Htotal) as Hfold.
  destruct (distinct_loop fetch project_ids [] h) as [res h'].
  simpl in Hfold. subst res. eexists _, _. split; [done|].
  assert (Hun : Forall unknown_package
                  (foldl set_update [] (fetched_lists fetch project_ids h))).
  { apply Forall_forall. intros m Hm.
    apply union_elem in Hm as [Hm|(l & Hl & Hml)]; [by inversion Hm|].
    apply fetched_lists_origin in Hl as (p & h0 & h1 & Hl).
    destruct (Hfetch p h0) as (l' & h1' & Hl' & HF).
    rewrite Hl in Hl'. inversion Hl'; subst.
    rewrite Forall_forall in HF. by apply HF. }
  split; [done|].
  apply unknown_package_ids; [|done]. apply union_wf. constructor.
Qed.

(** C10: every issue [get_project_issues] returns has package name and
    version "Unknown", in both revisions of the file; so among the issues
    [get_distinct_issues] returns no two share an id. *)
Theorem fetched_issues_have_unknown_package (project_ids : list string)
    (project_id : string) (h : History) :
  (exists l h', get_project_issues env org_id base_url project_id h = (Ok l, h')
                /\ Forall unknown_package l)
  /\ (exists l h', get_project_issues_rev2 env org_id base_url project_id h = (Ok l, h')
                   /\ Forall unknown_package l)
  /\ (exists s h', get_distinct_issues env org_id base_url project_ids h = (Ok s, h')
                   /\ Forall unknown_package s
                   /\ NoDup (SnykIssue.id <$> s))
  /\ (exists s h', get_distinct_issues_rev2 env org_id base_url project_ids h = (Ok s, h')
                   /\ Forall unknown_package s
                   /\ NoDup (SnykIssue.id <$> s)).
Proof.
  assert (H1 : forall p h0, exists l h',
            get_project_issues env org_id base_url p h0 = (Ok l, h')
            /\ Forall unknown_package l).
  { intros p h0. apply fetch_issues_Forall.
    intros ? ? ? ? ? ?. apply issue_of_resource_unknown. }
  assert (H2 : forall p h0, exists l h',
            get_project_issues_rev2 env org_id base_url p h0 = (Ok l, h')
            /\ Forall unknown_package l).
  { intros p h0. apply fetch_issues_Forall.
    intros ? ? ? ? ? ?. apply issue_of_resource_rev2_unknown. }
  split; [apply H1|]. split; [apply H2|].
  split; by apply distinct_loop_unknown.
Qed.

End Fetch.

(** The issue two projects share is returned once, as the first project
    reported it. *)
Example shared_issue_once :
  fst (get_distinct_issues env_shared_issue "o" "https://api.snyk.io" ["p1"; "p2"] [])
  = Ok [SnykIssue.mk "SNYK-JS-LODASH-1" "Prototype Pollution in lodash" "high"
          "unknown" "p1" "web-app" "Unknown" "Unknown" "unknown"].
Proof. vm_compute. reflexivity. Qed.

(** ** Waivers across a list of projects *)

Lemma bulk_loop_app (step : string -> M StatusDict) (pre post : list string)
    (results : gmap string StatusDict) (h : History) :
  bulk_loop step (pre ++ post) results h
  = match bulk_loop step pre results h with
    | (Ok results1, h1) => bulk_loop step post results1 h1
    | (Raise e, h1) => (Raise e, h1)
    end.
Proof.
  revert results h. induction pre as [|p pre IH]; intros results h; [done|].
  simpl. rewrite !bind_unfold. destruct (step p h) as [[sd|e] h1]; [|done].
  apply IH.
Qed.

Lemma bulk_loop_total (step : string -> M StatusDict) (project_ids : list string)
    (results : gmap string StatusDict) (h : History) :
  (forall p h0, exists sd h1, step p h0 = (Ok sd, h1)) ->
  exists final h', bulk_loop step project_ids results h = (Ok final, h').
Proof.
  intros Hstep. revert results h.
  induction project_ids as [|p rest IH]; intros results h; simpl.
  - by eexists _, _.
  - rewrite bind_unfold. destruct (Hstep p h) as (sd & h1 & ->). apply IH.
Qed.

(** Projects further down the list leave the entry of [project_id] alone. *)
Lemma bulk_loop_lookup_other (step : string -> M StatusDict)
    (project_ids : list string) (project_id : string)
    (results final : gmap string StatusDict) (h h' : History) :
  project_id ∉ project_ids ->
  bulk_loop step project_ids results h = (Ok final, h') ->
  final !! project_id = results !! project_id.
Proof.
  revert results h. induction project_ids as [|p rest IH]; intros results h Hnotin; simpl.
  - by intros [= <- _].
  - rewrite bind_unfold. destruct (step p h) as [[sd|e] h1]; [|done].
    intros Hrun. rewrite (IH _ _ ltac:(set_solver) Hrun).
    apply lookup_insert_ne. set_solver.
Qed.

Section Bulk.

Variable env : Env.
Variable org_id : string.
Variable base_url : string.

#[local] Abbreviation fetch := (get_project_issues env org_id base_url).
#[local] Abbreviation smart_add := (smart_add_waiver env org_id base_url).
#[local] Abbreviation step := (project_result env org_id base_url).

Lemma appends_get_project_issues (project_id : string) :
  appends is_get (fetch project_id).
Proof.
  unfold get_project_issues, fetch_issues.
  apply appends_try_except; [|intros; apply appends_ret].
  apply appends_bind; [by apply appends_make_request|intros r1].
  unfold response_json, project_name_of, data_items.
  appends_auto; try by apply appends_make_request.
  unfold issue_of_resource, read_problems, resource_id.
  appends_auto.
Qed.

Lemma project_result_total
    (issue_reference description waiver_type : string) (days : Z)
    (skip_if_waived : bool) (project_id : string) (h : History) :
  exists sd h', step issue_reference description waiver_type days skip_if_waived
                     project_id h = (Ok sd, h').
Proof.
  unfold project_result, try_except.
  match goal with |- context [ let (_, _) := ?m h in _ ] => destruct (m h) as [[sd|e] h'] end;
    by eexists _, _.
Qed.

(** The result of one project, once its issues have been fetched. *)
Lemma project_result_by_title
    (issue_reference description waiver_type : string) (days : Z)
    (skip_if_waived : bool) (project_id : string) (h h2 : History)
    (issues : list SnykIssue.t) :
  startswith issue_reference "SNYK-" = false ->
  fetch project_id h = (Ok issues, h2) ->
  step issue_reference description waiver_type days skip_if_waived project_id h
  = match matching_issues env issue_reference issues with
    | [] =>
        (Ok (mkStatus "skipped_no_issue"
               ("No issues matching " +:+ quote_mark +:+ issue_reference +:+
                quote_mark +:+ " found in project")), h2)
    | [issue] =>
        try_except
          (smart_add (SnykIssue.id issue) project_id description waiver_type
                     days skip_if_waived)
          (fun e => ret (mkStatus "failed"
                           ("Error processing project: " +:+ exn_str e))) h2
    | _ :: _ :: _ =>
        (Ok (mkStatus "failed"
               ("Multiple issues matching " +:+ quote_mark +:+ issue_reference +:+
                quote_mark +:+ " found - be more specific")), h2)
    end.
Proof.
  intros Hprefix Hfetch. unfold project_result. rewrite Hprefix.
  unfold try_except at 1. rewrite bind_unfold, Hfetch.
  destruct (matching_issues env issue_reference issues) as [|issue [|issue' rest]];
    reflexivity.
Qed.

(** [matching_issues] keeps the issues whose title contains the reference,
    both in lower case. *)
Lemma matching_issues_selects (issue_reference : string) (issues : list SnykIssue.t) :
  selects (title_matches env issue_reference) issues
          (matching_issues env issue_reference issues).
Proof.
  unfold matching_issues. apply filter_selects. intros i. apply contains_spec.
Qed.

(** C7: for a reference that is resolved by title, the issues of a project
    that match are those whose title contains the reference when both are
    put in lower case. The entry the run leaves for a project is the one
    computed when the project was last visited: "skipped_no_issue" when no
    issue matches, "failed" when more than one does, and in both cases the
    visit sends nothing after the GET requests that fetched the issues;
    with exactly one match it is the result of [smart_add_waiver] on the id
    of the matching issue, or "failed" when that call raises, which only
    the overflow of the expiry date makes it do. *)
Theorem title_resolution
    (pre post : list string) (project_id : string)
    (issue_reference description waiver_type : string) (days : Z)
    (skip_if_waived : bool) (h h1 h2 : History)
    (results1 : gmap string StatusDict) (issues : list SnykIssue.t) :
  startswith issue_reference "SNYK-" = false ->
  project_id ∉ post ->
  bulk_loop (step issue_reference description waiver_type days skip_if_waived)
            pre ∅ h = (Ok results1, h1) ->
  fetch project_id h1 = (Ok issues, h2) ->
  exists matching sd h3 final h4,
    selects (title_matches env issue_reference) issues matching
    /\ step issue_reference description waiver_type days skip_if_waived project_id h1
       = (Ok sd, h3)
    /\ bulk_add_waivers_by_project_list env org_id base_url
         (pre ++ project_id :: post) issue_reference description waiver_type
         days skip_if_waived h = (Ok final, h4)
    /\ final !! project_id = Some sd
    /\ (exists evs, h2 = h1 ++ evs /\ Forall is_get (requests_of evs))
    /\ match matching with
       | [] => status sd = "skipped_no_issue" /\ h3 = h2
       | [issue] =>
           match smart_add (SnykIssue.id issue) project_id description waiver_type
                           days skip_if_waived h2 with
           | (Ok result, h') => sd = result /\ h3 = h'
           | (Raise e, h') =>
               status sd = "failed" /\ h3 = h' /\ expiry_overflow days e
           end
       | _ :: _ :: _ => status sd = "failed" /\ h3 = h2
       end.
Proof.
  intros Hprefix Hnotin Hpre Hfetch.
  destruct (project_result_total issue_reference description waiver_type days
              skip_if_waived project_id h1) as (sd & h3 & Hstep).
  destruct (bulk_loop_total
              (step issue_reference description waiver_type days skip_if_waived)
              post (<[project_id := sd]> results1) h3) as (final & h4 & Hpost).
  { intros p h0. apply project_result_total. }
  exists (matching_issues env issue_reference issues), sd, h3, final, h4.
  split; [apply matching_issues_selects|].
  split; [done|]. split; [|split; [|split]].
  - unfold bulk_add_waivers_by_project_list.
    rewrite bulk_loop_app, Hpre. simpl. by rewrite bind_unfold, Hstep.
  - rewrite (bulk_loop_lookup_other _ _ _ _ _ _ _ Hnotin Hpost).
    apply lookup_insert_eq.
  - exact (appends_run _ _ _ _ _ (appends_get_project_issues project_id) Hfetch).
  - rewrite (project_result_by_title _ _ _ _ _ _ _ _ _ Hprefix Hfetch) in Hstep.
    destruct (matching_issues env issue_reference issues) as [|issue [|issue' rest]].
    + by inversion Hstep.
    + unfold try_except in Hstep.
      destruct (smart_add_waiver_status_or_raise env org_id base_url
                  (SnykIssue.id issue) project_id description waiver_type days
                  skip_if_waived h2)
        as [(sd' & h' & Hrun & _)|(e & h0 & h' & Hrun & Hadd)];
        rewrite Hrun in Hstep |- *.
      * by inversion Hstep.
      * inversion Hstep; subst. split; [done|]. split; [done|].
        destruct (add_waiver_result env org_id base_url (SnykIssue.id issue)
                    project_id description waiver_type days h0)
          as [[b Hb]|(e' & He' & Hov)]; rewrite Hadd in *; simpl in *; [done|].
        by injection He' as ->.
    + by inversion Hstep.
Qed.

End Bulk.

Lemma title_resolution_witness :
  exists final h',
    bulk_add_waivers_by_project_list env_two_matches "o" "https://api.snyk.io"
      ["p1"] "PROTOTYPE pollution" "Upgrade planned" "temporary" 90 true []
    = (Ok final, h')
    /\ status <$> final !! "p1" = Some "failed"
    /\ h' = two_matches_history.
Proof.
  destruct (title_resolution env_two_matches "o" "https://api.snyk.io" [] [] "p1"
              "PROTOTYPE pollution" "Upgrade planned" "temporary" 90 true
              [] [] two_matches_history ∅ two_matches_issues)
    as (matching & sd & h3 & final & h4 & Hsel & Hstep & Hrun & Hlookup & _ & Hmatch).
  - reflexivity.
  - apply not_elem_of_nil.
  - reflexivity.
  - vm_compute. reflexivity.
  - assert (Hm : exists a b, matching = [a; b]).
    { rewrite (selects_unique _ _ _ _ Hsel
                 (matching_issues_selects env_two_matches "PROTOTYPE pollution"
                    two_matches_issues)).
      vm_compute. by eexists _, _. }
    destruct Hm as (a & b & Hm). rewrite Hm in Hmatch.
    destruct Hmatch as [Hstatus ->].
    exists final, h4. split; [exact Hrun|].
    rewrite Hlookup. simpl. split; [by rewrite Hstatus|].
    unfold bulk_add_waivers_by_project_list in Hrun.
    change ([] ++ ["p1"]) with ["p1"] in Hrun.
    change (bulk_loop ?f ["p1"] ?r) with (res ← f "p1"; bulk_loop f [] (<["p1" := res]> r))
      in Hrun.
    rewrite bind_unfold, Hstep in Hrun. by inversion Hrun.
Defined.

(** ** Activity of waivers *)

Section Activity.

Variable env : Env.
Variable org_id : string.
Variable base_url : string.

(** The computation of [is_active] reads the clock and nothing else; it
    answers [False] only for an expiry that parses. *)
Lemma compute_is_active_spec (attrs : gmap string string) (h : History) :
  exists b, compute_is_active env attrs h = (Ok b, h)
            /\ (expiry_unusable env attrs -> b = true)
            /\ (b = false ->
                exists s, attrs !! "expiry" = Some s /\ s <> EmptyString
                          /\ is_Some (fromisoformat env (replace_Z s))).
Proof.
  unfold compute_is_active, expiry_unusable.
  destruct (attrs !! "expiry") as [s|] eqn:Hs; simpl.
  - destruct (bool_decide_reflect (s = EmptyString)) as [->|Hne].
    + exists true. by repeat split.
    + destruct (fromisoformat env (replace_Z s)) as [t|] eqn:Hparse.
      * exists (clock env h <? t). split; [done|]. split.
        -- by intros [?|?].
        -- intros _. exists s. by repeat split.
      * exists true. by repeat split.
  - exists true. by repeat split.
Qed.


Lemma waiver_of_resource_spec (active_only : bool) (project_id project_name : string)
    (waiver_data : Resource) (h h' : History) (res : option SnykWaiver.t) :
  waiver_of_resource env org_id base_url active_only project_id project_name
                     waiver_data h = (Ok res, h') ->
  (expiry_unusable env (attributes_of waiver_data) ->
   exists w, res = Some w /\ SnykWaiver.is_active w = true)
  /\ (forall w, res = Some w ->
        (active_only = true -> SnykWaiver.is_active w = true)
        /\ (SnykWaiver.is_active w = false -> has_expiry env w)).
Proof.
  unfold waiver_of_resource, resource_id. rewrite bind_unfold.
  destruct (related_issue_id waiver_data h) as [[iid|?] h1]; [|done].
  rewrite bind_unfold.
  destruct (issue_details env org_id base_url iid h1) as [[details|?] h2]; [|done].
  rewrite bind_unfold.
  destruct (compute_is_active_spec (attributes_of waiver_data) h2)
    as (b & -> & Htrue & Hfalse).
  destruct b; simpl.
  - rewrite andb_false_r, bind_unfold.
    destruct (res_id waiver_data) as [wid|]; [|done].
    intros [= <- _]. split.
    + intros _. by eexists.
    + by intros w [= <-].
  - destruct active_only; simpl.
    + intros [= <- _]. split; [|done].
      intros Hun. by specialize (Htrue Hun).
    + rewrite bind_unfold. destruct (res_id waiver_data) as [wid|]; [|done].
      intros [= <- _]. split.
      * intros Hun. by specialize (Htrue Hun).
      * intros w [= <-]. simpl. split; [done|]. intros _.
        destruct (Hfalse eq_refl) as (expiry & -> & Hne & Hparse). by split.
Qed.

(** What the inner loop of [get_all_waivers] appends. *)
Lemma append_waivers_Forall (P : SnykWaiver.t -> Prop)
    (step : Resource -> M (option SnykWaiver.t)) (items : list Resource)
    (all_waivers : list SnykWaiver.t) (h : History) :
  (forall x h0 w h1, step x h0 = (Ok (Some w), h1) -> P w) ->
  Forall P all_waivers ->
  exists l stopped h',
    append_waivers step items all_waivers h = (Ok (l, stopped), h')
    /\ Forall P l.
Proof.
  intros Hstep. revert all_waivers h.
  induction items as [|x items IH]; intros all_waivers h Hall; simpl.
  - by eexists _, _, _.
  - destruct (step x h) as [[[w|]|e] h1] eqn:Hx.
    + apply IH. apply Forall_app. split; [done|].
      constructor; [by eapply Hstep | constructor].
    + by apply IH.
    + by eexists _, _, _.
Qed.

Lemma project_waivers_Forall (P : SnykWaiver.t -> Prop) (active_only : bool)
    (project_id : string) (all_waivers : list SnykWaiver.t) (h : History) :
  (forall pname x h0 w h1,
     waiver_of_resource env org_id base_url active_only project_id pname x h0
       = (Ok (Some w), h1) -> P w) ->
  Forall P all_waivers ->
  exists l h', project_waivers env org_id base_url active_only project_id
                               all_waivers h = (Ok l, h')
               /\ Forall P l.
Proof.
  intros Hstep Hall. unfold project_waivers, try_except.
  match goal with |- context [ (?m ≫= ?k) h ] => set (body := m ≫= k) end.
  destruct (body h) as [[l|e] h'] eqn:Hbody; [|by eexists _, _].
  exists l, h'. split; [done|].
  subst body. revert Hbody. rewrite bind_unfold.
  destruct (_make_request _ _ _ _ _ _ h) as [[r1|?] h1]; [|done].
  rewrite bind_unfold. destruct (response_json r1 h1) as [[d1|?] h2]; [|done].
  rewrite bind_unfold. destruct (project_name_of d1 h2) as [[pname|?] h3]; [|done].
  rewrite bind_unfold.
  destruct (_make_request _ _ _ _ _ _ h3) as [[r2|?] h4]; [|done].
  rewrite bind_unfold. destruct (response_json r2 h4) as [[d2|?] h5]; [|done].
  rewrite bind_unfold. destruct (data_items d2 h5) as [[items|?] h6]; [|done].
  rewrite bind_unfold.
  destruct (append_waivers_Forall P
              (waiver_of_resource env org_id base_url active_only project_id pname)
              items all_waivers h6 (Hstep pname) Hall)
    as (l' & stopped & h7 & -> & Hl').
  by intros [= <- _].
Qed.

Lemma all_waivers_loop_Forall (P : SnykWaiver.t -> Prop) (active_only : bool)
    (project_ids : list string) (all_waivers : list SnykWaiver.t) (h : History) :
  (forall pid pname x h0 w h1,
     waiver_of_resource env org_id base_url active_only pid pname x h0
       = (Ok (Some w), h1) -> P w) ->
  Forall P all_waivers ->
  exists l h', all_waivers_loop env org_id base_url active_only project_ids
                                all_waivers h = (Ok l, h')
               /\ Forall P l.
Proof.
  intros Hstep. revert all_waivers h.
  induction project_ids as [|p rest IH]; intros all_waivers h Hall; simpl.
  - by eexists _, _.
  - rewrite bind_unfold.
    destruct (project_waivers_Forall P active_only p all_waivers h (Hstep p) Hall)
      as (l & h1 & -> & Hl).
    by apply IH.
Qed.

(** [get_all_waivers] always returns; with [active_only] every waiver it
    returns is active, and a waiver it returns as inactive has an expiry
    that parses. *)
Lemma get_all_waivers_spec (project_ids : list string) (active_only : bool)
    (h : History) :
  exists l h', get_all_waivers env org_id base_url project_ids active_only h
               = (Ok l, h')
               /\ Forall (fun w =>
                    (active_only = true -> SnykWaiver.is_active w = true)
                    /\ (SnykWaiver.is_active w = false -> has_expiry env w)) l.
Proof.
  unfold get_all_waivers. apply all_waivers_loop_Forall; [|constructor].
  intros pid pname x h0 w h1 Hx.
  by apply (proj2 (waiver_of_resource_spec _ _ _ _ _ _ _ Hx)).
Qed.



End Activity.


(** ** Template store *)

Section Templates.

Variable default_templates : list WaiverTemplate.t.

Lemma default_names_spec (name : string) :
  name ∈ default_names default_templates
  <-> name ∈ WaiverTemplate.name <$> default_templates.
Proof. unfold default_names. apply elem_of_list_to_set. Qed.

Lemma index_of_name_Some (name : string) (ts : list WaiverTemplate.t) (i k : nat) :
  index_of_name name ts i = Some k ->
  exists t, ts !! (k - i)%nat = Some t /\ WaiverTemplate.name t = name /\ (i <= k)%nat.
Proof.
  revert i. induction ts as [|t ts IH]; intros i; simpl; [done|].
  destruct (bool_decide_reflect (WaiverTemplate.name t = name)) as [Heq|Hne].
  - intros [= <-]. exists t. rewrite Nat.sub_diag. by repeat split.
  - intros Hk. destruct (IH _ Hk) as (t' & Hlook & Hname & Hle).
    exists t'. split; [|split; [done|lia]].
    replace (k - i)%nat with (S (k - S i)) by lia. done.
Qed.

(** A built-in name is refused before the list is looked at. *)
Lemma remove_template_builtin (name : string) (now : Z) (m : Manager) (d : Disk) :
  name ∈ WaiverTemplate.name <$> default_templates ->
  remove_template default_templates name now m d = (Ok false, (m, d)).
Proof.
  intros Hin. apply default_names_spec in Hin. unfold remove_template.
  by rewrite (bool_decide_eq_true_2 _ Hin).
Qed.

(** C8: removing a built-in template is refused and changes neither the
    list of templates in memory nor the disk; a removal that returns [True]
    was given a name outside the built-in set that a template of the list
    had, and deleted the first such template. *)
Theorem remove_template_spec (name : string) (now : Z) (m : Manager) (d : Disk) :
  (name ∈ WaiverTemplate.name <$> default_templates ->
   remove_template default_templates name now m d = (Ok false, (m, d)))
  /\ (forall m' d',
        remove_template default_templates name now m d = (Ok true, (m', d')) ->
        (name ∉ (WaiverTemplate.name <$> default_templates))
        /\ exists i t,
             templates m !! i = Some t
             /\ WaiverTemplate.name t = name
             /\ templates m' = delete i (templates m)
             /\ templates_file m' = templates_file m).
Proof.
  split; [apply remove_template_builtin|].
  unfold remove_template. intros m' d'.
  destruct (bool_decide_reflect (name ∈ default_names default_templates))
    as [Hin|Hnotin]; [done|].
  destruct (index_of_name name (templates m) 0) as [i|] eqn:Hidx; [|done].
  destruct (save_custom_templates _ _ _ _) as [[[]|e] d1]; [|done].
  intros [= <- _]. split; [by rewrite <- default_names_spec|].
  destruct (index_of_name_Some _ _ _ _ Hidx) as (t & Hlook & Hname & _).
  rewrite Nat.sub_0_r in Hlook. by exists i, t.
Qed.

End Templates.

Lemma remove_template_spec_witness :
  remove_template _load_default_templates "upgrade_planned" 1700000100
                  pilot_manager pilot_disk
  = (Ok false, (pilot_manager, pilot_disk)).
Proof.
  apply (proj1 (remove_template_spec _load_default_templates "upgrade_planned"
                  1700000100 pilot_manager pilot_disk)).
  vm_compute. do 2 apply list_elem_of_further. apply list_elem_of_here.
Defined.

(** The nine built-in names of the first revision, and the ten of the
    second, are all refused. *)
Example builtin_names_refused :
  Forall (fun name =>
            remove_template _load_default_templates name 1700000100
                            pilot_manager pilot_disk
            = (Ok false, (pilot_manager, pilot_disk)))
         (WaiverTemplate.name <$> _load_default_templates)
  /\ Forall (fun name =>
               remove_template _load_default_templates_rev2 name 1700000100
                               pilot_manager pilot_disk
               = (Ok false, (pilot_manager, pilot_disk)))
            (WaiverTemplate.name <$> _load_default_templates_rev2).
Proof.
  split; apply Forall_forall; intros name Hin;
    by apply remove_template_builtin.
Qed.

(** A custom template is removed, and the file rewritten without it. *)
Example custom_template_removed :
  remove_template _load_default_templates "pilot_exception" 1700000100
                  pilot_manager pilot_disk
  = (Ok true,
     (mkManager "waiver_templates.json" _load_default_templates,
      mkDisk {[ "waiver_templates.json" := mkTemplatesFile [] 1700000100 ]} ∅)).
Proof. vm_compute. reflexivity. Qed.

(** ** More on the request executor *)

Section ExecutorMore.

Variable env : Env.
Variable req : Request.

(** One pass of the loop, by what the server answers. *)
Lemma attempt_loop_step (attempt : nat) (rest : list nat) (h : History) :
  attempt_loop env req (attempt :: rest) h
  = match server env h req with
    | Responded r =>
        if status_code r =? 429 then
          match retry_after r with
          | HeaderAbsent =>
              attempt_loop env req rest (h ++ [Requested req; Slept 60])
          | HeaderInt n =>
              match sleep_error env n with
              | Some e => (Raise e, h ++ [Requested req])
              | None => attempt_loop env req rest (h ++ [Requested req; Slept n])
              end
          | HeaderMalformed => (Raise ValueError, h ++ [Requested req])
          end
        else if (400 <=? status_code r) && (status_code r <? 600) then
          if (attempt =? max_retries - 1)%nat
          then (Raise (HTTPError (status_code r)), h ++ [Requested req])
          else
            match sleep_error env (backoff_factor * 2 ^ Z.of_nat attempt) with
            | Some e => (Raise e, h ++ [Requested req])
            | None =>
                attempt_loop env req rest
                  (h ++ [Requested req; Slept (backoff_factor * 2 ^ Z.of_nat attempt)])
            end
        else (Ok r, h ++ [Requested req])
    | Failed =>
        if (attempt =? max_retries - 1)%nat
        then (Raise ConnectionError, h ++ [Requested req])
        else
          match sleep_error env (backoff_factor * 2 ^ Z.of_nat attempt) with
          | Some e => (Raise e, h ++ [Requested req])
          | None =>
              attempt_loop env req rest
                (h ++ [Requested req; Slept (backoff_factor * 2 ^ Z.of_nat attempt)])
          end
    end.
Proof.
  simpl.
  unfold on_request_exception, attempt_body, session_request, int_retry_after,
    time_sleep, raise_for_status.
  monad_unfold.
  destruct (server env h req) as [r|]; simpl.
  - destruct (status_code r =? 429); simpl.
    + destruct (retry_after r) as [|n|]; simpl; [| | done].
      * rewrite (sleep_error_small env 60) by lia. simpl. by rewrite <- app_assoc.
      * destruct (sleep_error env n) as [e|] eqn:Hn; simpl;
          [|by rewrite <- app_assoc].
        by rewrite (sleep_error_not_request env n e Hn).
    + destruct ((400 <=? status_code r) && (status_code r <? 600)); simpl; [|done].
      destruct (attempt =? 2)%nat; simpl; [done|].
      destruct (sleep_error env _); simpl; [done | by rewrite <- app_assoc].
  - destruct (attempt =? 2)%nat; simpl; [done|].
    destruct (sleep_error env _); simpl; [done | by rewrite <- app_assoc].
Qed.

(** A response the loop returns answers the last request it sent and passed
    [raise_for_status]. *)
Lemma attempt_loop_returns (attempts : list nat) (h h' : History) (r : Response) :
  attempt_loop env req attempts h = (Ok r, h') ->
  passes_status (status_code r)
  /\ exists evs, h' = h ++ evs ++ [Requested req]
                 /\ server env (h ++ evs) req = Responded r.
Proof.
  revert h. induction attempts as [|attempt rest IH]; intros h; [done|].
  assert (Hlater : forall evs0,
    attempt_loop env req rest (h ++ evs0) = (Ok r, h') ->
    passes_status (status_code r)
    /\ exists evs, h' = h ++ evs ++ [Requested req]
                   /\ server env (h ++ evs) req = Responded r).
  { intros evs0 Hrun. destruct (IH _ Hrun) as (Hst & evs & -> & Hsrv).
    split; [done|]. exists (evs0 ++ evs). by rewrite <- !app_assoc in *. }
  rewrite attempt_loop_step.
  destruct (server env h req) as [r0|] eqn:Hsrv.
  - destruct (Z.eqb_spec (status_code r0) 429) as [H429|H429].
    + destruct (retry_after r0) as [|n|]; [apply Hlater | | done].
      destruct (sleep_error env n); [done | apply Hlater].
    + destruct ((400 <=? status_code r0) && (status_code r0 <? 600)) eqn:Herr.
      * destruct (attempt =? max_retries - 1)%nat; [done|].
        destruct (sleep_error env _); [done | apply Hlater].
      * intros [= <- <-]. split.
        -- unfold passes_status. intros [? ?].
           apply andb_false_iff in Herr as [Herr|Herr]; lia.
        -- exists []. by rewrite app_nil_r.
  - destruct (attempt =? max_retries - 1)%nat; [done|].
    destruct (sleep_error env _); [done | apply Hlater].
Qed.

(** X1: a response [_make_request] returns is the answer to the last
    request it sent, its status is neither 429 nor a 4xx or 5xx, and the
    call sent at most three requests. *)
Theorem returned_response_is_good (h h' : History) (r : Response) :
  make_request_of env req h = (Ok r, h') ->
  passes_status (status_code r)
  /\ status_code r <> 429
  /\ exists evs, h' = h ++ evs ++ [Requested req]
                 /\ server env (h ++ evs) req = Responded r
                 /\ (length (requests_of evs) <= 2)%nat.
Proof.
  intros Hrun. pose proof Hrun as Hrun'. unfold make_request_of in Hrun'.
  destruct (attempt_loop_returns _ _ _ _ Hrun') as (Hpass & evs & -> & Hsrv).
  split; [done|]. split; [unfold passes_status in Hpass; lia|].
  exists evs. split; [done|]. split; [done|].
  destruct (attempt_loop_history env req (seq 0 max_retries) h)
    as (evs' & Hh & _ & Hlen).
  rewrite Hrun' in Hh. simpl in Hh. apply app_inv_head in Hh. subst evs'.
  rewrite requests_of_app, length_app in Hlen. simpl in Hlen. lia.
Qed.


(** X3: against a server that never rate-limits, a call sleeps 1 second
    after a first failure and 2 seconds after a second and never otherwise,
    and sends one more request than it sleeps: at most 3 requests and 3
    seconds of waiting. *)
Theorem backoff_is_bounded (h : History) :
  never_answers env req 429 ->
  exists evs, snd (make_request_of env req h) = h ++ evs
              /\ (sleeps_of evs = [] \/ sleeps_of evs = [1] \/ sleeps_of evs = [1; 2])
              /\ length (requests_of evs) = S (length (sleeps_of evs)).
Proof.
  intros Hno. unfold make_request_of. change (seq 0 max_retries) with [0; 1; 2]%nat.
  assert (Hstep : forall attempt rest h0,
    (attempt <= max_retries - 1)%nat ->
    attempt_loop env req (attempt :: rest) h0
    = match failure_of (server env h0 req) with
      | Some e =>
          if (attempt =? max_retries - 1)%nat then (Raise e, h0 ++ [Requested req])
          else attempt_loop env req rest
                 (h0 ++ [Requested req; Slept (backoff_factor * 2 ^ Z.of_nat attempt)])
      | None =>
          match server env h0 req with
          | Responded r => (Ok r, h0 ++ [Requested req])
          | Failed => (Raise ConnectionError, h0 ++ [Requested req])
          end
      end).
  { intros attempt rest h0 Hle. rewrite attempt_loop_step. unfold failure_of.
    assert (Hback : (attempt =? max_retries - 1)%nat = false ->
                    sleep_error env (backoff_factor * 2 ^ Z.of_nat attempt) = None).
    { intros Hne. apply backoff_accepted. apply Nat.eqb_neq in Hne. lia. }
    destruct (server env h0 req) as [r|] eqn:Hsrv.
    - destruct (Z.eqb_spec (status_code r) 429) as [H429|_];
        [by destruct (Hno _ _ Hsrv)|].
      destruct ((400 <=? status_code r) && (status_code r <? 600)); [|done].
      destruct (attempt =? max_retries - 1)%nat eqn:Hlast; [done|].
      by rewrite Hback.
    - destruct (attempt =? max_retries - 1)%nat eqn:Hlast; [done|].
      by rewrite Hback. }
  assert (Hone : forall (res : Res Response) h0,
    exists evs, snd (res, h0 ++ [Requested req]) = h0 ++ evs
                /\ sleeps_of evs = [] /\ length (requests_of evs) = 1%nat).
  { intros res h0. by exists [Requested req]. }
  rewrite Hstep by (unfold max_retries; lia).
  destruct (failure_of (server env h req)) as [e1|].
  - cbn [Nat.eqb max_retries Nat.sub]. rewrite Hstep by (unfold max_retries; lia).
    change (backoff_factor * 2 ^ Z.of_nat 0) with 1.
    destruct (failure_of (server env (h ++ [Requested req; Slept 1]) req)) as [e2|].
    + cbn [Nat.eqb max_retries Nat.sub]. rewrite Hstep by (unfold max_retries; lia).
      change (backoff_factor * 2 ^ Z.of_nat 1) with 2.
      rewrite <- app_assoc. cbn [app].
      exists [Requested req; Slept 1; Requested req; Slept 2; Requested req].
      split; [|by auto].
      destruct (failure_of _) as [e3|]; cbn; [by rewrite <- app_assoc|].
      destruct (server env _ req); by rewrite <- app_assoc.
    + exists [Requested req; Slept 1; Requested req]. split; [|by auto].
      destruct (server env _ req); by rewrite <- app_assoc.
  - exists [Requested req]. split; [|by auto]. by destruct (server env h req).
Qed.

(** X4: as long as the server never answers 401, the executor of the
    debugging client behaves exactly like the one of snyk_utility.py. *)
Theorem debug_executor_agrees (attempts : list nat) (h : History) :
  never_answers env req 401 ->
  debug_attempt_loop env req attempts h = attempt_loop env req attempts h.
Proof.
  intros Hno. revert h. induction attempts as [|attempt rest IH]; intros h; [done|].
  rewrite attempt_loop_step. simpl.
  unfold debug_attempt_body, session_request, int_retry_after, time_sleep,
    raise_for_status.
  monad_unfold.
  assert (Hraise : forall n e (h0 : History),
    sleep_error env n = Some e ->
    debug_on_exception env attempt e h0 = (Raise e, h0)).
  { intros n e h0 Hn. pose proof (sleep_error_not_request env n e Hn).
    by destruct e. }
  destruct (server env h req) as [r|] eqn:Hsrv; simpl.
  - destruct (Z.eqb_spec (status_code r) 401) as [H401|_]; [by destruct (Hno _ _ Hsrv)|].
    simpl. destruct (status_code r =? 429); simpl.
    + destruct (retry_after r) as [|n|]; simpl; [| | done].
      * rewrite (sleep_error_small env 60) by lia. simpl.
        rewrite <- app_assoc. apply IH.
      * destruct (sleep_error env n) as [e|] eqn:Hn; simpl;
          [|rewrite <- app_assoc; apply IH].
        by rewrite (Hraise n e _ Hn).
    + destruct ((400 <=? status_code r) && (status_code r <? 600)); simpl; [|done].
      destruct (Z.eqb_spec (status_code r) 401) as [H401|_];
        [by destruct (Hno _ _ Hsrv)|].
      destruct (attempt =? 2)%nat; simpl; [done|].
      unfold time_sleep. destruct (sleep_error env _); simpl; [done|].
      rewrite <- app_assoc. apply IH.
  - destruct (attempt =? 2)%nat; simpl; [done|].
    unfold time_sleep. destruct (sleep_error env _); simpl; [done|].
    rewrite <- app_assoc. apply IH.
Qed.

End ExecutorMore.

Lemma returned_response_is_good_witness :
  make_request_of env_flaky probe_request []
  = (Ok (plain 200), [Requested probe_request; Slept 1; Requested probe_request])
  /\ passes_status (status_code (plain 200)).
Proof.
  assert (Hrun : make_request_of env_flaky probe_request []
                 = (Ok (plain 200),
                    [Requested probe_request; Slept 1; Requested probe_request]))
    by (vm_compute; reflexivity).
  split; [exact Hrun|].
  exact (proj1 (returned_response_is_good env_flaky probe_request [] _ _ Hrun)).
Defined.


Lemma backoff_is_bounded_witness :
  exists evs,
    snd (make_request_of env_server_error probe_request []) = evs
    /\ (sleeps_of evs = [] \/ sleeps_of evs = [1] \/ sleeps_of evs = [1; 2])
    /\ length (requests_of evs) = S (length (sleeps_of evs)).
Proof.
  apply (backoff_is_bounded env_server_error probe_request []).
  intros h r. unfold env_server_error, scripted_env, scripted. simpl.
  intros [= <-]. simpl. lia.
Defined.

Lemma debug_executor_agrees_witness :
  debug_attempt_loop env_server_error probe_request [0; 1; 2]%nat []
  = attempt_loop env_server_error probe_request [0; 1; 2]%nat [].
Proof.
  apply (debug_executor_agrees env_server_error probe_request [0; 1; 2]%nat []).
  intros h r. unfold env_server_error, scripted_env, scripted. simpl.
  intros [= <-]. simpl. lia.
Defined.

(** ** Counting the requests of an operation *)

Lemma sends_ret {A} (P : Request -> Prop) (n : nat) (a : A) : sends P n (ret a).
Proof.
  intros h. exists []. simpl. rewrite app_nil_r.
  split; [done|]. split; [constructor | lia].
Qed.

Lemma sends_raise {A} (P : Request -> Prop) (n : nat) (e : Exn) :
  sends P n (@raise A e).
Proof.
  intros h. exists []. simpl. rewrite app_nil_r.
  split; [done|]. split; [constructor | lia].
Qed.

Lemma sends_weaken {A} (P : Request -> Prop) (n n' : nat) (m : M A) :
  (n <= n')%nat -> sends P n m -> sends P n' m.
Proof.
  intros Hle Hm h. destruct (Hm h) as (evs & H & HP & Hlen).
  exists evs. split; [done|]. split; [done | lia].
Qed.

Lemma sends_bind {A B} (P : Request -> Prop) (n1 n2 : nat) (m : M A) (k : A -> M B) :
  sends P n1 m -> (forall a, sends P n2 (k a)) -> sends P (n1 + n2) (m ≫= k).
Proof.
  intros Hm Hk h. rewrite bind_unfold.
  destruct (Hm h) as (evs1 & H1 & HP1 & Hlen1).
  destruct (m h) as [[a|e] h1]; simpl in H1; subst h1.
  - destruct (Hk a (h ++ evs1)) as (evs2 & H2 & HP2 & Hlen2).
    exists (evs1 ++ evs2). rewrite H2, app_assoc. split; [done|].
    rewrite requests_of_app, length_app. split; [by apply Forall_app | lia].
  - exists evs1. split; [done|]. split; [done | lia].
Qed.

Lemma sends_try_except {A} (P : Request -> Prop) (n1 n2 : nat) (m : M A)
    (handler : Exn -> M A) :
  sends P n1 m -> (forall e, sends P n2 (handler e)) ->
  sends P (n1 + n2) (try_except m handler).
Proof.
  intros Hm Hk h. unfold try_except.
  destruct (Hm h) as (evs1 & H1 & HP1 & Hlen1).
  destruct (m h) as [[a|e] h1]; simpl in H1; subst h1.
  - exists evs1. split; [done|]. split; [done | lia].
  - destruct (Hk e (h ++ evs1)) as (evs2 & H2 & HP2 & Hlen2).
    exists (evs1 ++ evs2). rewrite H2, app_assoc. split; [done|].
    rewrite requests_of_app, length_app. split; [by apply Forall_app | lia].
Qed.

(** A step that sends nothing does not count. *)
Lemma sends_bind_pure {A B} (P : Request -> Prop) (n : nat) (m : M A) (k : A -> M B) :
  sends P 0 m -> (forall a, sends P n (k a)) -> sends P n (m ≫= k).
Proof. intros Hm Hk. by apply (sends_bind P 0 n). Qed.

Lemma sends_bind_last {A B} (P : Request -> Prop) (n : nat) (m : M A) (k : A -> M B) :
  sends P n m -> (forall a, sends P 0 (k a)) -> sends P n (m ≫= k).
Proof.
  intros Hm Hk. apply (sends_weaken P (n + 0)); [lia|]. by apply sends_bind.
Qed.

Lemma sends_try_ret {A} (P : Request -> Prop) (n : nat) (m : M A) (a : A) :
  sends P n m -> sends P n (try_except m (fun _ => ret a)).
Proof.
  intros Hm. apply (sends_weaken P (n + 0)); [lia|].
  apply sends_try_except; [done|]. intros e. apply sends_ret.
Qed.

Lemma sends_for_append {A B} (P : Request -> Prop) (f : A -> M B)
    (xs : list A) (acc : list B) :
  (forall x, sends P 0 (f x)) -> sends P 0 (for_append f xs acc).
Proof.
  intros Hf. revert acc. induction xs as [|x xs IH]; intros acc; simpl.
  - apply sends_ret.
  - apply sends_bind_pure; [apply Hf | intros y; apply IH].
Qed.

Lemma sends_run {A} (P : Request -> Prop) (n : nat) (m : M A) (h h' : History)
    (res : Res A) :
  sends P n m -> m h = (res, h') ->
  exists evs, h' = h ++ evs /\ Forall P (requests_of evs)
              /\ (length (requests_of evs) <= n)%nat.
Proof. intros Hm Hrun. destruct (Hm h) as (evs & H & HP). rewrite Hrun in H. eauto. Qed.

(** Operations that send nothing, piece by piece. *)
Ltac sends_pure :=
  repeat (cbv zeta;
    lazymatch goal with
    | |- sends _ _ (ret _) => apply sends_ret
    | |- sends _ _ (raise _) => apply sends_raise
    | |- sends _ 0 (mbind _ _) => apply sends_bind_pure
    | |- sends _ 0 (try_except _ _) => apply (sends_try_except _ 0 0)
    | |- sends _ 0 (for_append _ _ _) => apply sends_for_append
    | |- sends _ _ (match ?x with _ => _ end) => destruct x
    | |- sends _ _ (if ?x then _ else _) => destruct x
    | |- sends _ _ _ => fail
    | |- forall _, _ => intros ?
    end).

Section Counting.

Variable env : Env.
Variable org_id : string.
Variable base_url : string.

Lemma sends_make_request_of (P : Request -> Prop) (req : Request) :
  P req -> sends P 3 (make_request_of env req).
Proof.
  intros HP h. unfold make_request_of.
  destruct (attempt_loop_history env req (seq 0 max_retries) h) as (evs & H & Hev & Hlen).
  exists evs. split; [done|]. split; [|done].
  eapply Forall_impl; [exact (requests_of_executor_events req evs Hev)|].
  by intros ? <-.
Qed.

Lemma sends_make_request (P : Request -> Prop) (method endpoint : string)
    (params : list (string * string)) (json : option WaiverData) :
  P (mkRequest method (base_url +:+ endpoint) params json) ->
  sends P 3 (_make_request env base_url method endpoint params json).
Proof. apply sends_make_request_of. Qed.

Lemma sends_get_clock (P : Request -> Prop) (n : nat) : sends P n (get_clock env).
Proof.
  intros h. exists []. simpl. rewrite app_nil_r.
  split; [done|]. split; [constructor | lia].
Qed.

Lemma sends_compute_is_active (P : Request -> Prop) (attrs : gmap string string) :
  sends P 0 (compute_is_active env attrs).
Proof.
  unfold compute_is_active. sends_pure. apply sends_get_clock.
Qed.

(** The two requests of a fetch of issues. *)
Lemma sends_fetch_issues (P : Request -> Prop)
    (build : string -> string -> Resource -> M SnykIssue.t) (project_id : string) :
  (forall pname r, sends P 0 (build project_id pname r)) ->
  P (mkRequest "GET"
       (base_url +:+ ("/rest/orgs/" +:+ org_id +:+ "/projects/" +:+ project_id))
       [] None) ->
  P (mkRequest "GET" (base_url +:+ ("/rest/orgs/" +:+ org_id +:+ "/issues"))
       [("project_id", project_id); ("limit", "1000")] None) ->
  sends P 6 (fetch_issues env org_id base_url build project_id).
Proof.
  intros Hbuild HP1 HP2. unfold fetch_issues. apply sends_try_ret.
  apply (sends_bind P 3 3); [by apply sends_make_request|]. intros r1.
  apply sends_bind_pure; [unfold response_json; sends_pure|]. intros d1.
  apply sends_bind_pure; [unfold project_name_of; sends_pure|]. intros pname.
  apply sends_bind_last; [by apply sends_make_request|]. intros r2.
  apply sends_bind_pure; [unfold response_json; sends_pure|]. intros d2.
  apply sends_bind_pure; [unfold data_items; sends_pure|]. intros items.
  apply sends_for_append. intros x. apply Hbuild.
Qed.

Lemma sends_issue_of_resource (P : Request -> Prop) (project_id pname : string)
    (r : Resource) :
  sends P 0 (issue_of_resource project_id pname r).
Proof. unfold issue_of_resource, read_problems, resource_id. sends_pure. Qed.

End Counting.

(** ** More on fetching issues *)

(** A loop whose steps all succeed without touching the history maps the
    list. *)
Lemma for_append_map {A B} (f : A -> M B) (g : A -> B) (xs : list A)
    (acc : list B) (h : History) :
  Forall (fun x => f x h = (Ok (g x), h)) xs ->
  for_append f xs acc h = (Ok (acc ++ (g <$> xs)), h).
Proof.
  revert acc. induction xs as [|x xs IH]; intros acc Hall; simpl.
  - by rewrite app_nil_r.
  - apply Forall_cons in Hall as [Hx Hxs]. rewrite bind_unfold, Hx, (IH _ Hxs).
    by rewrite <- app_assoc.
Qed.

(** A loop with a step that raises, raises; the history stays as it was
    when no step touches it. *)
Lemma for_append_raises {A B} (f : A -> M B) (xs : list A) (acc : list B)
    (h : History) :
  Forall (fun x => snd (f x h) = h) xs ->
  Exists (fun x => exists e, fst (f x h) = Raise e) xs ->
  exists e, for_append f xs acc h = (Raise e, h).
Proof.
  revert acc. induction xs as [|x xs IH]; intros acc Hpure Hex; simpl.
  - by inversion Hex.
  - apply Forall_cons in Hpure as [Hx Hxs]. rewrite bind_unfold.
    destruct (f x h) as [[y|e] h1] eqn:Hfx; simpl in Hx; subst h1.
    + apply IH; [done|]. apply Exists_cons in Hex as [(e & He)|Hex]; [|done].
      by rewrite Hfx in He.
    + by exists e.
Qed.

Section FetchMore.

Variable env : Env.
Variable org_id : string.
Variable base_url : string.

#[local] Abbreviation fetch := (get_project_issues env org_id base_url).
#[local] Abbreviation project_endpoint project_id :=
  ("/rest/orgs/" +:+ org_id +:+ "/projects/" +:+ project_id).
#[local] Abbreviation issues_endpoint := ("/rest/orgs/" +:+ org_id +:+ "/issues").

Lemma read_problems_pure (r : Resource) (h : History) :
  snd (read_problems r h) = h.
Proof. unfold read_problems. by repeat case_match. Qed.

Lemma issue_of_resource_pure (project_id pname : string) (r : Resource) (h : History) :
  snd (issue_of_resource project_id pname r h) = h.
Proof.
  unfold issue_of_resource, resource_id. cbv zeta. rewrite bind_unfold.
  pose proof (read_problems_pure r h) as Hp.
  destruct (read_problems r h) as [[[]|e] h1]; simpl in Hp; subst h1; [|done].
  rewrite bind_unfold. by destruct (res_id r).
Qed.

Lemma issue_of_resource_decodable (project_id pname : string) (r : Resource)
    (h : History) :
  decodable_issue r ->
  issue_of_resource project_id pname r h = (Ok (issue_from project_id pname r), h).
Proof.
  intros [[i Hid] Hproblems]. unfold issue_of_resource, resource_id, issue_from.
  cbv zeta. rewrite bind_unfold, Hproblems, bind_unfold, Hid. reflexivity.
Qed.

Lemma issue_of_resource_no_id (project_id pname : string) (r : Resource) (h : History) :
  res_id r = None ->
  exists e, fst (issue_of_resource project_id pname r h) = Raise e.
Proof.
  intros Hid. unfold issue_of_resource, resource_id. cbv zeta.
  rewrite bind_unfold. destruct (read_problems r h) as [[[]|e] h1]; [|by exists e].
  rewrite bind_unfold, Hid. by exists KeyError.
Qed.

(** What [fetch_issues] returns, once both requests were answered. *)
Lemma fetch_issues_answered
    (build : string -> string -> Resource -> M SnykIssue.t) (project_id pname : string)
    (h h1 h2 : History) (r1 r2 : Response) (d1 d2 : Document) (items : list Resource) :
  _make_request env base_url "GET" (project_endpoint project_id) [] None h
    = (Ok r1, h1) ->
  json_body r1 = Some d1 ->
  project_name_of d1 h1 = (Ok pname, h1) ->
  _make_request env base_url "GET" issues_endpoint
                [("project_id", project_id); ("limit", "1000")] None h1
    = (Ok r2, h2) ->
  json_body r2 = Some d2 ->
  data_items d2 h2 = (Ok items, h2) ->
  fetch_issues env org_id base_url build project_id h
  = match for_append (build project_id pname) items [] h2 with
    | (Ok l, h') => (Ok l, h')
    | (Raise _, h') => (Ok [], h')
    end.
Proof.
  intros H1 Hd1 Hname H2 Hd2 Hitems. unfold fetch_issues, try_except, response_json.
  rewrite bind_unfold, H1, bind_unfold, Hd1. cbn [ret].
  rewrite bind_unfold, Hname, bind_unfold, H2, bind_unfold, Hd2. cbn [ret].
  rewrite bind_unfold, Hitems.
  by destruct (for_append _ _ _ _) as [[l|e] h'].
Qed.

(** X5: [get_project_issues] never raises; it sends at most 6 requests, all
    of them GETs; and every issue it returns belongs to the project asked
    for. *)
Theorem get_project_issues_read_only (project_id : string) (h : History) :
  exists l evs,
    fetch project_id h = (Ok l, h ++ evs)
    /\ Forall is_get (requests_of evs)
    /\ (length (requests_of evs) <= 6)%nat
    /\ Forall (fun i => SnykIssue.project_id i = project_id) l.
Proof.
  destruct (get_project_issues_total env org_id base_url project_id h)
    as (l & h' & Hrun).
  assert (Hsends : sends is_get 6 (fetch project_id)).
  { unfold get_project_issues.
    apply sends_fetch_issues; [|reflexivity|reflexivity].
    intros pname r. apply sends_issue_of_resource. }
  destruct (sends_run _ _ _ _ _ _ Hsends Hrun) as (evs & -> & Hget & Hlen).
  exists l, evs. split; [done|]. split; [done|]. split; [done|].
  revert Hrun. unfold get_project_issues, fetch_issues, try_except.
  match goal with |- context [ (?m ≫= ?k) h ] => set (body := m ≫= k) end.
  destruct (body h) as [[l0|e] h0] eqn:Hbody; [|by intros [= <- _]].
  intros [= <- _]. subst body. revert Hbody. rewrite bind_unfold.
  destruct (_make_request _ _ _ _ _ _ h) as [[r1|?] h1]; [|done].
  rewrite bind_unfold. destruct (response_json r1 h1) as [[d1|?] h2]; [|done].
  rewrite bind_unfold. destruct (project_name_of d1 h2) as [[pname|?] h3]; [|done].
  rewrite bind_unfold.
  destruct (_make_request _ _ _ _ _ _ h3) as [[r2|?] h4]; [|done].
  rewrite bind_unfold. destruct (response_json r2 h4) as [[d2|?] h5]; [|done].
  rewrite bind_unfold. destruct (data_items d2 h5) as [[items|?] h6]; [|done].
  intros Hloop. eapply for_append_Forall; [|constructor|exact Hloop].
  intros x h7 y h8. unfold issue_of_resource, resource_id. rewrite bind_unfold.
  destruct (read_problems x h7) as [[[]|?] ?]; [|done].
  rewrite bind_unfold. destruct (res_id x); [|done]. by intros [= <- _].
Qed.

(** X6: when both requests are answered and every issue of the answer can
    be decoded, [get_project_issues] returns one issue per resource, in the
    order of the answer, with the defaults for the attributes that are
    missing. *)
Theorem get_project_issues_decodes (project_id pname : string)
    (h h1 h2 : History) (r1 r2 : Response) (d1 d2 : Document) (items : list Resource) :
  _make_request env base_url "GET" (project_endpoint project_id) [] None h
    = (Ok r1, h1) ->
  json_body r1 = Some d1 ->
  project_name_of d1 h1 = (Ok pname, h1) ->
  _make_request env base_url "GET" issues_endpoint
                [("project_id", project_id); ("limit", "1000")] None h1
    = (Ok r2, h2) ->
  json_body r2 = Some d2 ->
  data_items d2 h2 = (Ok items, h2) ->
  Forall decodable_issue items ->
  fetch project_id h = (Ok (issue_from project_id pname <$> items), h2).
Proof.
  intros H1 Hd1 Hname H2 Hd2 Hitems Hall. unfold get_project_issues.
  rewrite (fetch_issues_answered _ _ _ _ _ _ _ _ _ _ _ H1 Hd1 Hname H2 Hd2 Hitems).
  rewrite (for_append_map _ (issue_from project_id pname)); [done|].
  eapply Forall_impl; [exact Hall|]. intros r Hr.
  by apply issue_of_resource_decodable.
Qed.

(** X7: one resource without an id spoils the whole answer: the fetch
    returns the empty list, also for the issues that could be decoded. *)
Theorem get_project_issues_all_or_nothing (project_id pname : string)
    (h h1 h2 : History) (r1 r2 : Response) (d1 d2 : Document) (items : list Resource) :
  _make_request env base_url "GET" (project_endpoint project_id) [] None h
    = (Ok r1, h1) ->
  json_body r1 = Some d1 ->
  project_name_of d1 h1 = (Ok pname, h1) ->
  _make_request env base_url "GET" issues_endpoint
                [("project_id", project_id); ("limit", "1000")] None h1
    = (Ok r2, h2) ->
  json_body r2 = Some d2 ->
  data_items d2 h2 = (Ok items, h2) ->
  Exists (fun r => res_id r = None) items ->
  fetch project_id h = (Ok [], h2).
Proof.
  intros H1 Hd1 Hname H2 Hd2 Hitems Hex. unfold get_project_issues.
  rewrite (fetch_issues_answered _ _ _ _ _ _ _ _ _ _ _ H1 Hd1 Hname H2 Hd2 Hitems).
  destruct (for_append_raises (issue_of_resource project_id pname) items [] h2)
    as (e & ->); [| |done].
  - apply Forall_forall. intros r _. apply issue_of_resource_pure.
  - eapply Exists_impl; [exact Hex|]. intros r Hr.
    by apply issue_of_resource_no_id.
Qed.

End FetchMore.

Lemma get_project_issues_decodes_witness :
  get_project_issues env_two_matches "o" "https://api.snyk.io" "p1" []
  = (Ok (issue_from "p1" "web-app" <$> two_matches_items),
     [Requested project_request; Requested issues_request]).
Proof.
  apply (get_project_issues_decodes env_two_matches "o" "https://api.snyk.io"
           "p1" "web-app" [] [Requested project_request]
           [Requested project_request; Requested issues_request]
           (ok_with web_app_document)
           (ok_with (mkDocument (Some (DataMany two_matches_items))))
           web_app_document (mkDocument (Some (DataMany two_matches_items)))
           two_matches_items); try (vm_compute; reflexivity).
  repeat constructor; by eexists.
Defined.

Lemma get_project_issues_all_or_nothing_witness :
  get_project_issues env_missing_id "o" "https://api.snyk.io" "p1" []
  = (Ok [], [Requested project_request; Requested issues_request]).
Proof.
  apply (get_project_issues_all_or_nothing env_missing_id "o" "https://api.snyk.io"
           "p1" "web-app" [] [Requested project_request]
           [Requested project_request; Requested issues_request]
           (ok_with web_app_document)
           (ok_with (mkDocument (Some (DataMany items_missing_id))))
           web_app_document (mkDocument (Some (DataMany items_missing_id)))
           items_missing_id); try (vm_compute; reflexivity).
  apply Exists_cons_tl, Exists_cons_hd. reflexivity.
Defined.

(** ** More on the set of distinct issues *)

Lemma set_update_present (xs : list SnykIssue.t) (s : IssueSet) :
  Forall (fun x => set_mem x s = true) xs -> set_update s xs = s.
Proof.
  unfold set_update. induction xs as [|x xs IH]; intros Hall; [done|].
  apply Forall_cons in Hall as [Hx Hxs]. simpl.
  unfold set_add at 2. rewrite Hx. by apply IH.
Qed.

(** X8: updating the set with a list it was already updated with changes
    nothing, members and order included; a project fetched twice with the
    same answer cannot change the distinct issues. *)
Theorem set_update_idempotent (ls : list (list SnykIssue.t)) (s : IssueSet)
    (xs : list SnykIssue.t) :
  xs ∈ ls ->
  set_update (foldl set_update s ls) xs = foldl set_update s ls.
Proof.
  intros Hin. apply set_update_present. apply Forall_forall. intros x Hx.
  apply union_mem. right. exists xs, x. repeat split; [done|done|].
  by apply issue_eqb_hash_key.
Qed.

Lemma set_update_idempotent_witness :
  set_update (foldl set_update [] [[lodash_issue "p1" "4.17.20"];
                                   [lodash_issue "p2" "4.17.21"]])
             [lodash_issue "p1" "4.17.20"]
  = foldl set_update [] [[lodash_issue "p1" "4.17.20"];
                         [lodash_issue "p2" "4.17.21"]].
Proof.
  apply set_update_idempotent. apply list_elem_of_here.
Defined.

(** ** More on waiver application *)

Section WaiversMore.

Variable env : Env.
Variable org_id : string.
Variable base_url : string.

#[local] Abbreviation make_request := (_make_request env base_url).
#[local] Abbreviation existing_waivers := (get_existing_waivers_for_issue env org_id base_url).
#[local] Abbreviation smart_add := (smart_add_waiver env org_id base_url).
#[local] Abbreviation add := (add_waiver env org_id base_url).
#[local] Abbreviation probe_of issue_id project_id :=
  (mkRequest "GET" (base_url +:+ issue_endpoint org_id issue_id project_id) [] None).

Lemma sends_existing_waivers (P : Request -> Prop) (issue_id project_id : string) :
  P (mkRequest "GET" (base_url +:+ waivers_endpoint org_id issue_id project_id) [] None) ->
  sends P 3 (existing_waivers issue_id project_id).
Proof.
  intros HP. unfold get_existing_waivers_for_issue. apply sends_try_ret.
  apply sends_bind_last; [by apply sends_make_request|]. intros r.
  apply sends_bind_pure; [unfold response_json; sends_pure|]. intros d.
  apply sends_bind_pure; [unfold data_items; sends_pure|]. intros items.
  apply sends_for_append. intros x.
  unfold existing_waiver_of_resource, resource_id. cbv zeta.
  apply sends_bind_pure; [apply sends_compute_is_active|]. intros b. sends_pure.
Qed.

Lemma sends_add_waiver (P : Request -> Prop)
    (issue_id project_id description waiver_type : string) (days : Z) :
  (forall wd, P (mkRequest "POST" (base_url +:+ waivers_endpoint org_id issue_id project_id)
                           [] (Some wd))) ->
  sends P 3 (add issue_id project_id description waiver_type days).
Proof.
  intros HP. unfold add_waiver, timedelta_days, datetime_add.
  apply sends_bind_pure; [apply sends_get_clock|]. intros now.
  apply sends_bind_pure; [sends_pure|]. intros delta.
  apply sends_bind_pure; [sends_pure|]. intros expiry. cbv zeta.
  apply sends_try_ret. apply sends_bind_last; [by apply sends_make_request|].
  intros r. apply sends_ret.
Qed.

(** X9: the look-up of the waivers of an issue never raises. It sends at
    most 3 requests, each a GET for the waivers of that issue; every record
    it returns names the issue and the project asked for; and when the
    request fails it returns the empty list. *)
Theorem existing_waivers_read_only (issue_id project_id : string) (h : History) :
  exists ws evs,
    existing_waivers issue_id project_id h = (Ok ws, h ++ evs)
    /\ Forall (get_of base_url (waivers_endpoint org_id issue_id project_id))
              (requests_of evs)
    /\ (length (requests_of evs) <= 3)%nat
    /\ Forall (fun w => SnykWaiver.issue_id w = issue_id
                        /\ SnykWaiver.project_id w = project_id) ws
    /\ (forall e h1,
          make_request "GET" (waivers_endpoint org_id issue_id project_id) [] None h
            = (Raise e, h1) -> ws = []).
Proof.
  destruct (existing_waivers_total env org_id base_url issue_id project_id h)
    as (ws & h' & Hrun).
  destruct (sends_run _ _ _ _ _ _
              (sends_existing_waivers
                 (get_of base_url (waivers_endpoint org_id issue_id project_id))
                 issue_id project_id ltac:(by split)) Hrun)
    as (evs & -> & Hget & Hlen).
  exists ws, evs. split; [done|]. split; [done|]. split; [done|].
  revert Hrun. unfold get_existing_waivers_for_issue, try_except.
  rewrite bind_unfold.
  destruct (make_request "GET" _ [] None h) as [[r|e] h1]; [|by intros [= <- _]].
  intros Hrun. split; [|done]. revert Hrun.
  rewrite bind_unfold. destruct (response_json r h1) as [[d|?] h2];
    [|by intros [= <- _]].
  rewrite bind_unfold. destruct (data_items d h2) as [[items|?] h3];
    [|by intros [= <- _]].
  destruct (for_append _ items [] h3) as [[l|?] h4] eqn:Hloop; [|by intros [= <- _]].
  intros [= <- _]. eapply for_append_Forall; [|constructor|exact Hloop].
  intros x h5 w h6. unfold existing_waiver_of_resource, resource_id. cbv zeta.
  rewrite bind_unfold.
  destruct (compute_is_active env (attributes_of x) h5) as [[b|?] h7]; [|done].
  rewrite bind_unfold. destruct (res_id x); [|done]. by intros [= <- _].
Qed.

(** X10: without [skip_if_waived] the waivers of the issue are not looked
    up: besides the probe the call sends only the POSTs that create the
    waiver, at most 6 requests in all, and it never reports
    "skipped_existing_waiver". *)
Theorem smart_add_waiver_without_skip
    (issue_id project_id description waiver_type : string) (days : Z) (h : History) :
  (exists evs,
     snd (smart_add issue_id project_id description waiver_type days false h)
     = h ++ evs
     /\ Forall (fun rq => rq = probe_of issue_id project_id
                          \/ creates_waiver base_url org_id issue_id project_id rq)
               (requests_of evs)
     /\ (length (requests_of evs) <= 6)%nat)
  /\ (forall sd,
        fst (smart_add issue_id project_id description waiver_type days false h)
        = Ok sd ->
        status sd ∈ ["added"; "failed"; "skipped_no_issue"]).
Proof.
  split.
  - assert (Hsends : sends (fun rq => rq = probe_of issue_id project_id
                          \/ creates_waiver base_url org_id issue_id project_id rq) 6
                       (smart_add issue_id project_id description waiver_type days false)).
    { unfold smart_add_waiver.
      apply (sends_bind _ 3 3).
      - apply sends_try_ret. apply sends_bind_last; [|intros; apply sends_ret].
        apply sends_make_request. by left.
      - intros probe. destruct (negb probe); [apply sends_ret|].
        apply sends_bind_pure; [apply sends_ret|]. intros [w|]; [apply sends_ret|].
        apply sends_bind_last.
        + apply sends_add_waiver. intros wd. right. by repeat split.
        + intros [|]; apply sends_ret. }
    destruct (Hsends h) as (evs & ? & ? & ?). by exists evs.
  - intros sd.
    destruct (make_request "GET" (issue_endpoint org_id issue_id project_id) [] None h)
      as [[r|e] h1] eqn:Hp.
    + rewrite (smart_add_waiver_probe_ok _ _ _ _ _ _ _ _ _ _ _ _ Hp).
      rewrite bind_unfold. cbn [ret]. rewrite bind_unfold.
      destruct (add _ _ _ _ _ h1) as [[[|]|?] h2]; [| |done];
        intros [= <-]; simpl; set_solver.
    + rewrite (smart_add_waiver_probe_failed _ _ _ _ _ _ _ _ _ _ _ _ Hp).
      intros [= <-]. simpl. set_solver.
Qed.

Lemma add_waiver_true (issue_id project_id description waiver_type : string)
    (days : Z) (h h' : History) :
  add issue_id project_id description waiver_type days h = (Ok true, h') ->
  exists wd r,
    make_request "POST" (waivers_endpoint org_id issue_id project_id) []
                 (Some wd) h = (Ok r, h').
Proof.
  unfold add_waiver, timedelta_days, datetime_add, get_clock. rewrite !bind_unfold.
  destruct (timedelta_max_days <? Z.abs days); [done|].
  cbn [ret]. rewrite !bind_unfold.
  destruct (_ || _); [done|]. cbn [ret]. unfold try_except. rewrite bind_unfold.
  destruct (make_request "POST" _ [] _ h) as [[r|e] h1] eqn:Hpost; [|done].
  intros [= <-]. by eexists _, _.
Qed.

(** X11: a call that reports a skip has sent nothing but GETs; a call that
    reports "added" ended with a POST for a waiver of that issue which the
    server answered with a status that is no error. *)
Theorem smart_add_waiver_status_is_honest
    (issue_id project_id description waiver_type : string) (days : Z)
    (skip_if_waived : bool) (h h' : History) (sd : StatusDict) :
  smart_add issue_id project_id description waiver_type days skip_if_waived h
    = (Ok sd, h') ->
  (status sd = "skipped_no_issue" \/ status sd = "skipped_existing_waiver" ->
   exists evs, h' = h ++ evs /\ Forall is_get (requests_of evs))
  /\ (status sd = "added" ->
      exists evs rq r,
        h' = h ++ evs ++ [Requested rq]
        /\ creates_waiver base_url org_id issue_id project_id rq
        /\ server env (h ++ evs) rq = Responded r
        /\ passes_status (status_code r)).
Proof.
  destruct (make_request "GET" (issue_endpoint org_id issue_id project_id) [] None h)
    as [[r|e] h1] eqn:Hp.
  - rewrite (smart_add_waiver_probe_ok _ _ _ _ _ _ _ _ _ _ _ _ Hp).
    destruct (appends_run is_get _ _ _ _
                (appends_make_request env base_url is_get "GET" _ [] None eq_refl) Hp)
      as (evs1 & -> & Hget1).
    rewrite bind_unfold.
    assert (Hcol : exists c evs2,
      (if skip_if_waived then
         ws ← existing_waivers issue_id project_id;
         ret (head (List.filter SnykWaiver.is_active ws))
       else ret None) (h ++ evs1) = (Ok c, (h ++ evs1) ++ evs2)
      /\ Forall is_get (requests_of evs2)).
    { destruct skip_if_waived.
      - rewrite bind_unfold.
        destruct (existing_waivers_total env org_id base_url issue_id project_id
                    (h ++ evs1)) as (ws & h2 & Hw).
        destruct (appends_run is_get _ _ _ _
                    (appends_existing_waivers env org_id base_url is_get issue_id
                       project_id eq_refl) Hw) as (evs2 & -> & Hget2).
        rewrite Hw. by eexists _, evs2.
      - exists None, []. rewrite app_nil_r. split; [done | constructor]. }
    destruct Hcol as (c & evs2 & -> & Hget2).
    destruct c as [first_active|].
    + intros [= <- <-]. split; [|done]. intros _.
      exists (evs1 ++ evs2). rewrite app_assoc. split; [done|].
      rewrite requests_of_app. by apply Forall_app.
    + rewrite bind_unfold.
      destruct (add issue_id project_id description waiver_type days
                  ((h ++ evs1) ++ evs2)) as [[[|]|?] h3] eqn:Hadd; [| |done].
      * intros [= <- <-]. split; [by intros [?|?]|]. intros _.
        destruct (add_waiver_true _ _ _ _ _ _ _ Hadd) as (wd & r' & Hpost).
        destruct (attempt_loop_returns env _ _ _ _ _ Hpost)
          as (Hpass & evs3 & -> & Hsrv).
        eexists (evs1 ++ evs2 ++ evs3), _, r'.
        rewrite <- !app_assoc in *. split; [done|]. split; [by repeat split|].
        by split.
      * intros [= <- <-]. split; [by intros [?|?] | done].
  - rewrite (smart_add_waiver_probe_failed _ _ _ _ _ _ _ _ _ _ _ _ Hp).
    intros [= <- <-]. split; [|done]. intros _.
    exact (appends_run is_get _ _ _ _
             (appends_make_request env base_url is_get "GET" _ [] None eq_refl) Hp).
Qed.

(** X12: a look-up of the waivers that fails counts as "no waiver": the
    call goes on to create one, and reports what [add_waiver] returns. *)
Theorem smart_add_waiver_fails_open
    (issue_id project_id description waiver_type : string) (days : Z)
    (h h1 h2 : History) (r : Response) (e : Exn) :
  make_request "GET" (issue_endpoint org_id issue_id project_id) [] None h
    = (Ok r, h1) ->
  make_request "GET" (waivers_endpoint org_id issue_id project_id) [] None h1
    = (Raise e, h2) ->
  smart_add issue_id project_id description waiver_type days true h
  = match add issue_id project_id description waiver_type days h2 with
    | (Ok success, h3) => (Ok (status_of_success success), h3)
    | (Raise e', h3) => (Raise e', h3)
    end.
Proof.
  intros Hp Hw.
  rewrite (smart_add_waiver_probe_ok _ _ _ _ _ _ _ _ _ _ _ _ Hp).
  rewrite !bind_unfold.
  assert (Hlookup : existing_waivers issue_id project_id h1 = (Ok [], h2)).
  { unfold get_existing_waivers_for_issue, try_except. by rewrite bind_unfold, Hw. }
  rewrite Hlookup. cbn [ret List.filter head]. rewrite bind_unfold.
  by destruct (add _ _ _ _ _ h2) as [[[|]|?] h3].
Qed.

End WaiversMore.

Lemma smart_add_waiver_status_is_honest_witness :
  exists h',
    smart_add_waiver env_not_found "o" "https://api.snyk.io" "SNYK-JS-1" "p1"
                     "Upgrade planned" "temporary" 90 true []
    = (Ok (mkStatus "skipped_no_issue" "Issue not found in this project"), h')
    /\ Forall is_get (requests_of h').
Proof.
  assert (Hrun :
    smart_add_waiver env_not_found "o" "https://api.snyk.io" "SNYK-JS-1" "p1"
                     "Upgrade planned" "temporary" 90 true []
    = (Ok (mkStatus "skipped_no_issue" "Issue not found in this project"),
       [Requested issue_probe; Slept 1; Requested issue_probe; Slept 2;
        Requested issue_probe])) by (vm_compute; reflexivity).
  eexists. split; [exact Hrun|].
  destruct (proj1 (smart_add_waiver_status_is_honest _ _ _ _ _ _ _ _ _ _ _ _ Hrun)
              (or_introl eq_refl)) as (evs & Hh & Hget).
  simpl in Hh. by subst evs.
Defined.

Lemma smart_add_waiver_fails_open_witness :
  fst (smart_add_waiver env_lookup_down "o" "https://api.snyk.io" "SNYK-JS-1" "p1"
                        "Upgrade planned" "temporary" 90 true [])
  = Ok (mkStatus "added" "Waiver added successfully").
Proof.
  rewrite (smart_add_waiver_fails_open env_lookup_down "o" "https://api.snyk.io"
             "SNYK-JS-1" "p1" "Upgrade planned" "temporary" 90 []
             [Requested issue_probe]
             [Requested issue_probe; Requested waivers_lookup; Slept 1;
              Requested waivers_lookup; Slept 2; Requested waivers_lookup]
             (plain 200) ConnectionError);
    vm_compute; reflexivity.
Defined.

(** ** More on bulk application *)

(** The loop over the projects never raises when its step never does; it
    leaves an entry for every project, and what holds of every result of
    the step holds of every entry. *)
Lemma bulk_loop_entries (Q : StatusDict -> Prop) (step : string -> M StatusDict)
    (project_ids : list string) (results : gmap string StatusDict) (h : History) :
  (forall p h0, exists sd h1, step p h0 = (Ok sd, h1) /\ Q sd) ->
  map_Forall (fun _ sd => Q sd) results ->
  exists final h',
    bulk_loop step project_ids results h = (Ok final, h')
    /\ dom final = dom results ∪ list_to_set project_ids
    /\ map_Forall (fun _ sd => Q sd) final.
Proof.
  intros Hstep. revert results h.
  induction project_ids as [|p rest IH]; intros results h HQ; simpl.
  - exists results, h. split; [done|]. split; [set_solver | done].
  - rewrite bind_unfold. destruct (Hstep p h) as (sd & h1 & -> & Hsd).
    destruct (IH (<[p := sd]> results) h1) as (final & h' & -> & Hdom & Hall).
    { by apply map_Forall_insert_2. }
    exists final, h'. split; [done|]. split; [|done].
    rewrite Hdom, dom_insert_L. set_solver.
Qed.

Section BulkMore.

Variable env : Env.
Variable org_id : string.
Variable base_url : string.

#[local] Abbreviation smart_add := (smart_add_waiver env org_id base_url).

(** Whatever [smart_add_waiver] returns carries one of the four statuses,
    and the one exception it lets through is the overflow of the expiry. *)
Lemma smart_add_waiver_result
    (issue_id project_id description waiver_type : string) (days : Z)
    (skip_if_waived : bool) (h : History) :
  (exists sd h', smart_add issue_id project_id description waiver_type days
                           skip_if_waived h = (Ok sd, h')
                 /\ status sd ∈ outcome_statuses)
  \/ (exists e h', smart_add issue_id project_id description waiver_type days
                             skip_if_waived h = (Raise e, h')
                   /\ expiry_overflow days e).
Proof.
  destruct (smart_add_waiver_status_or_raise env org_id base_url issue_id project_id
              description waiver_type days skip_if_waived h)
    as [Hok|(e & h2 & h' & Hrun & Hadd)]; [by left|].
  right. exists e, h'. split; [done|].
  destruct (add_waiver_result env org_id base_url issue_id project_id description
              waiver_type days h2)
    as [[b Hb]|(e' & He' & Hov)]; rewrite Hadd in *; simpl in *; [done|].
  by injection He' as ->.
Qed.

Lemma project_result_status
    (issue_reference description waiver_type : string) (days : Z)
    (skip_if_waived : bool) (project_id : string) (h : History) :
  exists sd h',
    project_result env org_id base_url issue_reference description waiver_type
                   days skip_if_waived project_id h = (Ok sd, h')
    /\ status sd ∈ outcome_statuses.
Proof.
  assert (Hsmart : forall issue_id h0, exists sd h',
    try_except (smart_add issue_id project_id description waiver_type days
                          skip_if_waived)
      (fun e => ret (mkStatus "failed" ("Error processing project: " +:+ exn_str e)))
      h0 = (Ok sd, h')
    /\ status sd ∈ outcome_statuses).
  { intros issue_id h0. unfold try_except.
    destruct (smart_add_waiver_result issue_id project_id description waiver_type
                days skip_if_waived h0) as [(sd & h' & -> & Hst)|(e & h' & -> & _)].
    - by eexists _, _.
    - eexists _, _. split; [reflexivity|]. unfold outcome_statuses. simpl.
      set_solver. }
  unfold project_result.
  destruct (startswith issue_reference "SNYK-"); [apply Hsmart|].
  destruct (get_project_issues_total env org_id base_url project_id h)
    as (issues & h1 & Hfetch).
  unfold try_except at 1. rewrite bind_unfold, Hfetch.
  destruct (matching_issues env issue_reference issues) as [|issue [|issue' rest]].
  - eexists _, _. split; [reflexivity|]. unfold outcome_statuses. simpl. set_solver.
  - simpl. destruct (Hsmart (SnykIssue.id issue) h1) as (sd & h' & Hrun & Hst).
    unfold try_except in Hrun.
    destruct (smart_add _ _ _ _ _ _ h1) as [[sd'|e] h2]; inversion Hrun; subst;
      by eexists _, _.
  - eexists _, _. split; [reflexivity|]. unfold outcome_statuses. simpl. set_solver.
Qed.

(** X13: [bulk_add_waivers_by_project_list] never raises, whatever happens
    to single projects: it returns an entry for every project of the list
    and for no other key, each with one of the four statuses. *)
Theorem bulk_by_project_list_complete (project_ids : list string)
    (issue_reference description waiver_type : string) (days : Z)
    (skip_if_waived : bool) (h : History) :
  exists results h',
    bulk_add_waivers_by_project_list env org_id base_url project_ids issue_reference
      description waiver_type days skip_if_waived h = (Ok results, h')
    /\ dom results = list_to_set project_ids
    /\ forall p sd, results !! p = Some sd -> status sd ∈ outcome_statuses.
Proof.
  unfold bulk_add_waivers_by_project_list.
  destruct (bulk_loop_entries (fun sd => status sd ∈ outcome_statuses)
              (project_result env org_id base_url issue_reference description
                              waiver_type days skip_if_waived)
              project_ids ∅ h) as (final & h' & Hrun & Hdom & Hall).
  - intros p h0. apply project_result_status.
  - apply map_Forall_empty.
  - exists final, h'. split; [done|]. split.
    + rewrite Hdom, dom_empty_L. set_solver.
    + intros p sd Hp. by apply (Hall p sd).
Qed.

(** X14: [bulk_add_waivers] has no handler of its own. When it returns, it
    returns an entry under "id:project_id" for every issue of the list and
    for no other key, each with one of the four statuses; the only way it
    can fail is the [OverflowError] of the expiry date, which ends the
    batch. *)
Theorem bulk_add_waivers_entries (issues : list SnykIssue.t)
    (description waiver_type : string) (days : Z) (skip_if_waived : bool)
    (h : History) :
  (exists results h',
     bulk_add_waivers env org_id base_url issues description waiver_type days
                      skip_if_waived h = (Ok results, h')
     /\ dom results
        = list_to_set ((fun i => SnykIssue.id i +:+ ":" +:+ SnykIssue.project_id i)
                         <$> issues)
     /\ forall k sd, results !! k = Some sd -> status sd ∈ outcome_statuses)
  \/ (exists e h',
        bulk_add_waivers env org_id base_url issues description waiver_type days
                         skip_if_waived h = (Raise e, h')
        /\ expiry_overflow days e).
Proof.
  unfold bulk_add_waivers.
  assert (Hloop : forall results h0,
    map_Forall (fun _ sd => status sd ∈ outcome_statuses) results ->
    (exists final h',
       bulk_issue_loop env org_id base_url description waiver_type days
                       skip_if_waived issues results h0 = (Ok final, h')
       /\ dom final
          = dom results
            ∪ list_to_set ((fun i => SnykIssue.id i +:+ ":" +:+ SnykIssue.project_id i)
                             <$> issues)
       /\ map_Forall (fun _ sd => status sd ∈ outcome_statuses) final)
    \/ (exists e h',
          bulk_issue_loop env org_id base_url description waiver_type days
                          skip_if_waived issues results h0
          = (Raise e, h')
          /\ expiry_overflow days e)).
  { induction issues as [|issue rest IH]; intros results h0 HQ; simpl.
    - left. exists results, h0. split; [done|]. split; [set_solver | done].
    - rewrite bind_unfold.
      destruct (smart_add_waiver_result (SnykIssue.id issue)
                  (SnykIssue.project_id issue) description waiver_type days
                  skip_if_waived h0) as [(sd & h1 & -> & Hst)|(e & h1 & -> & Hov)];
        [|right; by eexists _, _].
      destruct (IH (<[SnykIssue.id issue +:+ ":" +:+ SnykIssue.project_id issue := sd]>
                      results) h1)
        as [(final & h' & -> & Hdom & Hall)|(e & h' & -> & Hov)];
        [by apply map_Forall_insert_2 | | right; by eexists _, _].
      left. exists final, h'. split; [done|]. split; [|done].
      rewrite Hdom, dom_insert_L. set_solver. }
  destruct (Hloop ∅ h (map_Forall_empty _)) as [(final & h' & Hrun & Hdom & Hall)|Hraise];
    [|by right].
  left. exists final, h'. split; [done|]. split.
  - rewrite Hdom, dom_empty_L. set_solver.
  - intros k sd Hk. by apply (Hall k sd).
Qed.

End BulkMore.

(** ** More on the waivers of a list of projects *)

Section AllWaivers.

Variable env : Env.
Variable org_id : string.
Variable base_url : string.

#[local] Abbreviation all_waivers_of := (get_all_waivers env org_id base_url).

Lemma appends_issue_details (issue_id : option string) :
  appends is_get (issue_details env org_id base_url issue_id).
Proof.
  unfold issue_details. destruct issue_id as [iid|]; [|apply appends_ret].
  destruct (bool_decide (iid = EmptyString)); [apply appends_ret|].
  apply appends_try_except; [|intros; apply appends_ret].
  apply appends_bind; [by apply appends_make_request|]. intros r.
  unfold response_json, issue_attrs_of. appends_auto.
Qed.

Lemma appends_waiver_of_resource (active_only : bool) (project_id pname : string)
    (x : Resource) :
  appends is_get (waiver_of_resource env org_id base_url active_only project_id pname x).
Proof.
  unfold waiver_of_resource. cbv zeta.
  apply appends_bind; [unfold related_issue_id; appends_auto|]. intros iid.
  apply appends_bind; [apply appends_issue_details|]. intros details.
  apply appends_bind; [apply appends_compute_is_active|]. intros b.
  unfold resource_id. appends_auto.
Qed.

Lemma appends_append_waivers (step : Resource -> M (option SnykWaiver.t))
    (items : list Resource) (acc : list SnykWaiver.t) :
  (forall x, appends is_get (step x)) ->
  appends is_get (append_waivers step items acc).
Proof.
  intros Hstep. revert acc. induction items as [|x items IH]; intros acc h; simpl.
  - exists []. simpl. rewrite app_nil_r. split; [done | constructor].
  - destruct (Hstep x h) as (evs1 & H1 & Hget1).
    destruct (step x h) as [[[w|]|e] h1]; simpl in H1; subst h1.
    + destruct (IH (acc ++ [w]) (h ++ evs1)) as (evs2 & -> & Hget2).
      exists (evs1 ++ evs2). rewrite app_assoc. split; [done|].
      rewrite requests_of_app. by apply Forall_app.
    + destruct (IH acc (h ++ evs1)) as (evs2 & -> & Hget2).
      exists (evs1 ++ evs2). rewrite app_assoc. split; [done|].
      rewrite requests_of_app. by apply Forall_app.
    + by exists evs1.
Qed.

Lemma appends_project_waivers (active_only : bool) (project_id : string)
    (acc : list SnykWaiver.t) :
  appends is_get (project_waivers env org_id base_url active_only project_id acc).
Proof.
  unfold project_waivers.
  apply appends_try_except; [|intros; apply appends_ret].
  apply appends_bind; [by apply appends_make_request|]. intros r1.
  apply appends_bind; [unfold response_json; appends_auto|]. intros d1.
  apply appends_bind; [unfold project_name_of; appends_auto|]. intros pname.
  apply appends_bind; [by apply appends_make_request|]. intros r2.
  apply appends_bind; [unfold response_json; appends_auto|]. intros d2.
  apply appends_bind; [unfold data_items; appends_auto|]. intros items.
  apply appends_bind; [|intros; apply appends_ret].
  apply appends_append_waivers. intros x. apply appends_waiver_of_resource.
Qed.

Lemma appends_get_all_waivers (project_ids : list string) (active_only : bool) :
  appends is_get (all_waivers_of project_ids active_only).
Proof.
  unfold get_all_waivers. generalize (@nil SnykWaiver.t).
  induction project_ids as [|p rest IH]; intros acc; simpl.
  - apply appends_ret.
  - apply appends_bind; [apply appends_project_waivers | intros acc'; apply IH].
Qed.

Lemma waiver_of_resource_project (active_only : bool) (project_id pname : string)
    (x : Resource) (h h' : History) (w : SnykWaiver.t) :
  waiver_of_resource env org_id base_url active_only project_id pname x h
    = (Ok (Some w), h') ->
  SnykWaiver.project_id w = project_id /\ SnykWaiver.project_name w = pname.
Proof.
  unfold waiver_of_resource, resource_id. cbv zeta. rewrite bind_unfold.
  destruct (related_issue_id x h) as [[iid|?] h1]; [|done].
  rewrite bind_unfold.
  destruct (issue_details env org_id base_url iid h1) as [[details|?] h2]; [|done].
  rewrite bind_unfold.
  destruct (compute_is_active env (attributes_of x) h2) as [[b|?] h3]; [|done].
  destruct (active_only && negb b); [done|].
  rewrite bind_unfold. destruct (res_id x); [|done]. by intros [= <- _].
Qed.

(** X15: [get_all_waivers] never raises, whatever a single project or
    waiver does to it, and sends only GETs. Every waiver it returns
    belongs to one of the projects asked for, and with [active_only] every
    waiver it returns is active. *)
Theorem get_all_waivers_read_only (project_ids : list string) (active_only : bool)
    (h : History) :
  exists ws evs,
    all_waivers_of project_ids active_only h = (Ok ws, h ++ evs)
    /\ Forall is_get (requests_of evs)
    /\ Forall (fun w => SnykWaiver.project_id w ∈ project_ids
                        /\ (active_only = true -> SnykWaiver.is_active w = true)) ws.
Proof.
  assert (Hloop : forall pids acc h0,
    pids ⊆ project_ids ->
    Forall (fun w => SnykWaiver.project_id w ∈ project_ids
                     /\ (active_only = true -> SnykWaiver.is_active w = true)) acc ->
    exists l h', all_waivers_loop env org_id base_url active_only pids acc h0
                 = (Ok l, h')
                 /\ Forall (fun w => SnykWaiver.project_id w ∈ project_ids
                              /\ (active_only = true -> SnykWaiver.is_active w = true)) l).
  { induction pids as [|p rest IH]; intros acc h0 Hsub Hacc; simpl.
    - by eexists _, _.
    - rewrite bind_unfold.
      destruct (project_waivers_Forall env org_id base_url
                  (fun w => SnykWaiver.project_id w ∈ project_ids
                            /\ (active_only = true -> SnykWaiver.is_active w = true))
                  active_only p acc h0) as (l & h1 & -> & Hl); [|done|].
      + intros pname x h2 w h3 Hw. split.
        * rewrite (proj1 (waiver_of_resource_project _ _ _ _ _ _ _ Hw)).
          apply Hsub. apply list_elem_of_here.
        * by apply (proj2 (waiver_of_resource_spec env org_id base_url _ _ _ _ _ _ _ Hw)).
      + apply IH; [|done]. intros q Hq. apply Hsub. by apply list_elem_of_further. }
  destruct (Hloop project_ids [] h ltac:(done) ltac:(constructor)) as (ws & h' & Hrun & Hws).
  destruct (appends_run is_get _ _ _ _
              (appends_get_all_waivers project_ids active_only) Hrun)
    as (evs & -> & Hget).
  by exists ws, evs.
Qed.

End AllWaivers.

(** ** Duplicate waivers *)

Lemma waivers_for_snoc (k : string) (ws : list SnykWaiver.t) (w : SnykWaiver.t) :
  waivers_for k (ws ++ [w])
  = waivers_for k ws ++ (if bool_decide (SnykWaiver.issue_id w = k) then [w] else []).
Proof. unfold waivers_for. by rewrite List.filter_app. Qed.

Lemma waivers_for_nil_iff (k : string) (ws : list SnykWaiver.t) :
  waivers_for k ws = [] <-> forall w, w ∈ ws -> SnykWaiver.issue_id w <> k.
Proof.
  unfold waivers_for. induction ws as [|w ws IH]; simpl.
  - split; [|done]. intros _ w Hw. by inversion Hw.
  - destruct (bool_decide_reflect (SnykWaiver.issue_id w = k)) as [Heq|Hne].
    + split; [done|]. intros H. destruct (H w); [apply list_elem_of_here | done].
    + rewrite IH. split.
      * intros H w' [->|Hw']%elem_of_cons; [done | by apply H].
      * intros H w' Hw'. apply H. by apply list_elem_of_further.
Qed.

Lemma group_insert_keys (w : SnykWaiver.t) (groups : list (string * list SnykWaiver.t)) :
  fst <$> group_insert w groups
  = if bool_decide (SnykWaiver.issue_id w ∈ (fst <$> groups)) then fst <$> groups
    else (fst <$> groups) ++ [SnykWaiver.issue_id w].
Proof.
  induction groups as [|[k g] rest IH].
  - reflexivity.
  - cbn [group_insert]. rewrite fmap_cons. cbn [fst].
    destruct (bool_decide_reflect (k = SnykWaiver.issue_id w)) as [->|Hne].
    + rewrite fmap_cons. cbn [fst].
      rewrite bool_decide_eq_true_2; [done|]. apply list_elem_of_here.
    + rewrite fmap_cons, IH. cbn [fst].
      destruct (bool_decide_reflect (SnykWaiver.issue_id w ∈ (fst <$> rest))) as [Hin|Hnotin].
      * rewrite bool_decide_eq_true_2; [done|]. by apply list_elem_of_further.
      * rewrite bool_decide_eq_false_2; [done|].
        intros [?|?]%elem_of_cons; [congruence | done].
Qed.

(** Where the entries of the dictionary come from after an insertion. *)
Lemma group_insert_elem (w : SnykWaiver.t) (groups : list (string * list SnykWaiver.t))
    (k : string) (g : list SnykWaiver.t) :
  NoDup (fst <$> groups) ->
  (k, g) ∈ group_insert w groups ->
(((k, g) ∈ groups) /\ k <> SnykWaiver.issue_id w)
  \/ (k = SnykWaiver.issue_id w
      /\ exists g0, ((k, g0) ∈ groups) /\ g = g0 ++ [w])
  \/ (k = SnykWaiver.issue_id w
      /\ (SnykWaiver.issue_id w ∉ (fst <$> groups)) /\ g = [w]).
Proof.
  induction groups as [|[k0 g0] rest IH]; simpl; intros Hnd Hin.
  - apply list_elem_of_singleton in Hin. injection Hin as -> ->.
    right; right. split; [done|]. split; [apply not_elem_of_nil | done].
  - apply NoDup_cons in Hnd as [Hk0 Hnd].
    destruct (bool_decide_reflect (k0 = SnykWaiver.issue_id w)) as [->|Hne].
    + apply elem_of_cons in Hin as [Heq|Hin].
      * injection Heq as -> ->.
        right; left. split; [done|]. exists g0. split; [apply list_elem_of_here | done].
      * left. split; [by apply list_elem_of_further|].
        intros ->. apply Hk0. by apply (list_elem_of_fmap_2 fst _ (_, g)).
    + apply elem_of_cons in Hin as [Heq|Hin].
      * injection Heq as -> ->. left. split; [apply list_elem_of_here | done].
      * destruct (IH Hnd Hin) as [[? ?]|[(-> & g1 & ? & ->)|(-> & Hnotin & ->)]].
        -- left. split; [by apply list_elem_of_further | done].
        -- right; left. split; [done|]. exists g1.
           split; [by apply list_elem_of_further | done].
        -- right; right. split; [done|]. split; [|done].
           intros [?|?]%elem_of_cons; [congruence | done].
Qed.

Lemma groups_of_insert (ws : list SnykWaiver.t) (w : SnykWaiver.t)
    (groups : list (string * list SnykWaiver.t)) :
  groups_of ws groups -> groups_of (ws ++ [w]) (group_insert w groups).
Proof.
  intros (Hnd & Hkeys & Hgroups). split; [|split].
  - rewrite group_insert_keys. case_bool_decide as Hin; [done|].
    apply NoDup_app. split; [done|]. split; [|apply NoDup_singleton].
    intros k Hk Hk'. apply list_elem_of_singleton in Hk' as ->. done.
  - intros w' Hw'. rewrite group_insert_keys.
    apply elem_of_app in Hw' as [Hw'|Hw']; [|apply list_elem_of_singleton in Hw' as ->].
    + case_bool_decide; [by apply Hkeys|]. apply elem_of_app. left. by apply Hkeys.
    + case_bool_decide; [done|]. apply elem_of_app. right. apply list_elem_of_here.
  - intros k g Hin. rewrite waivers_for_snoc.
    destruct (group_insert_elem w groups k g Hnd Hin)
      as [[Hold Hne]|[(-> & g0 & Hold & ->)|(-> & Hnotin & ->)]].
    + destruct (Hgroups k g Hold) as [-> Hnonempty].
      rewrite bool_decide_eq_false_2 by congruence. by rewrite app_nil_r.
    + destruct (Hgroups _ g0 Hold) as [-> _].
      rewrite bool_decide_eq_true_2 by done. split; [done|].
      by destruct (waivers_for _ ws).
    + rewrite bool_decide_eq_true_2 by done.
      assert (waivers_for (SnykWaiver.issue_id w) ws = []) as ->; [|done].
      apply waivers_for_nil_iff. intros w' Hw' Heq. apply Hnotin.
      rewrite <- Heq. by apply Hkeys.
Qed.

Lemma group_by_issue_spec (ws : list SnykWaiver.t) : groups_of ws (group_by_issue ws).
Proof.
  unfold group_by_issue. induction ws as [|w ws IH] using rev_ind.
  - split; [constructor|]. split.
    + intros w Hw. by apply elem_of_nil in Hw.
    + intros k g Hin. by apply elem_of_nil in Hin.
  - rewrite foldl_snoc. by apply groups_of_insert.
Qed.

(** The groups reported are the issues with more than one waiver. *)
Lemma duplicate_groups_spec (ws g : list SnykWaiver.t) :
  g ∈ duplicate_groups (group_by_issue ws)
  <-> exists k, g = waivers_for k ws /\ (2 <= length g)%nat.
Proof.
  destruct (group_by_issue_spec ws) as (Hnd & Hkeys & Hgroups).
  unfold duplicate_groups. rewrite list_elem_of_fmap. split.
  - intros ([k g'] & -> & Hin). apply list_elem_of_In, filter_In in Hin as [Hin Hlen].
    apply list_elem_of_In in Hin. simpl in *.
    exists k. split; [by apply Hgroups|]. apply Nat.ltb_lt in Hlen. lia.
  - intros (k & -> & Hlen).
    assert (Hex : exists w, w ∈ ws /\ SnykWaiver.issue_id w = k).
    { destruct (waivers_for k ws) as [|w ?] eqn:Hf; [simpl in Hlen; lia|].
      assert (Hw : In w (waivers_for k ws)) by (rewrite Hf; by left).
      unfold waivers_for in Hw. apply filter_In in Hw as [Hw Hk].
      apply bool_decide_eq_true in Hk.
      exists w. split; [by apply list_elem_of_In | done]. }
    destruct Hex as (w & Hw & <-).
    apply Hkeys, list_elem_of_fmap in Hw as ([k g'] & Hk & Hin). simpl in Hk.
    exists (k, g'). subst k. destruct (Hgroups _ g' Hin) as [-> _].
    split; [done|]. apply list_elem_of_In, filter_In. split.
    + by apply list_elem_of_In.
    + simpl. apply Nat.ltb_lt. lia.
Qed.

Section Duplicates.

Variable env : Env.
Variable org_id : string.
Variable base_url : string.

(** X16: [find_duplicate_waivers] never raises and reports exactly the
    issues that have two or more active waivers among those fetched: each
    group holds all the fetched waivers of one issue id, in the order
    fetched, and an issue with a single waiver is not reported. *)
Theorem find_duplicate_waivers_spec (project_ids : list string) (h : History) :
  exists ws groups h',
    get_all_waivers env org_id base_url project_ids true h = (Ok ws, h')
    /\ find_duplicate_waivers env org_id base_url project_ids h = (Ok groups, h')
    /\ Forall (fun w => SnykWaiver.is_active w = true) ws
    /\ (forall g, g ∈ groups
                  <-> exists k, g = waivers_for k ws /\ (2 <= length g)%nat).
Proof.
  destruct (get_all_waivers_spec env org_id base_url project_ids true h)
    as (ws & h' & Hrun & Hws).
  exists ws, (duplicate_groups (group_by_issue ws)), h'.
  split; [done|]. split.
  - unfold find_duplicate_waivers. by rewrite bind_unfold, Hrun.
  - split.
    + eapply Forall_impl; [exact Hws|]. intros w [Hactive _]. by apply Hactive.
    + intros g. apply duplicate_groups_spec.
Qed.

End Duplicates.

(** ** Statistics *)

Lemma occurrences_snoc (key : SnykWaiver.t -> string) (k : string)
    (ws : list SnykWaiver.t) (w : SnykWaiver.t) :
  occurrences key k (ws ++ [w])
  = (occurrences key k ws + (if bool_decide (key w = k) then 1 else 0))%nat.
Proof.
  unfold occurrences. rewrite List.filter_app, length_app. simpl.
  by destruct (bool_decide (key w = k)).
Qed.

(** The dictionary of counts holds, under every key that occurs, the number
    of its occurrences, and no other key. *)
Lemma count_by_lookup (key : SnykWaiver.t -> string) (ws : list SnykWaiver.t)
    (k : string) :
  count_by key ws !! k
  = match occurrences key k ws with
    | O => None
    | S n => Some (S n)
    end.
Proof.
  unfold count_by. induction ws as [|w ws IH] using rev_ind; [done|].
  rewrite foldl_snoc, occurrences_snoc, lookup_insert.
  destruct (decide (key w = k)) as [->|Hne].
  - rewrite bool_decide_eq_true_2 by done. rewrite IH.
    destruct (occurrences key k ws); simpl; f_equal; lia.
  - rewrite bool_decide_eq_false_2 by done. rewrite IH, Nat.add_0_r. done.
Qed.

Lemma filter_split_length {A} (f : A -> bool) (l : list A) :
  (length (List.filter f l) + length (List.filter (fun x => negb (f x)) l))%nat
  = length l.
Proof.
  induction l as [|x l IH]; [done|]. simpl. destruct (f x); simpl; lia.
Qed.

Lemma filter_length_le {A} (f : A -> bool) (l : list A) :
  (length (List.filter f l) <= length l)%nat.
Proof. pose proof (filter_split_length f l). lia. Qed.

Section Statistics.

Variable env : Env.
Variable org_id : string.
Variable base_url : string.
Variable tz_aware : string -> bool.

(** X17: the statistics are consistent with the waivers fetched: active
    and expired add up to the total; under each type, severity and project
    name stands the number of waivers that have it, and a value that no
    waiver has is no key; the waivers expiring soon are among the active
    ones, and none of them has the expiry "unknown" or an expiry with a UTC
    offset. *)
Theorem waiver_statistics_consistent (project_ids : list string) (h h1 : History)
    (ws : list SnykWaiver.t) :
  get_all_waivers env org_id base_url project_ids false h = (Ok ws, h1) ->
  0 <= clock env h1 + 30 * microseconds_per_day <= datetime_max ->
  exists st,
    get_waiver_statistics env org_id base_url tz_aware project_ids h = (Ok st, h1)
    /\ total_waivers st = length ws
    /\ (active_waivers st + expired_waivers_count st)%nat = total_waivers st
    /\ (expiring_soon st <= active_waivers st)%nat
    /\ length (expiring_soon_details st) = expiring_soon st
    /\ (forall k, by_type st !! k
                  = match occurrences SnykWaiver.waiver_type k ws with
                    | O => None | S n => Some (S n) end)
    /\ (forall k, by_severity st !! k
                  = match occurrences SnykWaiver.issue_severity k ws with
                    | O => None | S n => Some (S n) end)
    /\ (forall k, by_project st !! k
                  = match occurrences SnykWaiver.project_name k ws with
                    | O => None | S n => Some (S n) end)
    /\ Forall (fun d => snd d <> "unknown" /\ tz_aware (replace_Z (snd d)) = false)
              (expiring_soon_details st).
Proof.
  intros Hall Hrange. unfold get_waiver_statistics. rewrite bind_unfold, Hall.
  cbv zeta. unfold get_clock, timedelta_days, datetime_add. rewrite bind_unfold.
  change (timedelta_max_days <? Z.abs 30) with false.
  unfold ret. cbv beta iota. rewrite bind_unfold.
  assert ((clock env h1 + 30 * microseconds_per_day <? 0)
          || (datetime_max <? clock env h1 + 30 * microseconds_per_day) = false) as ->.
  { apply orb_false_iff. split; [apply Z.ltb_ge | apply Z.ltb_ge]; lia. }
  eexists. split; [reflexivity|]. cbn [total_waivers active_waivers expired_waivers_count expiring_soon by_type by_severity by_project expiring_soon_details].
  split; [done|]. split; [apply filter_split_length|].
  split; [apply filter_length_le|]. split; [by rewrite length_fmap|].
  split; [intros k; apply count_by_lookup|].
  split; [intros k; apply count_by_lookup|].
  split; [intros k; apply count_by_lookup|].
  apply Forall_fmap, Forall_forall. intros w Hw. simpl.
  apply list_elem_of_In, filter_In in Hw as [_ Hsoon].
  unfold expires_by in Hsoon.
  destruct (bool_decide_reflect (SnykWaiver.expiry_date w = "unknown")); [done|].
  destruct (fromisoformat env _); [|done].
  by destruct (tz_aware _).
Qed.

End Statistics.

Lemma waiver_statistics_consistent_witness :
  exists st,
    get_waiver_statistics env_two_waivers "o" "https://api.snyk.io" toy_tz_aware
                          ["p1"] [] = (Ok st, two_waivers_history)
    /\ total_waivers st = 2%nat
    /\ (active_waivers st + expired_waivers_count st)%nat = total_waivers st.
Proof.
  destruct (waiver_statistics_consistent env_two_waivers "o" "https://api.snyk.io"
              toy_tz_aware ["p1"] [] two_waivers_history two_waivers)
    as (st & Hrun & Htotal & Hsum & _).
  - vm_compute. reflexivity.
  - vm_compute. split; discriminate.
  - exists st. by repeat split.
Defined.

(** ** Removing waivers *)

Lemma contains_empty (s : string) : contains EmptyString s = true.
Proof. by destruct s. Qed.

Section Removal.

Variable env : Env.
Variable org_id : string.
Variable base_url : string.

(** [get_all_waivers] returns, and sends only GETs. *)
Lemma get_all_waivers_run (project_ids : list string) (active_only : bool) (h : History) :
  exists ws evs,
    get_all_waivers env org_id base_url project_ids active_only h = (Ok ws, h ++ evs)
    /\ Forall is_get (requests_of evs).
Proof.
  destruct (get_all_waivers_spec env org_id base_url project_ids active_only h)
    as (ws & h' & Hrun & _).
  destruct (appends_run is_get _ _ _ _
              (appends_get_all_waivers env org_id base_url project_ids active_only) Hrun)
    as (evs & -> & Hget).
  by exists ws, evs.
Qed.

(** A removal returns, and sends the DELETE of the waiver at most three
    times. *)
Lemma remove_waiver_run (w : SnykWaiver.t) (h : History) :
  exists ok evs,
    remove_waiver env org_id base_url (SnykWaiver.id w) (SnykWaiver.project_id w) h
    = (Ok ok, h ++ evs)
    /\ Forall (deletes_waiver base_url org_id w) (requests_of evs)
    /\ (length (requests_of evs) <= 3)%nat.
Proof.
  assert (Hs : sends (deletes_waiver base_url org_id w) 3
                 (remove_waiver env org_id base_url (SnykWaiver.id w)
                                (SnykWaiver.project_id w))).
  { unfold remove_waiver. apply sends_try_ret.
    apply sends_bind_last; [|intros; apply sends_ret].
    apply sends_make_request. by split. }
  assert (Ht : exists ok h1,
             remove_waiver env org_id base_url (SnykWaiver.id w)
                           (SnykWaiver.project_id w) h = (Ok ok, h1))
    by apply try_except_total.
  destruct Ht as (ok & h1 & Hrun).
  destruct (sends_run _ _ _ _ _ _ Hs Hrun) as (evs & -> & HP & Hlen).
  by exists ok, evs.
Qed.

Lemma remove_loop_spec (ws : list SnykWaiver.t) (results : gmap string bool)
    (h : History) :
  exists res evs,
    remove_loop env org_id base_url ws results h = (Ok res, h ++ evs)
    /\ (forall k, is_Some (res !! k)
                  <-> is_Some (results !! k) \/ k ∈ (SnykWaiver.id <$> ws))
    /\ Forall (fun rq => exists w, w ∈ ws /\ deletes_waiver base_url org_id w rq)
              (requests_of evs)
    /\ (length (requests_of evs) <= 3 * length ws)%nat.
Proof.
  revert results h. induction ws as [|w ws IH]; intros results h.
  - exists results, []. rewrite app_nil_r. split; [done|]. split.
    + intros k. split; [by left|]. intros [H|H]; [done|].
      by apply elem_of_nil in H.
    + split; [constructor | simpl; lia].
  - cbn [remove_loop]. rewrite bind_unfold.
    destruct (remove_waiver_run w h) as (ok & evs1 & -> & HP1 & Hl1).
    destruct (IH (<[SnykWaiver.id w := ok]> results) (h ++ evs1))
      as (res & evs2 & -> & Hdom & HP2 & Hl2).
    exists res, (evs1 ++ evs2). rewrite app_assoc. split; [done|]. split.
    + intros k. rewrite Hdom, fmap_cons, elem_of_cons, lookup_insert_is_Some.
      destruct (decide (SnykWaiver.id w = k)); naive_solver.
    + split.
      * rewrite requests_of_app. apply Forall_app. split.
        -- eapply Forall_impl; [exact HP1|]. intros rq Hrq.
           exists w. split; [apply list_elem_of_here | done].
        -- eapply Forall_impl; [exact HP2|]. intros rq (w' & Hin & Hd).
           exists w'. split; [by apply list_elem_of_further | done].
      * rewrite requests_of_app, length_app. simpl. lia.
Qed.

Lemma bulk_remove_run (issue_reference : string) (project_ids : list string)
    (h : History) :
  exists ws evs0 results evs,
    get_all_waivers env org_id base_url project_ids false h = (Ok ws, h ++ evs0)
    /\ Forall is_get (requests_of evs0)
    /\ bulk_remove_waivers_by_issue env org_id base_url issue_reference project_ids h
       = (Ok results, (h ++ evs0) ++ evs)
    /\ (forall k, is_Some (results !! k)
                  <-> k ∈ (SnykWaiver.id
                             <$> List.filter (waiver_matches env issue_reference) ws))
    /\ Forall (fun rq => exists w, w ∈ ws /\ waiver_matches env issue_reference w = true
                                   /\ deletes_waiver base_url org_id w rq)
              (requests_of evs)
    /\ (length (requests_of evs)
        <= 3 * length (List.filter (waiver_matches env issue_reference) ws))%nat.
Proof.
  destruct (get_all_waivers_run project_ids false h) as (ws & evs0 & Hall & Hget).
  destruct (remove_loop_spec (List.filter (waiver_matches env issue_reference) ws) ∅
              (h ++ evs0)) as (res & evs & Hloop & Hdom & HP & Hlen).
  exists ws, evs0, res, evs. split; [done|]. split; [done|].
  split; [|split; [|split; [|done]]].
  - unfold bulk_remove_waivers_by_issue. rewrite bind_unfold, Hall. cbv zeta.
    destruct (List.filter (waiver_matches env issue_reference) ws) eqn:Hf; [|done].
    exact Hloop.
  - intros k. rewrite Hdom, lookup_empty. split; [|by right].
    intros [[? [=]]|H]; done.
  - eapply Forall_impl; [exact HP|]. intros rq (w & Hin & Hd).
    apply list_elem_of_In, filter_In in Hin as [Hin Hm].
    exists w. by rewrite list_elem_of_In.
Qed.

(** The test of the loop decides the rule of selection. *)
Lemma waiver_matches_spec (issue_reference : string) (w : SnykWaiver.t) :
  waiver_matches env issue_reference w = true
  <-> reference_matches env issue_reference w.
Proof.
  unfold waiver_matches, reference_matches.
  by rewrite orb_true_iff, bool_decide_eq_true, contains_spec.
Qed.

(** X18: [bulk_remove_waivers_by_issue] never raises. The waivers it
    removes are those of the fetched waivers whose issue id is the
    reference, or whose issue title contains the reference when both are
    put in lower case. After the GETs that fetch the waivers it sends only
    DELETEs, each for one of these waivers and at most three for each of
    them; the dictionary it returns has exactly their ids as keys. In
    particular nothing is deleted, and the dictionary is empty, when no
    waiver matches. *)
Theorem bulk_remove_only_matching (issue_reference : string)
    (project_ids : list string) (h : History) :
  exists ws evs0 matching results evs,
    get_all_waivers env org_id base_url project_ids false h = (Ok ws, h ++ evs0)
    /\ Forall is_get (requests_of evs0)
    /\ selects (reference_matches env issue_reference) ws matching
    /\ bulk_remove_waivers_by_issue env org_id base_url issue_reference project_ids h
       = (Ok results, (h ++ evs0) ++ evs)
    /\ (forall k, is_Some (results !! k) <-> k ∈ (SnykWaiver.id <$> matching))
    /\ Forall (fun rq => exists w, w ∈ matching /\ deletes_waiver base_url org_id w rq)
              (requests_of evs)
    /\ (length (requests_of evs) <= 3 * length matching)%nat.
Proof.
  destruct (bulk_remove_run issue_reference project_ids h)
    as (ws & evs0 & results & evs & Hall & Hget & Hrun & Hdom & HP & Hlen).
  exists ws, evs0, (List.filter (waiver_matches env issue_reference) ws), results, evs.
  split; [done|]. split; [done|].
  split; [apply filter_selects; intros w; apply waiver_matches_spec|].
  split; [done|]. split; [done|]. split; [|done].
  eapply Forall_impl; [exact HP|]. intros rq (w & Hin & Hm & Hd).
  exists w. split; [|done]. apply list_elem_of_In, filter_In.
  by rewrite <- list_elem_of_In.
Qed.

(** X19: the empty reference matches every waiver, since the empty string
    is contained in every title: [bulk_remove_waivers_by_issue] with it
    returns a result for every waiver of the projects. *)
Theorem empty_reference_removes_every_waiver (project_ids : list string)
    (h : History) :
  exists ws h1 results h2,
    get_all_waivers env org_id base_url project_ids false h = (Ok ws, h1)
    /\ bulk_remove_waivers_by_issue env org_id base_url EmptyString project_ids h
       = (Ok results, h2)
    /\ List.filter (waiver_matches env EmptyString) ws = ws
    /\ Forall (fun w => is_Some (results !! SnykWaiver.id w)) ws.
Proof.
  destruct (bulk_remove_run EmptyString project_ids h)
    as (ws & evs0 & results & evs & Hall & _ & Hrun & Hdom & _).
  assert (Hf : List.filter (waiver_matches env EmptyString) ws = ws).
  { clear. induction ws as [|w ws IH]; [done|]. simpl.
    unfold waiver_matches at 1. change (lower env EmptyString) with EmptyString.
    rewrite contains_empty, orb_true_r.
    by rewrite IH. }
  exists ws, (h ++ evs0), results, ((h ++ evs0) ++ evs).
  split; [done|]. split; [done|]. split; [done|].
  apply Forall_forall. intros w Hw. apply Hdom. rewrite Hf.
  by apply list_elem_of_fmap_2.
Qed.

(** X20: an answer other than y or Y at the prompt stops the three
    operations that ask for confirmation: the clean-up of expired waivers
    and the removal by issue have then sent only GETs, the former reports
    zero removals; the addition across projects has sent nothing. *)
Theorem declined_confirmation_changes_nothing (confirm : string) :
  lower env confirm <> "y" ->
  (forall project_ids h, exists ws evs,
      cleanup_expired_waivers env org_id base_url project_ids confirm h
      = (Ok (ws, 0%nat), h ++ evs)
      /\ Forall is_get (requests_of evs))
  /\ (forall project_ids issue_reference h, exists evs,
        remove_waivers_by_issue env org_id base_url project_ids issue_reference
                                confirm h
        = (Ok None, h ++ evs)
        /\ Forall is_get (requests_of evs))
  /\ (forall project_ids issue_reference waiver_description waiver_type days h,
        add_waivers_by_issue_across_projects env org_id base_url project_ids
          issue_reference waiver_description waiver_type days confirm h
        = (Ok None, h)).
Proof.
  intros Hno. split; [|split].
  - intros project_ids h. unfold cleanup_expired_waivers.
    destruct project_ids as [|p rest].
    { exists [], []. rewrite app_nil_r. split; [done | constructor]. }
    destruct (get_all_waivers_run (p :: rest) false h) as (ws & evs & Hall & Hget).
    rewrite bind_unfold, Hall. cbv zeta.
    destruct (expired_waivers ws) as [|w l]; [by exists [], evs|].
    rewrite (bool_decide_eq_false_2 _ Hno). by exists (w :: l), evs.
  - intros project_ids issue_reference h. unfold remove_waivers_by_issue.
    destruct project_ids as [|p rest].
    { exists []. rewrite app_nil_r. split; [done | constructor]. }
    destruct (get_all_waivers_run (p :: rest) false h) as (ws & evs & Hall & Hget).
    rewrite bind_unfold, Hall.
    destruct (List.filter (waiver_matches env issue_reference) ws); [by exists evs|].
    rewrite (bool_decide_eq_false_2 _ Hno). by exists evs.
  - intros project_ids issue_reference waiver_description waiver_type days h.
    unfold add_waivers_by_issue_across_projects.
    destruct project_ids; [done|]. by rewrite (bool_decide_eq_false_2 _ Hno).
Qed.

(** X21: [get_project_test_status] never raises: whatever goes wrong gives
    [None]. It sends at most three requests, each a GET of the project,
    and a status it returns carries the project id it was asked about. *)
Theorem test_status_never_raises (project_id : string) (h : History) :
  exists r evs,
    get_project_test_status env org_id base_url project_id h = (Ok r, h ++ evs)
    /\ Forall (get_of base_url
                 ("/rest/orgs/" +:+ org_id +:+ "/projects/" +:+ project_id))
              (requests_of evs)
    /\ (length (requests_of evs) <= 3)%nat
    /\ (forall st, r = Some st -> ts_project_id st = project_id).
Proof.
  set (P := get_of base_url ("/rest/orgs/" +:+ org_id +:+ "/projects/" +:+ project_id)).
  assert (Hs : sends P 3 (get_project_test_status env org_id base_url project_id)).
  { unfold get_project_test_status. apply sends_try_ret.
    apply sends_bind_last; [apply sends_make_request; by split|]. intros r.
    unfold response_json, issue_attrs_of. sends_pure. }
  assert (Ht : exists r h1,
             get_project_test_status env org_id base_url project_id h = (Ok r, h1))
    by apply try_except_total.
  destruct Ht as (r & h1 & Hrun).
  destruct (sends_run _ _ _ _ _ _ Hs Hrun) as (evs & -> & HP & Hlen).
  exists r, evs. split; [done|]. split; [done|]. split; [done|].
  intros st ->. revert Hrun. unfold get_project_test_status, try_except.
  rewrite bind_unfold.
  destruct (_make_request _ _ _ _ _ _ h) as [[resp|e] h2]; [|done].
  rewrite bind_unfold. destruct (response_json resp h2) as [[doc|e] h3]; [|done].
  rewrite bind_unfold. destruct (issue_attrs_of doc h3) as [[attrs|e] h4]; [|done].
  by intros [= <- _].
Qed.

End Removal.

Lemma declined_confirmation_changes_nothing_witness :
  add_waivers_by_issue_across_projects env_two_waivers "o" "https://api.snyk.io"
    ["p1"] "lodash" "accepted" "wont-fix" 30 "n" []
  = (Ok None, []).
Proof.
  apply (declined_confirmation_changes_nothing env_two_waivers "o"
           "https://api.snyk.io" "n").
  vm_compute. discriminate.
Defined.

(** ** More on the template store *)

Lemma find_snoc {A} (f : A -> bool) (l : list A) (x : A) :
  List.find f (l ++ [x])
  = match List.find f l with
    | Some y => Some y
    | None => if f x then Some x else None
    end.
Proof. induction l as [|a l IH]; simpl; [done|]. by destruct (f a). Qed.

Lemma filter_all_false {A} (f : A -> bool) (l : list A) :
  Forall (fun x => f x = false) l -> List.filter f l = [].
Proof. induction 1 as [|x l Hx _ IH]; simpl; [done|]. by rewrite Hx. Qed.

Lemma filter_all_true {A} (f : A -> bool) (l : list A) :
  Forall (fun x => f x = true) l -> List.filter f l = l.
Proof. induction 1 as [|x l Hx _ IH]; simpl; [done|]. by rewrite Hx, IH. Qed.

Lemma delete_app_r {A} (l1 l2 : list A) (i : nat) :
  (length l1 <= i)%nat -> delete i (l1 ++ l2) = l1 ++ delete (i - length l1)%nat l2.
Proof.
  revert i. induction l1 as [|a l1 IH]; intros i Hi; simpl in *.
  - by rewrite Nat.sub_0_r.
  - destruct i as [|i]; [lia|]. simpl. f_equal. apply IH. lia.
Qed.

Section TemplatesMore.

Variable default_templates : list WaiverTemplate.t.

#[local] Abbreviation defaults := default_templates.

Lemma get_template_None (name : string) (m : Manager) :
  get_template name m = None <-> name ∉ (WaiverTemplate.name <$> templates m).
Proof.
  unfold get_template. induction (templates m) as [|t ts IH]; cbn [List.find].
  - split; [intros _; apply not_elem_of_nil | done].
  - rewrite fmap_cons, not_elem_of_cons.
    destruct (bool_decide_reflect (WaiverTemplate.name t = name)) as [Heq|Hne].
    + split; [done|]. by intros [Hne _].
    + rewrite IH. split; [by split|]. by intros [_ H].
Qed.

Lemma get_template_snoc (name : string) (path : string) (ts : list WaiverTemplate.t)
    (t : WaiverTemplate.t) :
  get_template name (mkManager path (ts ++ [t]))
  = match get_template name (mkManager path ts) with
    | Some y => Some y
    | None => if bool_decide (WaiverTemplate.name t = name) then Some t else None
    end.
Proof. unfold get_template. cbn [templates]. by rewrite find_snoc. Qed.

Lemma index_of_name_snoc (name : string) (ts : list WaiverTemplate.t)
    (t : WaiverTemplate.t) (i : nat) :
  name ∉ (WaiverTemplate.name <$> ts) -> WaiverTemplate.name t = name ->
  index_of_name name (ts ++ [t]) i = Some (i + length ts)%nat.
Proof.
  intros Hnot Hname. revert i Hnot.
  induction ts as [|a ts IH]; intros i Hnot; cbn [app index_of_name length].
  - rewrite bool_decide_eq_true_2 by done. f_equal. lia.
  - rewrite fmap_cons, not_elem_of_cons in Hnot. destruct Hnot as [Hne Hnot].
    rewrite bool_decide_eq_false_2 by done. rewrite IH by done. f_equal. lia.
Qed.

Lemma custom_of_shape (custom : list WaiverTemplate.t) :
  Forall (fun t => WaiverTemplate.name t ∉ (WaiverTemplate.name <$> defaults)) custom ->
  custom_of defaults (defaults ++ custom) = custom.
Proof.
  intros Hc. unfold custom_of. rewrite List.filter_app.
  rewrite filter_all_false, filter_all_true; [done| |].
  - eapply Forall_impl; [exact Hc|]. intros t Ht. simpl.
    rewrite bool_decide_eq_false_2; [done|]. by rewrite default_names_spec.
  - apply Forall_forall. intros t Ht. simpl.
    rewrite bool_decide_eq_true_2; [done|]. rewrite default_names_spec.
    by apply list_elem_of_fmap_2.
Qed.

Lemma save_custom_templates_ok (now : Z) (m : Manager) (d : Disk) :
  templates_file m ∉ read_only d ->
  save_custom_templates defaults now m d
  = (Ok tt, mkDisk (<[templates_file m :=
                       mkTemplatesFile (custom_of defaults (templates m)) now]> (files d))
                   (read_only d)).
Proof.
  intros Hw. unfold save_custom_templates, write_file.
  by rewrite bool_decide_eq_false_2.
Qed.

Lemma save_custom_templates_locked (now : Z) (m : Manager) (d : Disk) :
  templates_file m ∈ read_only d ->
  save_custom_templates defaults now m d = (Raise OSError, d).
Proof.
  intros Hw. unfold save_custom_templates, write_file.
  by rewrite bool_decide_eq_true_2.
Qed.

Lemma add_template_manager (t : WaiverTemplate.t) (now : Z) (m : Manager) (d : Disk) :
  snd (add_template defaults t now m d)
  = match get_template (WaiverTemplate.name t) m with
    | Some _ => (m, d)
    | None => (mkManager (templates_file m) (templates m ++ [t]),
               snd (save_custom_templates defaults now
                      (mkManager (templates_file m) (templates m ++ [t])) d))
    end.
Proof.
  unfold add_template. destruct (get_template _ m); [done|].
  by destruct (save_custom_templates _ _ _ _) as [[[]|e] d'].
Qed.

(** X22: a template under a free name, with a templates file that can be
    written, is added: [add_template] returns [True], [get_template] then
    finds it under its name and finds under every other name what it found
    before, and the file holds the templates of the list that are not
    built in, the new one included if its name is not built in. No other
    file changes. *)
Theorem add_template_then_get (t : WaiverTemplate.t) (now : Z) (m : Manager)
    (d : Disk) :
  get_template (WaiverTemplate.name t) m = None ->
  templates_file m ∉ read_only d ->
  exists m' d',
    add_template defaults t now m d = (Ok true, (m', d'))
    /\ templates m' = templates m ++ [t]
    /\ get_template (WaiverTemplate.name t) m' = Some t
    /\ (forall name, name <> WaiverTemplate.name t ->
                     get_template name m' = get_template name m)
    /\ files d' !! templates_file m
       = Some (mkTemplatesFile (custom_of defaults (templates m ++ [t])) now)
    /\ (forall path, path <> templates_file m -> files d' !! path = files d !! path).
Proof.
  intros Hfree Hw. unfold add_template. rewrite Hfree.
  rewrite save_custom_templates_ok by done. cbn [templates templates_file].
  eexists _, _. split; [reflexivity|]. split; [done|]. split; [|split; [|split]].
  - destruct m as [path ts]. rewrite get_template_snoc. cbn [templates_file templates].
    rewrite Hfree. by rewrite bool_decide_eq_true_2.
  - intros name Hne. destruct m as [path ts]. rewrite get_template_snoc.
    cbn [templates_file templates]. destruct (get_template name _); [done|].
    by rewrite bool_decide_eq_false_2.
  - cbn [files]. by rewrite lookup_insert_eq.
  - intros path Hne. cbn [files]. by rewrite lookup_insert_ne.
Qed.

(** X23: when the templates file cannot be written, [add_template] raises
    the error of the write, the disk is as before, and yet the template
    stays in the list of the manager: [get_template] finds it, and adding
    it again is refused as a duplicate. *)
Theorem add_template_failed_save (t : WaiverTemplate.t) (now : Z) (m : Manager)
    (d : Disk) :
  get_template (WaiverTemplate.name t) m = None ->
  templates_file m ∈ read_only d ->
  exists m',
    add_template defaults t now m d = (Raise OSError, (m', d))
    /\ templates m' = templates m ++ [t]
    /\ get_template (WaiverTemplate.name t) m' = Some t
    /\ (forall now' d2, add_template defaults t now' m' d2 = (Ok false, (m', d2))).
Proof.
  intros Hfree Hw. unfold add_template at 1. rewrite Hfree.
  rewrite save_custom_templates_locked by done.
  eexists. split; [reflexivity|]. split; [done|].
  assert (Hget : get_template (WaiverTemplate.name t)
                   (mkManager (templates_file m) (templates m ++ [t])) = Some t).
  { destruct m as [path ts]. rewrite get_template_snoc. cbn [templates_file templates].
    rewrite Hfree. by rewrite bool_decide_eq_true_2. }
  split; [done|]. intros now' d2. unfold add_template. by rewrite Hget.
Qed.

(** X24: the shape of the list is kept by [add_template] and by
    [remove_template], whatever they return or raise: the built-in
    templates stay at the front in their order, the templates after them
    have other names, and no name occurs twice. *)
Theorem store_shape_is_kept (now : Z) (m : Manager) (d : Disk) :
  store_ok defaults m ->
  (forall t, store_ok defaults (fst (snd (add_template defaults t now m d))))
  /\ (forall name, store_ok defaults (fst (snd (remove_template defaults name now m d)))).
Proof.
  intros (custom & Hts & Hcustom & Hdup). split.
  - intros t. rewrite add_template_manager.
    destruct (get_template (WaiverTemplate.name t) m) eqn:Hget;
      [by exists custom|].
    apply get_template_None in Hget. unfold store_ok. cbn [fst templates].
    exists (custom ++ [t]). split; [by rewrite Hts, app_assoc|]. split.
    + apply Forall_app. split; [done|]. constructor; [|constructor].
      intros Hin. apply Hget. rewrite Hts, fmap_app. apply elem_of_app. by left.
    + rewrite fmap_app. apply NoDup_app. split; [done|]. split.
      * intros x Hx Hx'. apply list_elem_of_singleton in Hx'. by subst x.
      * apply NoDup_singleton.
  - intros name. unfold remove_template.
    destruct (bool_decide_reflect (name ∈ default_names defaults)) as [Hin|Hnotin];
      [by exists custom|].
    destruct (index_of_name name (templates m) 0) as [i|] eqn:Hidx;
      [|by exists custom].
    assert (Hm' : fst (snd (match save_custom_templates defaults now
                                    (mkManager (templates_file m) (delete i (templates m))) d
                            with
                            | (Ok _, d') =>
                                (Ok true, (mkManager (templates_file m)
                                             (delete i (templates m)), d'))
                            | (Raise e, d') =>
                                (Raise e, (mkManager (templates_file m)
                                             (delete i (templates m)), d'))
                            end))
                  = mkManager (templates_file m) (delete i (templates m))).
    { by destruct (save_custom_templates _ _ _ _) as [[[]|e] d']. }
    cbv zeta. rewrite Hm'. clear Hm'. unfold store_ok. cbn [templates].
    destruct (index_of_name_Some _ _ _ _ Hidx) as (t & Hlook & Hname & _).
    rewrite Nat.sub_0_r in Hlook. rewrite default_names_spec in Hnotin.
    assert (Hi : (length defaults <= i)%nat).
    { destruct (decide (i < length defaults)%nat) as [Hlt|]; [|lia].
      exfalso. apply Hnotin. rewrite <- Hname.
      rewrite Hts, lookup_app_l in Hlook by done.
      apply list_elem_of_fmap_2. by eapply list_elem_of_lookup_2. }
    exists (delete (i - length defaults)%nat custom). cbn [templates]. split; [|split].
    + rewrite Hts. by apply delete_app_r.
    + by apply Forall_delete.
    + rewrite list_fmap_delete. eapply sublist_NoDup; [exact Hdup|].
      apply sublist_delete.
Qed.

(** X25: what [save_custom_templates] writes brings the manager back: a
    manager created from the file it wrote has the same list of templates,
    in the same order. *)
Theorem saved_templates_reload (now : Z) (m : Manager) (d d' : Disk) :
  store_ok defaults m ->
  save_custom_templates defaults now m d = (Ok tt, d') ->
  WaiverTemplateManager_init defaults (templates_file m)
    (read_file (templates_file m) d') = m.
Proof.
  intros (custom & Hts & Hcustom & _) Hsave.
  unfold save_custom_templates, write_file in Hsave.
  destruct (bool_decide (templates_file m ∈ read_only d)); [done|].
  injection Hsave as <-.
  unfold WaiverTemplateManager_init, read_file. cbn [files].
  rewrite lookup_insert_eq. cbn [_load_custom_templates templates templates_file
                                 custom_templates].
  fold (custom_of defaults (templates m)). rewrite Hts, custom_of_shape by done.
  destruct m as [path ts]. simpl in *. by subst ts.
Qed.

(** X26: removing a template that was just added undoes the addition: the
    manager is the one before, and the file holds the custom templates of
    that manager. *)
Theorem add_then_remove (t : WaiverTemplate.t) (now now' : Z) (m : Manager)
    (d : Disk) :
  get_template (WaiverTemplate.name t) m = None ->
  WaiverTemplate.name t ∉ (WaiverTemplate.name <$> defaults) ->
  templates_file m ∉ read_only d ->
  exists m1 d1 d2,
    add_template defaults t now m d = (Ok true, (m1, d1))
    /\ remove_template defaults (WaiverTemplate.name t) now' m1 d1 = (Ok true, (m, d2))
    /\ files d2 !! templates_file m
       = Some (mkTemplatesFile (custom_of defaults (templates m)) now').
Proof.
  destruct m as [path ts]. cbn [templates templates_file].
  intros Hfree Hnd Hw. unfold add_template. rewrite Hfree.
  rewrite save_custom_templates_ok by done. cbn [templates templates_file].
  eexists _, _, _. split; [reflexivity|].
  unfold remove_template. rewrite <- default_names_spec in Hnd.
  rewrite (bool_decide_eq_false_2 _ Hnd). cbn [templates templates_file].
  apply get_template_None in Hfree. cbn [templates] in Hfree.
  rewrite (index_of_name_snoc _ _ _ _ Hfree eq_refl). cbn [Nat.add].
  replace (delete (length ts) (ts ++ [t])) with ts
    by (symmetry; rewrite (delete_middle ts [] t); apply app_nil_r).
  rewrite save_custom_templates_ok by done. cbn [templates templates_file files read_only].
  split; [reflexivity|]. cbn [files]. by rewrite lookup_insert_eq.
Qed.

End TemplatesMore.

Lemma add_template_then_get_witness :
  exists m' d',
    add_template _load_default_templates pilot_template 1700000000 fresh_manager
                 (mkDisk ∅ ∅)
    = (Ok true, (m', d'))
    /\ get_template "pilot_exception" m' = Some pilot_template.
Proof.
  destruct (add_template_then_get _load_default_templates pilot_template 1700000000
              fresh_manager (mkDisk ∅ ∅))
    as (m' & d' & Hadd & _ & Hget & _).
  - vm_compute. reflexivity.
  - apply (bool_decide_unpack _). by vm_compute.
  - by exists m', d'.
Defined.

Lemma add_template_failed_save_witness :
  exists m',
    add_template _load_default_templates pilot_template 1700000000 fresh_manager
                 locked_disk
    = (Raise OSError, (m', locked_disk))
    /\ get_template "pilot_exception" m' = Some pilot_template.
Proof.
  destruct (add_template_failed_save _load_default_templates pilot_template 1700000000
              fresh_manager locked_disk)
    as (m' & Hadd & _ & Hget & _).
  - vm_compute. reflexivity.
  - apply (bool_decide_unpack _). by vm_compute.
  - by exists m'.
Defined.

Lemma store_shape_is_kept_witness :
  store_ok _load_default_templates
    (fst (snd (remove_template _load_default_templates "pilot_exception" 1700000100
                               pilot_manager pilot_disk))).
Proof.
  apply (store_shape_is_kept _load_default_templates 1700000100 pilot_manager
           pilot_disk).
  exists [pilot_template]. split; [reflexivity|]. split.
  - constructor; [|constructor]. apply (bool_decide_unpack _). by vm_compute.
  - apply (bool_decide_unpack _). by vm_compute.
Defined.

Lemma saved_templates_reload_witness :
  WaiverTemplateManager_init _load_default_templates "waiver_templates.json"
    (read_file "waiver_templates.json" pilot_disk) = pilot_manager.
Proof.
  apply (saved_templates_reload _load_default_templates 1700000000 pilot_manager
           (mkDisk ∅ ∅) pilot_disk).
  - exists [pilot_template]. split; [reflexivity|]. split.
    + constructor; [|constructor]. apply (bool_decide_unpack _). by vm_compute.
    + apply (bool_decide_unpack _). by vm_compute.
  - vm_compute. reflexivity.
Defined.

Lemma add_then_remove_witness :
  exists m1 d1 d2,
    add_template _load_default_templates pilot_template 1700000000 fresh_manager
                 (mkDisk ∅ ∅)
    = (Ok true, (m1, d1))
    /\ remove_template _load_default_templates "pilot_exception" 1700000100 m1 d1
       = (Ok true, (fresh_manager, d2)).
Proof.
  destruct (add_then_remove _load_default_templates pilot_template 1700000000
              1700000100 fresh_manager (mkDisk ∅ ∅))
    as (m1 & d1 & d2 & Hadd & Hrem & _).
  - vm_compute. reflexivity.
  - apply (bool_decide_unpack _). by vm_compute.
  - apply (bool_decide_unpack _). by vm_compute.
  - by exists m1, d1, d2.
Defined.
